(** * Heat exchanger design tool: the calculation script of [app.py]

    The script is embedded once, over an interface [Arith] for the
    arithmetic of Python's [float], and read through two instances:

    - [IEEE.arith]: binary64 numbers ([PrimFloat]), the numbers the
      interpreter computes with.  It is executable, and it is where
      NaN, infinities, signed zeros, rounding, overflow and underflow
      live.  The properties of the script are stated on it; where they
      depend on rounding they are derived from [SpecFloat], the
      specification of the primitive operations.
    - [Exact.arith]: real numbers, with every decimal literal read as
      the decimal it spells.  It serves the worked example of the
      specification, and tells what holds of the formulas before any
      rounding.

    What Python adds on top of the arithmetic is modelled for both at once:
    the run-time type of a number (a Python [float], or a [numpy.float64]
    once [np.log] has been applied), and [ZeroDivisionError], which only a
    division between two Python numbers raises. *)

From Stdlib Require Import Reals Lra Lia ZArith List Floats Bool String.
Import ListNotations.

Set Implicit Arguments.

(* A decimal literal denotes the nearest binary64 number, as in Python. *)
Set Warnings "-inexact-float".

(** ** Arithmetic interface *)

Class Arith (F : Type) := {
  add : F -> F -> F;
  sub : F -> F -> F;
  mul : F -> F -> F;
  div : F -> F -> F;          (* quotient without the zero check *)
  fabs : F -> F;
  lt : F -> F -> bool;        (* x < y *)
  le : F -> F -> bool;        (* x <= y *)
  eq0 : F -> bool;            (* x == 0 *)
  of_int : Z -> F;            (* an int literal met by a float *)
  lit_1e_6 : F;               (* the literal 1e-6 *)
  log : F -> F                (* numpy.log on one number *)
}.

(** ** Python values and exceptions *)

Inductive exn := ZeroDivisionError.

Inductive outcome (A : Type) :=
| Ok (a : A)
| Raise (e : exn).
Arguments Ok {A} a.
Arguments Raise {A} e.

Definition bind {A B} (m : outcome A) (k : A -> outcome B) : outcome B :=
  match m with
  | Ok a => k a
  | Raise e => Raise e
  end.

Notation "x <- m ;; k" := (bind m (fun x => k))
  (at level 61, m at next level, right associativity).

(** A number together with its run-time type. *)
Inductive value (F : Type) :=
| py (x : F)     (* float *)
| np (x : F).    (* numpy.float64 *)

Definition num {F} (v : value F) : F :=
  match v with py x => x | np x => x end.

Definition is_np {F} (v : value F) : bool :=
  match v with py _ => false | np _ => true end.

Section Script.

Context {F : Type} {AF : Arith F}.

Definition retag (a b : value F) (x : F) : value F :=
  if is_np a || is_np b then np x else py x.

Definition vadd (a b : value F) := retag a b (add (num a) (num b)).
Definition vsub (a b : value F) := retag a b (sub (num a) (num b)).
Definition vmul (a b : value F) := retag a b (mul (num a) (num b)).

(** [a / b]: two Python numbers raise on a zero divisor; as soon as one
    operand is a numpy scalar the quotient is numpy's and nothing is
    raised. *)
Definition truediv (a b : value F) : outcome (value F) :=
  if is_np a || is_np b then Ok (np (div (num a) (num b)))
  else if eq0 (num b) then Raise ZeroDivisionError
       else Ok (py (div (num a) (num b))).

Definition vabs (a : value F) : value F :=
  match a with py x => py (fabs x) | np x => np (fabs x) end.

Definition vlt (a b : value F) : bool := lt (num a) (num b).
Definition vge (a b : value F) : bool := le (num b) (num a).

(** The builtins [min(a, b)] and [max(a, b)]: the first argument is kept
    unless the second is strictly smaller (resp. strictly greater). *)
Definition py_min (a b : value F) : value F := if vlt b a then b else a.
Definition py_max (a b : value F) : value F := if vlt a b then b else a.

(** [np.log(a)]: the result is a numpy scalar whatever [a] was. *)
Definition np_log (a : value F) : value F := np (log (num a)).

Definition int (z : Z) : value F := py (of_int z).

(** ** Inputs: the nine [st.number_input] readings and the radio button *)

Inductive Configuration := Counterflow | ParallelFlow.

Record Inputs := {
  Th_in : F; Th_out : F; m_hot : F; Cp_hot : F;
  Tc_in : F; Tc_out : F; m_cold : F; Cp_cold : F;
  U : F
}.

(** The same readings with another overall heat-transfer coefficient. *)
Definition with_U (u : F) (i : Inputs) : Inputs := {|
  Th_in := Th_in i; Th_out := Th_out i; m_hot := m_hot i; Cp_hot := Cp_hot i;
  Tc_in := Tc_in i; Tc_out := Tc_out i; m_cold := m_cold i;
  Cp_cold := Cp_cold i; U := u
|}.

(** ** The calculation block, one definition per assignment *)

Definition calc_Q_hot (i : Inputs) : value F :=
  vmul (vmul (py (m_hot i)) (py (Cp_hot i))) (vsub (py (Th_in i)) (py (Th_out i))).

Definition calc_Q_cold (i : Inputs) : value F :=
  vmul (vmul (py (m_cold i)) (py (Cp_cold i))) (vsub (py (Tc_out i)) (py (Tc_in i))).

Definition calc_Q_avg (q_hot q_cold : value F) : outcome (value F) :=
  truediv (vadd q_hot q_cold) (int 2).

Definition calc_Q (q_avg : value F) : value F := vmul q_avg (int 1000).

Definition calc_dT1 (c : Configuration) (i : Inputs) : value F :=
  match c with
  | Counterflow => vsub (py (Th_in i)) (py (Tc_out i))
  | ParallelFlow => vsub (py (Th_in i)) (py (Tc_in i))
  end.

Definition calc_dT2 (c : Configuration) (i : Inputs) : value F :=
  match c with
  | Counterflow => vsub (py (Th_out i)) (py (Tc_in i))
  | ParallelFlow => vsub (py (Th_out i)) (py (Tc_out i))
  end.

Definition degenerate (d1 d2 : value F) : bool :=
  vlt (vabs (vsub d1 d2)) (py lit_1e_6).

Definition calc_LMTD (d1 d2 : value F) : outcome (value F) :=
  if degenerate d1 d2 then Ok d1
  else r <- truediv d1 d2 ;; truediv (vsub d1 d2) (np_log r).

Definition calc_A (q u lmtd : value F) : outcome (value F) :=
  truediv q (vmul u lmtd).

Definition calc_C_hot (i : Inputs) : value F :=
  vmul (vmul (py (m_hot i)) (py (Cp_hot i))) (int 1000).

Definition calc_C_cold (i : Inputs) : value F :=
  vmul (vmul (py (m_cold i)) (py (Cp_cold i))) (int 1000).

Definition calc_C_ratio (c_min c_max : value F) : outcome (value F) :=
  truediv c_min c_max.

Definition calc_Q_max (c_min : value F) (i : Inputs) : value F :=
  vmul c_min (vsub (py (Th_in i)) (py (Tc_in i))).

Definition calc_effectiveness (q q_max : value F) : outcome (value F) :=
  truediv q q_max.

Definition calc_NTU (u a c_min : value F) : outcome (value F) :=
  truediv (vmul u a) c_min.

Definition calc_heat_balance_error (q_hot q_cold q_avg : value F)
  : outcome (value F) :=
  e <- truediv (vabs (vsub q_hot q_cold)) q_avg ;; Ok (vmul e (int 100)).

(** The variables the block leaves behind when it runs to its end. *)
Record Results := {
  Q_hot : value F; Q_cold : value F; Q_avg : value F; Q : value F;
  dT1 : value F; dT2 : value F; LMTD : value F; A : value F;
  C_hot : value F; C_cold : value F; C_min : value F; C_max : value F;
  C_ratio : value F; Q_max : value F; effectiveness : value F;
  NTU : value F; heat_balance_error : value F
}.

(** Lines 165-201, in the order they are executed. *)
Definition calculations (c : Configuration) (i : Inputs) : outcome Results :=
  let q_hot := calc_Q_hot i in
  let q_cold := calc_Q_cold i in
  q_avg <- calc_Q_avg q_hot q_cold ;;
  let q := calc_Q q_avg in
  let d1 := calc_dT1 c i in
  let d2 := calc_dT2 c i in
  lmtd <- calc_LMTD d1 d2 ;;
  a <- calc_A q (py (U i)) lmtd ;;
  let c_hot := calc_C_hot i in
  let c_cold := calc_C_cold i in
  let c_min := py_min c_hot c_cold in
  let c_max := py_max c_hot c_cold in
  c_ratio <- calc_C_ratio c_min c_max ;;
  let q_max := calc_Q_max c_min i in
  eff <- calc_effectiveness q q_max ;;
  ntu <- calc_NTU (py (U i)) a c_min ;;
  hbe <- calc_heat_balance_error q_hot q_cold q_avg ;;
  Ok {| Q_hot := q_hot; Q_cold := q_cold; Q_avg := q_avg; Q := q;
        dT1 := d1; dT2 := d2; LMTD := lmtd; A := a;
        C_hot := c_hot; C_cold := c_cold; C_min := c_min; C_max := c_max;
        C_ratio := c_ratio; Q_max := q_max; effectiveness := eff;
        NTU := ntu; heat_balance_error := hbe |}.

(** The block run line by line: [r] holds the variables it assigns. *)
Definition runs_to (c : Configuration) (i : Inputs) (r : Results) : Prop :=
  Q_hot r = calc_Q_hot i /\
  Q_cold r = calc_Q_cold i /\
  calc_Q_avg (Q_hot r) (Q_cold r) = Ok (Q_avg r) /\
  Q r = calc_Q (Q_avg r) /\
  dT1 r = calc_dT1 c i /\
  dT2 r = calc_dT2 c i /\
  calc_LMTD (dT1 r) (dT2 r) = Ok (LMTD r) /\
  calc_A (Q r) (py (U i)) (LMTD r) = Ok (A r) /\
  C_hot r = calc_C_hot i /\
  C_cold r = calc_C_cold i /\
  C_min r = py_min (C_hot r) (C_cold r) /\
  C_max r = py_max (C_hot r) (C_cold r) /\
  calc_C_ratio (C_min r) (C_max r) = Ok (C_ratio r) /\
  Q_max r = calc_Q_max (C_min r) i /\
  calc_effectiveness (Q r) (Q_max r) = Ok (effectiveness r) /\
  calc_NTU (py (U i)) (A r) (C_min r) = Ok (NTU r) /\
  calc_heat_balance_error (Q_hot r) (Q_cold r) (Q_avg r)
    = Ok (heat_balance_error r).

(** ** Performance classification (lines 15-26 of [effectiveness_gauge]) *)

Definition performance_classification (eff : value F) : string * string :=
  if vge eff (int 80) then ("Excellent", "green")%string
  else if vge eff (int 60) then ("Good", "limegreen")%string
  else if vge eff (int 40) then ("Fair", "orange")%string
  else ("Poor", "red")%string.

(** ** Temperature profile (lines 237-244) *)

(** [np.linspace(start, stop, num)] with its default [endpoint=True]:
    [num] samples [j * step + start] with [step = (stop - start) / (num - 1)],
    the last one set to [stop] itself.  (numpy computes the samples in
    another order when [step] is zero; the script calls it with 0 and 1.) *)
Definition np_linspace (start stop : F) (n : nat) : list F :=
  match n with
  | O => []
  | S O => [start]
  | S (S k as d) =>
      let step := div (sub stop start) (of_int (Z.of_nat d)) in
      map (fun j => add (mul (of_int (Z.of_nat j)) step) start) (seq 0 d)
      ++ [stop]
  end.

Record Profile := { x : list F; Th : list F; Tc : list F }.

Definition temperature_profile (c : Configuration) (i : Inputs) : Profile :=
  let x := np_linspace (of_int 0) (of_int 1) 50 in
  match c with
  | Counterflow =>
      {| x := x;
         Th := map (fun t => sub (Th_in i) (mul (sub (Th_in i) (Th_out i)) t)) x;
         Tc := map (fun t => sub (Tc_out i) (mul (sub (Tc_out i) (Tc_in i)) t)) x |}
  | ParallelFlow =>
      {| x := x;
         Th := map (fun t => sub (Th_in i) (mul (sub (Th_in i) (Th_out i)) t)) x;
         Tc := map (fun t => add (Tc_in i) (mul (sub (Tc_out i) (Tc_in i)) t)) x |}
  end.

End Script.

Arguments Inputs F : clear implicits.
Arguments Results F : clear implicits.
Arguments Profile F : clear implicits.

(** ** Binary64 reading *)

Module IEEE.

Open Scope float_scope.

Definition float_of_int (z : Z) : float :=
  match z with
  | Zneg _ => - of_uint63 (Uint63.of_Z (- z))
  | _ => of_uint63 (Uint63.of_Z z)
  end.

(** The instance is a function of the logarithm: [numpy.log] is library
    code, known here only through what the theorems assume of it. *)
Definition arith (lg : float -> float) : Arith float := {|
  add := PrimFloat.add;
  sub := PrimFloat.sub;
  mul := PrimFloat.mul;
  div := PrimFloat.div;
  fabs := PrimFloat.abs;
  lt := PrimFloat.ltb;
  le := PrimFloat.leb;
  eq0 := fun x => x =? 0;
  of_int := float_of_int;
  lit_1e_6 := 1e-6;
  log := lg
|}.

(** A concrete logarithm to run the script with: the special values of
    C99's [log], which numpy follows, and for a positive finite argument
    [m * 2^e] the series of [2 * atanh ((m - 1) / (m + 1))] added to
    [e * ln 2].  It is within a few units in the last place of the true
    logarithm; it is not claimed to agree with numpy bit for bit. *)
Fixpoint atanh_tail (n : nat) (k : Z) (z2 : float) : float :=
  match n with
  | O => 0
  | S n' => 1 / float_of_int k + z2 * atanh_tail n' (k + 2) z2
  end.

Definition ln2 : float := 0.6931471805599453.

Definition log_model (x : float) : float :=
  if is_nan x then nan
  else if x <? 0 then nan
  else if x =? 0 then neg_infinity
  else if x =? infinity then infinity
  else
    let (m, e) := Z.frexp x in
    let (m, e) := if m <? 0.7071067811865476 then (2 * m, (e - 1)%Z) else (m, e) in
    let z := (m - 1) / (m + 1) in
    float_of_int e * ln2 + 2 * z * atanh_tail 16 1 (z * z).

(** The four kinds of binary64 numbers. *)
Inductive sf_class := CNan | CInf | CZero | CFin.

Definition sf_class_of (x : spec_float) : sf_class :=
  match x with
  | S754_nan => CNan
  | S754_infinity _ => CInf
  | S754_zero _ => CZero
  | S754_finite _ _ _ => CFin
  end.

Definition class_of (x : float) : sf_class := sf_class_of (Prim2SF x).

Definition zero_or_nan (x : float) : Prop :=
  class_of x = CZero \/ class_of x = CNan.

Definition inf_or_nan (x : float) : Prop :=
  class_of x = CInf \/ class_of x = CNan.

(** The form's default flow rates, specific heats and [U], with the four
    temperatures given. *)
Definition readings (th_in th_out tc_in tc_out : float) : Inputs float := {|
  Th_in := th_in; Th_out := th_out; m_hot := 2.5; Cp_hot := 4.18;
  Tc_in := tc_in; Tc_out := tc_out; m_cold := 3; Cp_cold := 4.18;
  U := 500
|}.

Definition default_inputs : Inputs float := readings 150 90 25 70.

(** What the block leaves behind on some of these readings, with
    [log_model] for [np.log]. *)
Definition default_counterflow : Results float := {|
  Q_hot := py 627; Q_cold := py 564.29999999999995;
  Q_avg := py 595.64999999999998; Q := py 595650;
  dT1 := py 80; dT2 := py 65;
  LMTD := np 72.240637106647654; A := np 16.49071835068818;
  C_hot := py 10450; C_cold := py 12540; C_min := py 10450; C_max := py 12540;
  C_ratio := py 0.83333333333333337; Q_max := py 1306250;
  effectiveness := py 0.45600000000000002; NTU := np 0.78902958615732921;
  heat_balance_error := py 10.526315789473692
|}.

Definition default_parallel : Results float := {|
  Q_hot := py 627; Q_cold := py 564.29999999999995;
  Q_avg := py 595.64999999999998; Q := py 595650;
  dT1 := py 125; dT2 := py 20;
  LMTD := np 57.296225066707805; A := np 20.791945692984399;
  C_hot := py 10450; C_cold := py 12540; C_min := py 10450; C_max := py 12540;
  C_ratio := py 0.83333333333333337; Q_max := py 1306250;
  effectiveness := py 0.45600000000000002; NTU := np 0.99482993746336834;
  heat_balance_error := py 10.526315789473692
|}.

(** Cold side at a constant 50 degrees: both configurations. *)
Definition flat_cold : Results float := {|
  Q_hot := py 627; Q_cold := py 0; Q_avg := py 313.5; Q := py 313500;
  dT1 := py 100; dT2 := py 40;
  LMTD := np 65.481400076237492; A := np 9.5752381480849191;
  C_hot := py 10450; C_cold := py 12540; C_min := py 10450; C_max := py 12540;
  C_ratio := py 0.83333333333333337; Q_max := py 1045000;
  effectiveness := py 0.29999999999999999; NTU := np 0.4581453659370775;
  heat_balance_error := py 200
|}.

(** Hot outlet below the cold inlet, counterflow: [dT1 = 80], [dT2 = -5]. *)
Definition crossing : Results float := {|
  Q_hot := py 1358.5; Q_cold := py 564.29999999999995;
  Q_avg := py 961.39999999999998; Q := py 961400;
  dT1 := py 80; dT2 := py (-5);
  LMTD := np nan; A := np nan;
  C_hot := py 10450; C_cold := py 12540; C_min := py 10450; C_max := py 12540;
  C_ratio := py 0.83333333333333337; Q_max := py 1306250;
  effectiveness := py 0.73599999999999999; NTU := np nan;
  heat_balance_error := py 82.608695652173921
|}.

(** Hot inlet at the cold outlet's 70 degrees, counterflow: [dT1 = 0]. *)
Definition zero_dT1 : Results float := {|
  Q_hot := py 209; Q_cold := py 564.29999999999995;
  Q_avg := py 386.64999999999998; Q := py 386650;
  dT1 := py 0; dT2 := py 25;
  LMTD := np 0; A := np infinity;
  C_hot := py 10450; C_cold := py 12540; C_min := py 10450; C_max := py 12540;
  C_ratio := py 0.83333333333333337; Q_max := py 470250;
  effectiveness := py 0.82222222222222219; NTU := np infinity;
  heat_balance_error := py 91.891891891891888
|}.

(** Equal differences at both ends, counterflow: [dT1 = dT2 = 40]. *)
Definition equal_dT : Results float := {|
  Q_hot := py 365.75; Q_cold := py 438.89999999999998;
  Q_avg := py 402.32499999999999; Q := py 402325;
  dT1 := py 40; dT2 := py 40;
  LMTD := py 40; A := py 20.116250000000001;
  C_hot := py 10450; C_cold := py 12540; C_min := py 10450; C_max := py 12540;
  C_ratio := py 0.83333333333333337; Q_max := py 783750;
  effectiveness := py 0.51333333333333331; NTU := py 0.96250000000000002;
  heat_balance_error := py 18.181818181818176
|}.

End IEEE.

(** ** Exact reading *)

Module Exact.

Open Scope R_scope.

Definition Rltb (x y : R) : bool := if Rlt_dec x y then true else false.
Definition Rleb (x y : R) : bool := if Rle_dec x y then true else false.
Definition Req0 (x : R) : bool := if Req_dec_T x 0 then true else false.

(** Where a divisor is zero or the argument of [ln] is not positive the
    values of [Rdiv] and [ln] carry no meaning: the theorems of this
    reading keep away from both through their hypotheses.  Literals are
    the decimals they spell: [1e-6] is [1 / 1000000] and 4.18 is
    [418 / 100], not the binary64 numbers nearest to them. *)
#[local] Instance arith : Arith R := {|
  add := Rplus;
  sub := Rminus;
  mul := Rmult;
  div := Rdiv;
  fabs := Rabs;
  lt := Rltb;
  le := Rleb;
  eq0 := Req0;
  of_int := IZR;
  lit_1e_6 := 1 / 1000000;
  log := ln
|}.

Definition readings (th_in th_out tc_in tc_out : R) : Inputs R := {|
  Th_in := th_in; Th_out := th_out; m_hot := 5 / 2; Cp_hot := 418 / 100;
  Tc_in := tc_in; Tc_out := tc_out; m_cold := 3; Cp_cold := 418 / 100;
  U := 500
|}.

Definition default_inputs : Inputs R := readings 150 90 25 70.

(** What the block computes from [default_inputs] under counterflow,
    when [U] is set to [u]. *)
Definition example_results (u : R) : Results R := {|
  Q_hot := py 627; Q_cold := py (5643 / 10); Q_avg := py (11913 / 20);
  Q := py 595650;
  dT1 := py 80; dT2 := py 65;
  LMTD := np (15 / ln (16 / 13));
  A := np (595650 / (u * (15 / ln (16 / 13))));
  C_hot := py 10450; C_cold := py 12540; C_min := py 10450; C_max := py 12540;
  C_ratio := py (10450 / 12540);
  Q_max := py 1306250;
  effectiveness := py (456 / 1000);
  NTU := np (u * (595650 / (u * (15 / ln (16 / 13)))) / 10450);
  heat_balance_error := py (200 / 19)
|}.

Definition default_results : Results R := example_results 500.

End Exact.

(** ** Fixed-point squaring, to bound [exp] by rational numbers *)

Module Bounds.

(** A number [X / scale]. *)
Definition scale : Z := 10 ^ 30.

Definition sq_down (X : Z) : Z := (X * X / scale)%Z.
Definition sq_up (X : Z) : Z := (X * X / scale + 1)%Z.

Fixpoint iter_sq (f : Z -> Z) (k : nat) (X : Z) : Z :=
  match k with
  | O => X
  | S k' => f (iter_sq f k' X)
  end.

(** [sqn k y] is [y ^ (2 ^ k)]. *)
Fixpoint sqn (k : nat) (y : R) : R :=
  match k with
  | O => y
  | S k' => (sqn k' y * sqn k' y)%R
  end.

Definition fx (X : Z) : R := (IZR X / IZR scale)%R.

End Bounds.

(** ** The gauge of [effectiveness_gauge] (lines 28-50, 64) and its call *)

Section Gauge.

Context {F : Type} {AF : Arith F}.

(** One entry of ["steps"]: a range of the axis and its colour. *)
Record Step := { range_lo : F; range_hi : F; step_color : string }.

(** What [go.Indicator] is given, as far as it depends on the arguments
    or carries numbers and colours: the value, the suffix of the number,
    the range of the axis, the colour of the bar, the steps and the value
    of the threshold.  The constant [mode], title and styling of the
    threshold line, and the layout of the figure, are left out. *)
Record Indicator := {
  indicator_value : value F;
  number_suffix : string;
  axis_range : F * F;
  bar_color : string;
  steps : list Step;
  threshold_value : value F
}.

Definition gauge_steps : list Step :=
  [ {| range_lo := of_int 0; range_hi := of_int 40; step_color := "#fee2e2" |};
    {| range_lo := of_int 40; range_hi := of_int 60; step_color := "#fde68a" |};
    {| range_lo := of_int 60; range_hi := of_int 80; step_color := "#bbf7d0" |};
    {| range_lo := of_int 80; range_hi := of_int 100; step_color := "#86efac" |} ].

(** The figure, and the text of [st.success].  The two [st.metric] lines,
    which print [ntu] and [c_ratio] as decimal text, are left out. *)
Definition effectiveness_gauge (eff : value F) : Indicator * string :=
  let (label, color) := performance_classification eff in
  ({| indicator_value := eff;
      number_suffix := "%";
      axis_range := (of_int 0, of_int 100);
      bar_color := color;
      steps := gauge_steps;
      threshold_value := eff |},
   ("Performance Rating: **" ++ label ++ "**")%string).

(** Lines 205-209: the gauge is given [effectiveness * 100]. *)
Definition performance_analysis (r : Results F) : Indicator * string :=
  effectiveness_gauge (vmul (effectiveness r) (int 100)).

End Gauge.

Arguments Step F : clear implicits.
Arguments Indicator F : clear implicits.

(** ** Rounding to binary64, as [SpecFloat] defines it

    Names for the steps of [binary_round_aux], which the facts on the
    rounding of sums, products and quotients are stated with. *)

Module Round.

(** Something was shifted out, or the mantissa was inexact already. *)
Definition inexact (mrs : shr_record) : bool := (shr_r mrs || shr_s mrs)%bool.

(** The last step of [binary_round_aux]: a number of the format from a
    mantissa and an exponent. *)
Definition build (s : bool) (m e : Z) : spec_float :=
  match m with
  | Z0 => S754_zero s
  | Zpos p => if (e <=? emax - prec)%Z then S754_finite s p e else S754_infinity s
  | Zneg _ => S754_nan
  end.

(** Its second shift, which makes room for a carry of the rounding. *)
Definition finish (s : bool) (m e : Z) : spec_float :=
  let k := (SpecFloat.fexp prec emax (Zdigits2 m + e) - e)%Z in
  if (0 <? k)%Z then build s (m / 2 ^ k)%Z (e + k)%Z else build s m e.

(** An infinity or a finite number other than zero, of sign [s]. *)
Definition nonzero_number (s : bool) (r : spec_float) : Prop :=
  r = S754_infinity s \/ exists p e, r = S754_finite s p e.

End Round.

(** ** Readings at the edges of binary64 *)

Module Cases.

Import IEEE.
#[local] Open Scope float_scope.

(** Hot-side flow rate and specific heat so small that their product
    underflows to zero. *)
Definition tiny_hot : Inputs float := {|
  Th_in := 150; Th_out := 90; m_hot := 1e-200; Cp_hot := 1e-200;
  Tc_in := 25; Tc_out := 70; m_cold := 3; Cp_cold := 4.18;
  U := 500
|}.

(** The same on both sides. *)
Definition tiny_both : Inputs float := {|
  Th_in := 150; Th_out := 90; m_hot := 1e-200; Cp_hot := 1e-200;
  Tc_in := 25; Tc_out := 70; m_cold := 1e-200; Cp_cold := 1e-200;
  U := 500
|}.

(** A hot-side flow rate whose capacity rate overflows. *)
Definition huge_hot : Inputs float := {|
  Th_in := 150; Th_out := 90; m_hot := 1e308; Cp_hot := 4.18;
  Tc_in := 25; Tc_out := 70; m_cold := 3; Cp_cold := 4.18;
  U := 500
|}.

(** Finite capacity rates too far apart for their quotient. *)
Definition far_rates : Inputs float := {|
  Th_in := 150; Th_out := 90; m_hot := 1e-320; Cp_hot := 4.18;
  Tc_in := 25; Tc_out := 70; m_cold := 1e300; Cp_cold := 4.18;
  U := 500
|}.

(** Finite duties whose sum overflows. *)
Definition huge_duties : Inputs float := {|
  Th_in := 151; Th_out := 150; m_hot := 1e308; Cp_hot := 1;
  Tc_in := 25; Tc_out := 26; m_cold := 1.5e308; Cp_cold := 1;
  U := 500
|}.

(** Temperatures that are not binary fractions. *)
Definition decimal_readings : Inputs float := readings 150.1 90.3 25.7 70.2.


(** Hot temperatures so large that subtracting either cold temperature
    rounds to the same number. *)
Definition absorbed_cold : Inputs float := readings 1e20 9e19 25 70.

(** Readings with [Q_hot = Q_cold = 627]. *)
Definition balanced : Inputs float := readings 150 90 25 75.

End Cases.

(** * Properties *)

Unset Implicit Arguments.

(** ** Facts that hold whatever the arithmetic *)

Section ScriptFacts.

Context {F : Type} {AF : Arith F}.

Lemma bind_Ok {X Y} (m : outcome X) (k : X -> outcome Y) (y : Y) :
  bind m k = Ok y -> exists x, m = Ok x /\ k x = Ok y.
Proof.
  destruct m as [x|e]; simpl; intros H; [exists x; auto | discriminate].
Qed.

Lemma calculations_runs c i r : calculations c i = Ok r -> runs_to c i r.
Proof.
  unfold calculations. intros H.
  apply bind_Ok in H as (q_avg & Hq & H).
  apply bind_Ok in H as (lmtd & Hl & H).
  apply bind_Ok in H as (a & Ha & H).
  apply bind_Ok in H as (c_ratio & Hc & H).
  apply bind_Ok in H as (eff & He & H).
  apply bind_Ok in H as (ntu & Hn & H).
  apply bind_Ok in H as (hbe & Hh & H).
  injection H as <-. unfold runs_to. simpl.
  repeat split; assumption.
Qed.

Lemma runs_calculations c i r : runs_to c i r -> calculations c i = Ok r.
Proof.
  destruct r. unfold runs_to. simpl.
  intros (-> & -> & Hq & -> & -> & -> & Hl & Ha & -> & -> & -> & -> & Hc
          & -> & He & Hn & Hh).
  unfold calculations.
  rewrite Hq. simpl. rewrite Hl. simpl. rewrite Ha. simpl.
  rewrite Hc. simpl. rewrite He. simpl. rewrite Hn. simpl.
  rewrite Hh. simpl. reflexivity.
Qed.

Lemma np_linspace_length (a b : F) (n : nat) :
  List.length (np_linspace a b n) = n.
Proof.
  destruct n as [|[|k]]; simpl; try reflexivity.
  rewrite List.length_app, List.length_map, List.length_seq. simpl. lia.
Qed.

Lemma calc_dT1_same (i : Inputs F) :
  Tc_in i = Tc_out i -> calc_dT1 Counterflow i = calc_dT1 ParallelFlow i.
Proof. intros H. simpl. rewrite H. reflexivity. Qed.

Lemma calc_dT2_same (i : Inputs F) :
  Tc_in i = Tc_out i -> calc_dT2 Counterflow i = calc_dT2 ParallelFlow i.
Proof. intros H. simpl. rewrite H. reflexivity. Qed.

Lemma vadd_py (x y : F) : vadd (py x) (py y) = py (add x y).
Proof. reflexivity. Qed.

Lemma vsub_py (x y : F) : vsub (py x) (py y) = py (sub x y).
Proof. reflexivity. Qed.

Lemma vmul_py (x y : F) : vmul (py x) (py y) = py (mul x y).
Proof. reflexivity. Qed.

Lemma vmul_py_np (x y : F) : vmul (py x) (np y) = np (mul x y).
Proof. reflexivity. Qed.

Lemma vmul_np_r (a : value F) (y : F) : vmul a (np y) = np (mul (num a) y).
Proof. unfold vmul, retag. simpl. rewrite orb_true_r. reflexivity. Qed.

Lemma truediv_np_r (a : value F) (y : F) :
  truediv a (np y) = Ok (np (div (num a) y)).
Proof. unfold truediv. simpl. rewrite orb_true_r. reflexivity. Qed.

Lemma truediv_np_l (x : F) (b : value F) :
  truediv (np x) b = Ok (np (div x (num b))).
Proof. reflexivity. Qed.

Lemma truediv_py_py (x y : F) :
  truediv (py x) (py y)
  = if eq0 y then Raise ZeroDivisionError else Ok (py (div x y)).
Proof. reflexivity. Qed.

Lemma Ok_inj {X} (x y : X) : Ok x = Ok y -> x = y.
Proof. intros H. injection H as ->. reflexivity. Qed.

(** Switching the configuration leaves every variable other than [dT1],
    [dT2], [LMTD], [A] and [NTU] identical whenever both runs reach
    their end; with [Tc_in = Tc_out] the two runs are the same. *)
Lemma configuration_unchanged (i : Inputs F) :
  (forall r1 r2,
      calculations Counterflow i = Ok r1 ->
      calculations ParallelFlow i = Ok r2 ->
      Q_hot r1 = Q_hot r2 /\ Q_cold r1 = Q_cold r2 /\
      C_min r1 = C_min r2 /\ C_max r1 = C_max r2 /\
      C_ratio r1 = C_ratio r2 /\ effectiveness r1 = effectiveness r2 /\
      Q_avg r1 = Q_avg r2 /\ Q r1 = Q r2 /\
      C_hot r1 = C_hot r2 /\ C_cold r1 = C_cold r2 /\
      Q_max r1 = Q_max r2 /\
      heat_balance_error r1 = heat_balance_error r2) /\
  (Tc_in i = Tc_out i ->
   calculations Counterflow i = calculations ParallelFlow i).
Proof.
  split.
  - intros r1 r2 H1 H2.
    apply calculations_runs in H1, H2.
    destruct H1 as (Qh1 & Qc1 & Qa1 & Q1 & _ & _ & _ & _ & Ch1 & Cc1 & Cm1
                    & CM1 & Cr1 & Qm1 & E1 & _ & Hb1).
    destruct H2 as (Qh2 & Qc2 & Qa2 & Q2 & _ & _ & _ & _ & Ch2 & Cc2 & Cm2
                    & CM2 & Cr2 & Qm2 & E2 & _ & Hb2).
    assert (Hqh : Q_hot r1 = Q_hot r2) by congruence.
    assert (Hqc : Q_cold r1 = Q_cold r2) by congruence.
    assert (Hqa : Q_avg r1 = Q_avg r2).
    { apply Ok_inj. rewrite <- Qa1, <- Qa2, Hqh, Hqc. reflexivity. }
    assert (Hq : Q r1 = Q r2) by congruence.
    assert (Hch : C_hot r1 = C_hot r2) by congruence.
    assert (Hcc : C_cold r1 = C_cold r2) by congruence.
    assert (Hcm : C_min r1 = C_min r2) by congruence.
    assert (HcM : C_max r1 = C_max r2) by congruence.
    assert (Hcr : C_ratio r1 = C_ratio r2).
    { apply Ok_inj. rewrite <- Cr1, <- Cr2, Hcm, HcM. reflexivity. }
    assert (Hqm : Q_max r1 = Q_max r2) by congruence.
    assert (He : effectiveness r1 = effectiveness r2).
    { apply Ok_inj. rewrite <- E1, <- E2, Hq, Hqm. reflexivity. }
    assert (Hb : heat_balance_error r1 = heat_balance_error r2).
    { apply Ok_inj. rewrite <- Hb1, <- Hb2, Hqh, Hqc, Hqa. reflexivity. }
    repeat split; assumption.
  - intros H. unfold calculations.
    rewrite (calc_dT1_same i H), (calc_dT2_same i H). reflexivity.
Qed.

(** [effectiveness] is the quotient of two Python floats, [Q] and
    [Q_max]; neither depends on [LMTD]. *)
Lemma effectiveness_formula c i r :
  calculations c i = Ok r ->
  effectiveness r = py (div (num (Q r)) (num (Q_max r))).
Proof.
  intros H. apply calculations_runs in H.
  destruct H as (Qh & Qc & Qa & Hq & _ & _ & _ & _ & Ch & Cc & Cm & _ & _
                 & Qm & He & _).
  assert (P1 : is_np (Q r) = false).
  { rewrite Hq. rewrite Qh, Qc in Qa.
    unfold calc_Q_avg, calc_Q_hot, calc_Q_cold, int in Qa.
    rewrite !vsub_py, !vmul_py, vadd_py, truediv_py_py in Qa.
    destruct (eq0 (of_int 2)); [discriminate|].
    apply Ok_inj in Qa. rewrite <- Qa. reflexivity. }
  assert (P2 : is_np (Q_max r) = false).
  { rewrite Qm, Cm, Ch, Cc.
    unfold calc_Q_max, calc_C_hot, calc_C_cold, int.
    rewrite vsub_py, !vmul_py. unfold py_min.
    destruct (vlt _ _); reflexivity. }
  unfold calc_effectiveness, truediv in He. rewrite P1, P2 in He.
  cbn [orb] in He. destruct (eq0 (num (Q_max r))); [discriminate|].
  apply Ok_inj in He. symmetry. exact He.
Qed.

End ScriptFacts.

(** ** Facts of the exact reading *)

Module ExactFacts.

Import Exact Bounds.
#[local] Existing Instance Exact.arith.
#[local] Open Scope R_scope.

Lemma Rltb_false x y : Rltb x y = false <-> y <= x.
Proof. unfold Rltb. destruct (Rlt_dec x y); split; intros; (congruence || lra). Qed.

Lemma Req0_true x : Req0 x = true <-> x = 0.
Proof. unfold Req0. destruct (Req_dec_T x 0); split; intros; (congruence || lra). Qed.

Lemma Req0_false x : Req0 x = false <-> x <> 0.
Proof. unfold Req0. destruct (Req_dec_T x 0); split; intros; congruence. Qed.

Lemma truediv_py (x y : R) :
  y <> 0 -> truediv (py x) (py y) = Ok (py (x / y)).
Proof.
  intros H. rewrite truediv_py_py. simpl.
  apply Req0_false in H. rewrite H. reflexivity.
Qed.

Lemma truediv_py_zero (x y : R) :
  y = 0 -> truediv (py x) (py y) = Raise ZeroDivisionError.
Proof.
  intros H. rewrite truediv_py_py. simpl.
  apply Req0_true in H. rewrite H. reflexivity.
Qed.

Lemma degenerate_py (a b : R) :
  degenerate (py a) (py b) = Rltb (Rabs (a - b)) (1 / 1000000).
Proof. reflexivity. Qed.

Lemma py_min_R (a b : R) : py_min (py a) (py b) = py (Rmin a b).
Proof.
  unfold py_min, vlt. simpl. unfold Rltb, Rmin.
  destruct (Rlt_dec b a), (Rle_dec a b); try reflexivity; lra.
Qed.

Lemma py_max_R (a b : R) : py_max (py a) (py b) = py (Rmax a b).
Proof.
  unfold py_max, vlt. simpl. unfold Rltb, Rmax.
  destruct (Rlt_dec a b), (Rle_dec a b); try reflexivity; try lra.
  f_equal. lra.
Qed.

(** *** Rational bounds on [exp] and on [ln (16 / 13)] *)

Lemma scale_pos : 0 < IZR scale.
Proof. apply IZR_lt. reflexivity. Qed.

Lemma fx_nonneg X : (0 <= X)%Z -> 0 <= fx X.
Proof.
  intros H. unfold fx. apply Rmult_le_pos; [apply IZR_le; exact H|].
  left. apply Rinv_0_lt_compat, scale_pos.
Qed.

Lemma sq_down_nonneg X : (0 <= sq_down X)%Z.
Proof. unfold sq_down. apply Z.div_pos; [nia | reflexivity]. Qed.

Lemma fx_sq_down X : fx (sq_down X) <= fx X * fx X.
Proof.
  unfold fx, sq_down. pose proof scale_pos as Hs.
  assert (Hm : (scale * (X * X / scale) <= X * X)%Z)
    by (apply Z.mul_div_le; reflexivity).
  apply IZR_le in Hm. rewrite !mult_IZR in Hm.
  set (q := IZR (X * X / scale)) in *. set (s := IZR scale) in *.
  set (x := IZR X) in *.
  apply Rmult_le_reg_r with (r := s * s); [nra|].
  field_simplify; [|lra|lra]. nra.
Qed.

Lemma fx_sq_up X : fx X * fx X <= fx (sq_up X).
Proof.
  unfold fx, sq_up. pose proof scale_pos as Hs.
  assert (Hm : (X * X < scale * (X * X / scale + 1))%Z).
  { pose proof (Z.mul_succ_div_gt (X * X) scale eq_refl). lia. }
  apply IZR_lt in Hm. rewrite !mult_IZR in Hm.
  set (q := IZR (X * X / scale + 1)) in *. set (s := IZR scale) in *.
  set (x := IZR X) in *.
  apply Rmult_le_reg_r with (r := s * s); [nra|].
  field_simplify; [|lra|lra]. nra.
Qed.

Lemma sqn_nonneg k y : 0 <= y -> 0 <= sqn k y.
Proof. intros Hy. induction k; simpl; [exact Hy | nra]. Qed.

Lemma sqn_mono k y z : 0 <= y <= z -> sqn k y <= sqn k z.
Proof.
  intros H. induction k; simpl; [lra|].
  pose proof (sqn_nonneg k y (proj1 H)). nra.
Qed.

Lemma iter_down_nonneg k X : (0 <= X)%Z -> (0 <= iter_sq sq_down k X)%Z.
Proof. intros H. destruct k; simpl; [exact H | apply sq_down_nonneg]. Qed.

Lemma iter_down_sound k X :
  (0 <= X)%Z -> fx (iter_sq sq_down k X) <= sqn k (fx X).
Proof.
  intros HX. induction k as [|k IH]; simpl; [lra|].
  pose proof (fx_sq_down (iter_sq sq_down k X)) as H1.
  pose proof (fx_nonneg _ (iter_down_nonneg k X HX)) as H2.
  nra.
Qed.

Lemma iter_up_sound k X :
  (0 <= X)%Z -> sqn k (fx X) <= fx (iter_sq sq_up k X).
Proof.
  intros HX. induction k as [|k IH]; simpl; [lra|].
  pose proof (fx_sq_up (iter_sq sq_up k X)) as H1.
  pose proof (sqn_nonneg k _ (fx_nonneg X HX)) as H2.
  nra.
Qed.

Lemma exp_sqn k x : exp (x * 2 ^ k) = sqn k (exp x).
Proof.
  induction k as [|k IH]; simpl.
  - f_equal. lra.
  - rewrite <- IH, <- exp_plus. f_equal. lra.
Qed.

Lemma fx_lt_ratio X (p q : Z) :
  (0 < q)%Z -> (q * X < p * scale)%Z -> fx X < IZR p / IZR q.
Proof.
  intros Hq H. unfold fx. pose proof scale_pos as Hs.
  apply IZR_lt in Hq, H. rewrite !mult_IZR in H.
  apply Rmult_lt_reg_r with (r := IZR scale * IZR q); [nra|].
  field_simplify; [|lra|lra]. lra.
Qed.

Lemma fx_le_ratio X (p q : Z) :
  (0 < q)%Z -> (q * X <= p * scale)%Z -> fx X <= IZR p / IZR q.
Proof.
  intros Hq H. unfold fx. pose proof scale_pos as Hs.
  apply IZR_lt in Hq. apply IZR_le in H. rewrite !mult_IZR in H.
  apply Rmult_le_reg_r with (r := IZR scale * IZR q); [nra|].
  field_simplify; [|lra|lra]. lra.
Qed.

Lemma ratio_lt_fx X (p q : Z) :
  (0 < q)%Z -> (p * scale < q * X)%Z -> IZR p / IZR q < fx X.
Proof.
  intros Hq H. unfold fx. pose proof scale_pos as Hs.
  apply IZR_lt in Hq, H. rewrite !mult_IZR in H.
  apply Rmult_lt_reg_r with (r := IZR scale * IZR q); [nra|].
  field_simplify; [|lra|lra]. lra.
Qed.

(** [exp x <= 1 / (1 - x)] below 1, from [1 - x <= exp (- x)]. *)
Lemma exp_le_inv_1_minus x : x < 1 -> exp x <= 1 / (1 - x).
Proof.
  intros Hx.
  assert (H1 : exp x * exp (- x) = 1).
  { rewrite <- exp_plus. replace (x + - x) with 0 by lra. apply exp_0. }
  pose proof (exp_ineq1_le (- x)) as H2. pose proof (exp_pos x) as H3.
  apply Rmult_le_reg_r with (r := 1 - x); [lra|].
  replace (1 / (1 - x) * (1 - x)) with 1 by (field; lra).
  rewrite <- H1. apply Rmult_le_compat_l; lra.
Qed.

Lemma ln_16_13_lower : 20763 / 100000 < ln (16 / 13).
Proof.
  apply exp_lt_inv. rewrite exp_ln by lra.
  set (x := 20763 / 6553600000).
  replace (20763 / 100000) with (x * 2 ^ 16) by (unfold x; field).
  rewrite exp_sqn.
  set (X := (scale * 6553600000 / 6553579237 + 1)%Z).
  assert (HX : (0 <= X)%Z) by (vm_compute; discriminate).
  assert (Hx : 0 <= exp x <= fx X).
  { split; [left; apply exp_pos|].
    apply Rle_trans with (1 := exp_le_inv_1_minus x ltac:(unfold x; lra)).
    left. replace (1 / (1 - x)) with (6553600000 / 6553579237)
      by (unfold x; field).
    apply ratio_lt_fx; reflexivity. }
  apply Rle_lt_trans with (1 := sqn_mono 16 _ _ Hx).
  apply Rle_lt_trans with (1 := iter_up_sound 16 X HX).
  apply fx_lt_ratio; reflexivity.
Qed.

Lemma ln_16_13_upper : ln (16 / 13) < 20765 / 100000.
Proof.
  apply exp_lt_inv. rewrite exp_ln by lra.
  set (x := 20765 / 6553600000).
  replace (20765 / 100000) with (x * 2 ^ 16) by (unfold x; field).
  rewrite exp_sqn.
  set (X := (scale * 6553620765 / 6553600000)%Z).
  assert (HX : (0 <= X)%Z) by (vm_compute; discriminate).
  assert (Hx : 0 <= fx X <= exp x).
  { split; [apply fx_nonneg, HX|].
    apply Rle_trans with (2 := exp_ineq1_le x).
    replace (1 + x) with (6553620765 / 6553600000) by (unfold x; field).
    apply fx_le_ratio; [reflexivity | vm_compute; discriminate]. }
  apply Rlt_le_trans with (2 := sqn_mono 16 _ _ Hx).
  apply Rlt_le_trans with (2 := iter_down_sound 16 X HX).
  apply ratio_lt_fx; reflexivity.
Qed.

Lemma Rabs_diff_pos (a b : R) : b <= a -> Rabs (a - b) = a - b.
Proof. intros H. apply Rabs_pos_eq. lra. Qed.

Lemma example_run (u : R) :
  calculations Counterflow (with_U u default_inputs) = Ok (example_results u).
Proof.
  apply runs_calculations. unfold runs_to, example_results. cbn -[truediv].
  repeat split.
  all: unfold calc_Q_hot, calc_Q_cold, calc_Q_avg, calc_Q, calc_LMTD, calc_A,
         calc_C_hot, calc_C_cold, calc_C_ratio, calc_Q_max, calc_effectiveness,
         calc_NTU, calc_heat_balance_error, int, np_log.
  all: rewrite ?py_min_R, ?py_max_R, ?vsub_py, ?vmul_py, ?vadd_py, ?vmul_py_np,
         ?truediv_np_r, ?degenerate_py.
  all: cbn -[truediv Rabs].
  all: try (f_equal; lra).
  - rewrite truediv_py by lra. do 2 f_equal. lra.
  - rewrite Rabs_diff_pos by lra.
    rewrite (proj2 (Rltb_false _ _)) by lra.
    rewrite truediv_py by lra. cbn -[truediv]. rewrite truediv_np_r.
    cbn. do 2 f_equal.
    replace (80 / 65) with (16 / 13) by field.
    replace (80 - 65) with 15 by lra. reflexivity.
  - unfold Rmin. destruct (Rle_dec 10450 12540); [reflexivity | lra].
  - unfold Rmax. destruct (Rle_dec 10450 12540); [reflexivity | lra].
  - rewrite truediv_py by lra. reflexivity.
  - rewrite truediv_py by lra. do 2 f_equal. lra.
  - rewrite Rabs_diff_pos by lra. rewrite truediv_py by lra.
    cbn. do 2 f_equal. lra.
Qed.

Lemma default_run : calculations Counterflow default_inputs = Ok default_results.
Proof. exact (example_run 500). Qed.

(** C1 (amended): on the counterflow example the block runs to its end
    with [Q_hot = 627] and [Q_cold = 564.3] (not 627), [dT1 = 80],
    [dT2 = 65], [LMTD] within 0.005 of 72.24, [A] within 0.005 of 16.49,
    [C_min = C_hot = 10450], [C_ratio = 10450 / 12540] within 0.00005 of
    0.8333, [effectiveness = 0.456], [NTU] within 0.0005 of 0.789 and a
    heat balance error of [200 / 19], within 0.005 of 10.53. *)
Theorem default_example :
  exists r,
    calculations Counterflow default_inputs = Ok r /\
    Q_hot r = py 627 /\ Q_cold r = py (5643 / 10) /\
    dT1 r = py 80 /\ dT2 r = py 65 /\
    (exists l, LMTD r = np l /\ Rabs (l - 7224 / 100) < 5 / 1000) /\
    (exists a, A r = np a /\ Rabs (a - 1649 / 100) < 5 / 1000) /\
    C_hot r = py 10450 /\ C_min r = py 10450 /\
    C_ratio r = py (10450 / 12540) /\
    Rabs (10450 / 12540 - 8333 / 10000) < 5 / 100000 /\
    effectiveness r = py (456 / 1000) /\
    (exists n, NTU r = np n /\ Rabs (n - 789 / 1000) < 5 / 10000) /\
    heat_balance_error r = py (200 / 19) /\
    Rabs (200 / 19 - 1053 / 100) < 5 / 1000.
Proof.
  exists default_results. split; [exact default_run|].
  pose proof ln_16_13_lower as Hl. pose proof ln_16_13_upper as Hu.
  set (L := ln (16 / 13)) in *.
  assert (HL : 72235 / 1000 < 15 / L < 72245 / 1000).
  { split.
    - apply Rmult_lt_reg_r with (r := L); [lra|].
      replace (15 / L * L) with 15 by (field; lra). lra.
    - apply Rmult_lt_reg_r with (r := L); [lra|].
      replace (15 / L * L) with 15 by (field; lra). lra. }
  unfold default_results, example_results; cbn. fold L.
  set (M := 15 / L) in *.
  assert (HA : 16485 / 1000 < 595650 / (500 * M) < 16495 / 1000).
  { split.
    - apply Rmult_lt_reg_r with (r := 500 * M); [lra|].
      replace (595650 / (500 * M) * (500 * M)) with 595650 by (field; lra). lra.
    - apply Rmult_lt_reg_r with (r := 500 * M); [lra|].
      replace (595650 / (500 * M) * (500 * M)) with 595650 by (field; lra). lra. }
  set (a := 595650 / (500 * M)) in *.
  repeat split; try reflexivity.
  - exists M. split; [reflexivity|]. apply Rabs_def1; lra.
  - exists a. split; [reflexivity|]. apply Rabs_def1; lra.
  - apply Rabs_def1; lra.
  - exists (500 * a / 10450). split; [reflexivity|]. apply Rabs_def1; lra.
  - apply Rabs_def1; lra.
Qed.


Lemma calc_Q_avg_R (a b : R) :
  calc_Q_avg (py a) (py b) = Ok (py ((a + b) / 2)).
Proof.
  unfold calc_Q_avg, int. rewrite vadd_py.
  rewrite truediv_py by (cbn; lra). reflexivity.
Qed.





Lemma calc_heat_balance_error_Raise (a b q : R) :
  q = 0 ->
  calc_heat_balance_error (py a) (py b) (py q) = Raise ZeroDivisionError.
Proof.
  intros H. unfold calc_heat_balance_error.
  rewrite vsub_py. cbn -[truediv Rabs]. rewrite truediv_py_zero by exact H.
  reflexivity.
Qed.







End ExactFacts.

(** ** Facts of the binary64 reading *)

Module IEEEFacts.

Import IEEE.
#[local] Open Scope float_scope.

(* In this module the arithmetic of the script is [arith lg] for the
   logarithm [lg] in scope, and [arith log_model] where there is none. *)
#[local] Hint Extern 0 (Arith float) =>
  match goal with lg : float -> float |- _ => exact (arith lg) end
  : typeclass_instances.
#[local] Hint Extern 1 (Arith float) => exact (arith log_model)
  : typeclass_instances.

(** *** Classes of binary64 numbers *)

Lemma SFcompare_refl x : x <> S754_nan -> SFcompare x x = Some Eq.
Proof.
  destruct x as [s|s| |s m e]; simpl; intros H; try congruence.
  - destruct s; reflexivity.
  - destruct s; rewrite Z.compare_refl, Pos.compare_cont_refl; reflexivity.
Qed.

Lemma SFcompare_antisym x y :
  SFcompare y x
  = match SFcompare x y with Some c => Some (CompOpp c) | None => None end.
Proof.
  destruct x as [s|s| |s m e], y as [s'|s'| |s' m' e']; simpl; try reflexivity;
    try (destruct s; reflexivity); try (destruct s'; reflexivity);
    try (destruct s, s'; reflexivity).
  assert (Hm : Pos.compare_cont Eq m' m = CompOpp (Pos.compare_cont Eq m m')).
  { rewrite (Pos.compare_cont_antisym m m' Eq). reflexivity. }
  rewrite (Z.compare_antisym e e'), Hm.
  destruct s, s'; try reflexivity;
    destruct (e ?= e')%Z; simpl; try reflexivity;
    destruct (Pos.compare_cont Eq m m'); reflexivity.
Qed.

Lemma SFcompare_None x y :
  SFcompare x y = None -> x = S754_nan \/ y = S754_nan.
Proof.
  destruct x as [s|s| |s m e], y as [s'|s'| |s' m' e']; simpl;
    intros H; auto; discriminate.
Qed.

Lemma is_nan_class x : is_nan x = true <-> class_of x = CNan.
Proof.
  unfold is_nan, class_of. rewrite FloatAxioms.eqb_spec. unfold SFeqb.
  destruct (Prim2SF x) eqn:E;
    [rewrite SFcompare_refl by discriminate
    |rewrite SFcompare_refl by discriminate
    |
    |rewrite SFcompare_refl by discriminate];
    simpl; split; congruence.
Qed.

Lemma eq0_class x : (x =? 0) = true <-> class_of x = CZero.
Proof.
  unfold class_of. rewrite FloatAxioms.eqb_spec. unfold SFeqb.
  change (Prim2SF 0) with (S754_zero false).
  destruct (Prim2SF x) as [s|s| |s m e]; simpl; try (split; congruence).
  - destruct s; split; congruence.
  - destruct s; split; congruence.
Qed.

Lemma is_infinity_class x : is_infinity x = true <-> class_of x = CInf.
Proof.
  unfold is_infinity, class_of. rewrite FloatAxioms.eqb_spec, abs_spec.
  unfold SFeqb. change (Prim2SF infinity) with (S754_infinity false).
  destruct (Prim2SF x) as [s|s| |s m e]; simpl; split; congruence.
Qed.

Lemma is_nan_false_class x : is_nan x = false <-> class_of x <> CNan.
Proof.
  rewrite <- is_nan_class. destruct (is_nan x); split; congruence.
Qed.

Lemma is_finite_class x :
  is_finite x = true <-> (class_of x = CZero \/ class_of x = CFin).
Proof.
  unfold is_finite.
  destruct (is_nan x) eqn:En; destruct (is_infinity x) eqn:Ei; simpl.
  all: try (apply is_nan_class in En); try (apply is_infinity_class in Ei).
  all: try (split; [discriminate | intros [H|H]; congruence]).
  assert (class_of x <> CNan) by (intros H; apply is_nan_class in H; congruence).
  assert (class_of x <> CInf)
    by (intros H'; apply is_infinity_class in H'; congruence).
  split; [intros _ | reflexivity].
  destruct (class_of x); auto; congruence.
Qed.

Lemma is_finite_false_class x :
  is_finite x = false <-> (class_of x = CInf \/ class_of x = CNan).
Proof.
  pose proof (is_finite_class x) as H.
  destruct (is_finite x); split.
  - discriminate.
  - destruct H as [H _]. specialize (H eq_refl). intros [E|E]; destruct H; congruence.
  - intros _. destruct (class_of x); auto;
      destruct H as [_ H]; discriminate H; auto.
  - reflexivity.
Qed.

(** *** Order *)

Lemma ltb_leb_false x y : (x <? y) = true -> (y <=? x) = false.
Proof.
  rewrite ltb_spec, leb_spec. unfold SFltb, SFleb.
  rewrite (SFcompare_antisym (Prim2SF x) (Prim2SF y)).
  destruct (SFcompare (Prim2SF x) (Prim2SF y)) as [[]|]; simpl; congruence.
Qed.

Lemma leb_not_nan x y : (x <=? y) = true -> is_nan y = false.
Proof.
  rewrite leb_spec. unfold SFleb. intros H.
  apply is_nan_false_class. unfold class_of. intros E.
  destruct (Prim2SF y); try discriminate.
  destruct (Prim2SF x); simpl in H; discriminate.
Qed.

Lemma not_ltb_leb x y :
  is_nan x = false -> is_nan y = false -> (x <? y) = false -> (y <=? x) = true.
Proof.
  rewrite !is_nan_false_class, ltb_spec, leb_spec. unfold class_of, SFltb, SFleb.
  intros Hx Hy. rewrite (SFcompare_antisym (Prim2SF x) (Prim2SF y)).
  destruct (SFcompare (Prim2SF x) (Prim2SF y)) as [[]|] eqn:E; simpl;
    try congruence.
  apply SFcompare_None in E.
  destruct E as [E|E]; rewrite E in *; simpl in *; congruence.
Qed.

(** *** NaN, zeros and infinities through the operations *)

Lemma div_nan_r x : x / nan = nan.
Proof.
  apply Prim2SF_inj. rewrite div_spec. change (Prim2SF nan) with S754_nan.
  unfold SF64div, SFdiv. destruct (Prim2SF x); reflexivity.
Qed.

Lemma div_nan_l x : nan / x = nan.
Proof.
  apply Prim2SF_inj. rewrite div_spec. change (Prim2SF nan) with S754_nan.
  reflexivity.
Qed.

Lemma mul_nan_r x : x * nan = nan.
Proof.
  apply Prim2SF_inj. rewrite mul_spec. change (Prim2SF nan) with S754_nan.
  unfold SF64mul, SFmul. destruct (Prim2SF x); reflexivity.
Qed.

Lemma div_zero_class x y :
  class_of x = CZero -> class_of y <> CZero -> class_of y <> CNan ->
  class_of (x / y) = CZero.
Proof.
  unfold class_of. rewrite div_spec. unfold SF64div, SFdiv.
  destruct (Prim2SF x), (Prim2SF y); simpl; congruence.
Qed.

Lemma sub_div_neg_infinity x y :
  class_of x = CZero -> class_of y <> CZero -> class_of y <> CNan ->
  zero_or_nan ((x - y) / neg_infinity).
Proof.
  unfold zero_or_nan, class_of. rewrite div_spec, sub_spec.
  change (Prim2SF neg_infinity) with (S754_infinity true).
  unfold SF64div, SFdiv, SF64sub, SFsub.
  destruct (Prim2SF x) as [[]|[]| |[] ? ?], (Prim2SF y) as [[]|[]| |[] ? ?];
    simpl; intros; auto; congruence.
Qed.

Lemma mul_zero_or_nan u l : zero_or_nan l -> zero_or_nan (u * l).
Proof.
  unfold zero_or_nan, class_of. rewrite mul_spec. unfold SF64mul, SFmul.
  destruct (Prim2SF u), (Prim2SF l); simpl; intros [H|H]; auto; discriminate.
Qed.

Lemma div_by_zero_or_nan q z : zero_or_nan z -> inf_or_nan (q / z).
Proof.
  unfold zero_or_nan, inf_or_nan, class_of. rewrite div_spec.
  unfold SF64div, SFdiv.
  destruct (Prim2SF q), (Prim2SF z); simpl; intros [H|H]; auto; discriminate.
Qed.

Lemma mul_inf_or_nan u a : inf_or_nan a -> inf_or_nan (u * a).
Proof.
  unfold inf_or_nan, class_of. rewrite mul_spec. unfold SF64mul, SFmul.
  destruct (Prim2SF u), (Prim2SF a); simpl; intros [H|H]; auto; discriminate.
Qed.

Lemma div_inf_or_nan a c : inf_or_nan a -> inf_or_nan (a / c).
Proof.
  unfold inf_or_nan, class_of. rewrite div_spec. unfold SF64div, SFdiv.
  destruct (Prim2SF a), (Prim2SF c); simpl; intros [H|H]; auto; discriminate.
Qed.

Lemma close_is_finite a b :
  (abs (a - b) <? 1e-6) = true -> class_of a = CZero \/ class_of a = CFin.
Proof.
  unfold class_of. rewrite ltb_spec, abs_spec, sub_spec.
  unfold SF64sub, SFsub.
  destruct (Prim2SF a) as [[]|[]| |[] ? ?]; auto;
    destruct (Prim2SF b) as [[]|[]| |[] ? ?]; vm_compute; discriminate.
Qed.


(** *** The script on binary64 numbers *)

Lemma truediv_py_float (lg : float -> float) (x y : float) :
  (y =? 0) = false ->
  truediv (py x) (py y) = Ok (py (x / y)).
Proof. intros H. rewrite truediv_py_py. simpl. rewrite H. reflexivity. Qed.

Lemma truediv_py_float_zero (lg : float -> float) (x y : float) :
  (y =? 0) = true ->
  truediv (py x) (py y) = Raise ZeroDivisionError.
Proof. intros H. rewrite truediv_py_py. simpl. rewrite H. reflexivity. Qed.

Lemma calc_dT1_py (lg : float -> float) c (i : Inputs float) :
  calc_dT1 c i = py (num (calc_dT1 c i)).
Proof. destruct c; reflexivity. Qed.

Lemma calc_dT2_py (lg : float -> float) c (i : Inputs float) :
  calc_dT2 c i = py (num (calc_dT2 c i)).
Proof. destruct c; reflexivity. Qed.

(** C5: when [|dT1 - dT2| < 1e-6] the LMTD line yields [dT1] itself,
    without raising and whatever [np.log] computes; that [dT1] is a
    finite number, not NaN; and a run that reaches its end has
    [LMTD = dT1]. *)
Theorem degenerate_lmtd (lg : float -> float) (c : Configuration)
    (i : Inputs float) :
  let d1 := calc_dT1 c i in
  let d2 := calc_dT2 c i in
  degenerate d1 d2 = true ->
  calc_LMTD d1 d2 = Ok d1 /\
  is_nan (num d1) = false /\
  is_finite (num d1) = true /\
  forall r, calculations c i = Ok r -> LMTD r = dT1 r.
Proof.
  intros d1 d2 H.
  assert (HL : calc_LMTD d1 d2 = Ok d1).
  { unfold calc_LMTD. rewrite H. reflexivity. }
  assert (Hf : class_of (num d1) = CZero \/ class_of (num d1) = CFin).
  { unfold d1, d2 in H. rewrite calc_dT1_py, calc_dT2_py in H.
    apply (close_is_finite _ _ H). }
  repeat split.
  - exact HL.
  - apply is_nan_false_class. destruct Hf as [E|E]; rewrite E; discriminate.
  - apply is_finite_class. exact Hf.
  - intros r Hr. apply calculations_runs in Hr.
    destruct Hr as (_ & _ & _ & _ & D1 & D2 & L & _).
    apply Ok_inj. rewrite <- L, D1, D2. exact HL.
Qed.

Lemma below_60_not_from_80 x : (x <? 60) = true -> (80 <=? x) = false.
Proof.
  rewrite ltb_spec, leb_spec. unfold SFltb, SFleb.
  let v := eval vm_compute in (Prim2SF 60) in change (Prim2SF 60) with v.
  let v := eval vm_compute in (Prim2SF 80) in change (Prim2SF 80) with v.
  destruct (Prim2SF x) as [[]|[]| |[] m e]; cbn [SFcompare]; try congruence.
  destruct (Z.compare_spec e (-47)) as [E|E|E]; try discriminate.
  - intros _. subst e. reflexivity.
  - intros _. rewrite (proj2 (Z.compare_gt_iff (-46) e)) by lia. reflexivity.
Qed.

(** C9: the label is "Excellent" from 80 up, "Good" on [60, 80), "Fair"
    on [40, 60) and "Poor" for every other number (below 40, or NaN);
    85 is "Excellent", 60 is "Good" and 39.9 is "Poor". *)
Theorem classification_thresholds (lg : float -> float) (e : value float) :
  let label v := fst (performance_classification v) in
  ((80 <=? num e) = true -> label e = "Excellent"%string) /\
  ((60 <=? num e) = true -> (num e <? 80) = true -> label e = "Good"%string) /\
  ((40 <=? num e) = true -> (num e <? 60) = true -> label e = "Fair"%string) /\
  ((80 <=? num e) = false ->
   ((60 <=? num e) && (num e <? 80))%bool = false ->
   ((40 <=? num e) && (num e <? 60))%bool = false ->
   label e = "Poor"%string) /\
  label (py 85) = "Excellent"%string /\
  label (py 60) = "Good"%string /\
  label (py 39.9) = "Poor"%string.
Proof.
  cbn zeta. unfold performance_classification, vge, int. cbn [num le arith of_int].
  change (float_of_int 80) with 80. change (float_of_int 60) with 60.
  change (float_of_int 40) with 40.
  repeat split.
  - intros ->. reflexivity.
  - intros H60 H80. rewrite (ltb_leb_false _ _ H80), H60. reflexivity.
  - intros H40 H60.
    pose proof (ltb_leb_false _ _ H60) as N60.
    pose proof (below_60_not_from_80 _ H60) as N80.
    rewrite N80, N60, H40. reflexivity.
  - intros N80 N6080 N4060.
    assert (N40 : (40 <=? num e) = false).
    { destruct (40 <=? num e) eqn:E40; [|reflexivity]. exfalso.
      pose proof (leb_not_nan _ _ E40) as Hn.
      rewrite andb_true_l in N4060.
      pose proof (not_ltb_leb (num e) 60 Hn eq_refl N4060) as E60.
      rewrite E60, andb_true_l in N6080.
      pose proof (not_ltb_leb (num e) 80 Hn eq_refl N6080) as E80.
      congruence. }
    assert (N60 : (60 <=? num e) = false).
    { destruct (60 <=? num e) eqn:E60; [|reflexivity]. exfalso.
      pose proof (leb_not_nan _ _ E60) as Hn.
      rewrite andb_true_l in N6080.
      pose proof (not_ltb_leb (num e) 80 Hn eq_refl N6080) as E80.
      congruence. }
    rewrite N80, N60, N40. reflexivity.
Qed.

Lemma eq0_not_lt x : (x =? 0) = true -> (x <? 0) = false.
Proof.
  rewrite FloatAxioms.eqb_spec, ltb_spec. unfold SFeqb, SFltb.
  change (Prim2SF 0) with (S754_zero false).
  destruct (Prim2SF x) as [[]|[]| |[] m e]; cbn [SFcompare]; congruence.
Qed.

Lemma log_model_negative x : (x <? 0) = true -> log_model x = nan.
Proof.
  intros H. unfold log_model. rewrite H. destruct (is_nan x); reflexivity.
Qed.

Lemma log_model_zero x : (x =? 0) = true -> log_model x = neg_infinity.
Proof.
  intros H. unfold log_model. rewrite (eq0_not_lt x H), H.
  assert (E : is_nan x = false).
  { apply is_nan_false_class. apply eq0_class in H. rewrite H. discriminate. }
  rewrite E. reflexivity.
Qed.

Lemma calculations_LMTD_Raise (lg : float -> float) c (i : Inputs float) e :
  calc_LMTD (calc_dT1 c i) (calc_dT2 c i) = Raise e ->
  calculations c i = Raise e.
Proof.
  intros H. unfold calculations.
  change (calc_Q_avg (calc_Q_hot i) (calc_Q_cold i))
    with (Ok (py ((num (calc_Q_hot i)
                   + num (calc_Q_cold i)) / 2))).
  cbn [bind]. rewrite H. reflexivity.
Qed.

(** C3 (amended): in the branch where [|dT1 - dT2| < 1e-6] does not
    hold, with [np.log] returning NaN below zero and -inf at zero:
    - when [dT2 = 0] the quotient [dT1 / dT2] of two Python floats raises
      [ZeroDivisionError], and so does the block;
    - when [dT1 / dT2] is negative ([dT1], [dT2] of opposite signs),
      [LMTD], [A] and [NTU] are NaN and their lines raise nothing, while
      [effectiveness] is [Q / Q_max] as always: [LMTD] does not enter it;
    - when [dT1 = 0] and [dT2] is a nonzero number, [LMTD] is a zero (NaN
      if [dT2] is infinite), [A] and [NTU] are infinite or NaN, and their
      lines raise nothing. *)
Theorem undefined_lmtd (lg : float -> float) (c : Configuration)
    (i : Inputs float) :
  (forall x, (x <? 0) = true -> lg x = nan) ->
  (forall x, (x =? 0) = true -> lg x = neg_infinity) ->
  let d1 := calc_dT1 c i in
  let d2 := calc_dT2 c i in
  degenerate d1 d2 = false ->
  ((num d2 =? 0) = true ->
   calc_LMTD d1 d2 = Raise ZeroDivisionError /\
   calculations c i = Raise ZeroDivisionError) /\
  ((num d2 =? 0) = false -> (num d1 / num d2 <? 0) = true ->
   calc_LMTD d1 d2 = Ok (np nan) /\
   (forall q u, calc_A q u (np nan) = Ok (np nan)) /\
   (forall u c_min, calc_NTU u (np nan) c_min = Ok (np nan)) /\
   (forall r, calculations c i = Ok r ->
      LMTD r = np nan /\ A r = np nan /\ NTU r = np nan /\
      effectiveness r = py (num (Q r) / num (Q_max r)))) /\
  ((num d1 =? 0) = true -> (num d2 =? 0) = false -> is_nan (num d2) = false ->
   exists l,
     calc_LMTD d1 d2 = Ok (np l) /\
     ((l =? 0) = true \/ is_nan l = true) /\
     forall q u, exists a,
       calc_A q u (np l) = Ok (np a) /\
       is_finite a = false /\
       forall c_min, exists n,
         calc_NTU u (np a) c_min = Ok (np n) /\
         is_finite n = false).
Proof.
  intros Hneg Hzero d1 d2 Hdeg.
  assert (E1 : d1 = py (num d1)) by apply calc_dT1_py.
  assert (E2 : d2 = py (num d2)) by apply calc_dT2_py.
  assert (HA : forall q u, calc_A q u (np nan) = Ok (np nan)).
  { intros q u. unfold calc_A. rewrite vmul_np_r, truediv_np_r.
    cbn [mul div arith]. rewrite mul_nan_r, div_nan_r. reflexivity. }
  assert (HN : forall u c_min,
             calc_NTU u (np nan) c_min = Ok (np nan)).
  { intros u c_min. unfold calc_NTU. rewrite vmul_np_r, truediv_np_l.
    cbn [mul div arith]. rewrite mul_nan_r, div_nan_l. reflexivity. }
  split; [|split].
  - intros H0.
    assert (HL : calc_LMTD d1 d2 = Raise ZeroDivisionError).
    { unfold calc_LMTD. rewrite Hdeg, E1, E2.
      rewrite (truediv_py_float_zero lg _ _ H0). reflexivity. }
    split; [exact HL | apply calculations_LMTD_Raise; exact HL].
  - intros H0 Hq.
    assert (HL : calc_LMTD d1 d2 = Ok (np nan)).
    { unfold calc_LMTD. rewrite Hdeg, E1, E2.
      rewrite (truediv_py_float lg _ _ H0). cbn [bind]. unfold np_log.
      rewrite truediv_np_r. cbn [num log div arith].
      rewrite (Hneg _ Hq), div_nan_r. reflexivity. }
    split; [exact HL|]. split; [exact HA|]. split; [exact HN|].
    intros r Hr. pose proof (effectiveness_formula _ _ _ Hr) as He.
    apply calculations_runs in Hr.
    destruct Hr as (_ & _ & _ & _ & D1 & D2 & L & Ar & _ & _ & _ & _ & _ & _
                    & _ & Nr & _).
    assert (EL : LMTD r = np nan)
      by (apply Ok_inj; rewrite <- L, D1, D2; exact HL).
    assert (EA : A r = np nan)
      by (apply Ok_inj; rewrite <- Ar, EL; apply HA).
    split; [exact EL|]. split; [exact EA|]. split; [|exact He].
    apply Ok_inj. rewrite <- Nr, EA. apply HN.
  - intros Z1 Z2 Nn.
    assert (C1 : class_of (num d1) = CZero) by (apply eq0_class; exact Z1).
    assert (C2 : class_of (num d2) <> CZero).
    { intros E. apply eq0_class in E. congruence. }
    assert (C3 : class_of (num d2) <> CNan) by (apply is_nan_false_class; exact Nn).
    exists ((num d1 - num d2) / neg_infinity).
    pose proof (sub_div_neg_infinity _ _ C1 C2 C3) as Hl.
    split; [|split].
    + unfold calc_LMTD. rewrite Hdeg, E1, E2.
      rewrite (truediv_py_float lg _ _ Z2). cbn [bind]. unfold np_log.
      rewrite truediv_np_r. cbn [num log div sub arith vsub retag is_np orb].
      rewrite Hzero; [reflexivity|].
      apply eq0_class. apply div_zero_class; assumption.
    + destruct Hl as [E|E]; [left; apply eq0_class | right; apply is_nan_class];
        exact E.
    + intros q u. exists (num q / (num u * ((num d1 - num d2) / neg_infinity))).
      pose proof (div_by_zero_or_nan (num q) _ (mul_zero_or_nan (num u) _ Hl)) as Ha.
      split; [|split].
      * unfold calc_A. rewrite vmul_np_r, truediv_np_r. reflexivity.
      * apply is_finite_false_class. exact Ha.
      * intros c_min. eexists. split.
        -- unfold calc_NTU. rewrite vmul_np_r, truediv_np_l. reflexivity.
        -- apply is_finite_false_class. cbn [mul div arith].
           apply div_inf_or_nan, mul_inf_or_nan. exact Ha.
Qed.

(** *** Runs on concrete readings *)

Lemma default_counterflow_run :
  calculations Counterflow default_inputs = Ok default_counterflow.
Proof. vm_compute. reflexivity. Qed.

Lemma default_parallel_run :
  calculations ParallelFlow default_inputs = Ok default_parallel.
Proof. vm_compute. reflexivity. Qed.

Lemma flat_cold_counterflow_run :
  calculations Counterflow (readings 150 90 50 50) = Ok flat_cold.
Proof. vm_compute. reflexivity. Qed.

Lemma flat_cold_parallel_run :
  calculations ParallelFlow (readings 150 90 50 50) = Ok flat_cold.
Proof. vm_compute. reflexivity. Qed.

Lemma crossing_run :
  calculations Counterflow (readings 150 20 25 70) = Ok crossing.
Proof. vm_compute. reflexivity. Qed.

Lemma zero_dT1_run :
  calculations Counterflow (readings 70 50 25 70) = Ok zero_dT1.
Proof. vm_compute. reflexivity. Qed.

Lemma equal_dT_run :
  calculations Counterflow (readings 100 65 25 60) = Ok equal_dT.
Proof. vm_compute. reflexivity. Qed.

(** [dT1 = dT2 = 0]: the LMTD line yields 0 and raises nothing; it is the
    area line after it, dividing two Python floats by [U * LMTD = 0], that
    raises. *)
Lemma zero_equal_dT_run :
  calc_LMTD (calc_dT1 Counterflow (readings 70 25 25 70))
    (calc_dT2 Counterflow (readings 70 25 25 70)) = Ok (py 0) /\
  calc_A (py 517275) (py 500) (py 0) = Raise ZeroDivisionError /\
  calculations Counterflow (readings 70 25 25 70) = Raise ZeroDivisionError.
Proof. repeat split. Qed.

(** Both inlets at 100 degrees: [Q_max = 0] and line 195 raises. *)
Lemma equal_inlets_run :
  calc_Q_max (py 10450) (readings 100 60 100 120) = py 0 /\
  calculations Counterflow (readings 100 60 100 120)
  = Raise ZeroDivisionError.
Proof. split; vm_compute; reflexivity. Qed.

(** The ends and the middle of the default counterflow profile. *)
Lemma default_profile_run :
  List.length (x (temperature_profile Counterflow default_inputs)) = 50%nat /\
  nth 0 (x (temperature_profile Counterflow default_inputs)) nan = 0 /\
  nth 0 (Th (temperature_profile Counterflow default_inputs)) nan = 150 /\
  nth 0 (Tc (temperature_profile Counterflow default_inputs)) nan = 70 /\
  nth 24 (Th (temperature_profile Counterflow default_inputs)) nan
  = 120.61224489795919 /\
  nth 49 (x (temperature_profile Counterflow default_inputs)) nan = 1 /\
  nth 49 (Th (temperature_profile Counterflow default_inputs)) nan = 90 /\
  nth 49 (Tc (temperature_profile Counterflow default_inputs)) nan = 25.
Proof. repeat split. Qed.

(** [dT1 = dT2 = 40]. *)
Lemma degenerate_lmtd_witness :
  calc_LMTD (py 40) (py 40) = Ok (py 40) /\
  is_finite 40 = true /\
  LMTD equal_dT = dT1 equal_dT.
Proof.
  destruct (degenerate_lmtd log_model Counterflow (readings 100 65 25 60)
              eq_refl) as (H1 & _ & H3 & H4).
  split; [exact H1|]. split; [exact H3|]. apply H4. exact equal_dT_run.
Defined.

(** One number in each band, and NaN. *)
Lemma classification_thresholds_witness :
  fst (performance_classification (py 93)) = "Excellent"%string /\
  fst (performance_classification (py 72.5)) = "Good"%string /\
  fst (performance_classification (py 45.6)) = "Fair"%string /\
  fst (performance_classification (py 12)) = "Poor"%string /\
  fst (performance_classification (py nan)) = "Poor"%string.
Proof.
  split; [|split; [|split; [|split]]].
  - destruct (classification_thresholds log_model (py 93)) as (H & _).
    apply H. reflexivity.
  - destruct (classification_thresholds log_model (py 72.5)) as (_ & H & _).
    apply H; reflexivity.
  - destruct (classification_thresholds log_model (py 45.6)) as (_ & _ & H & _).
    apply H; reflexivity.
  - destruct (classification_thresholds log_model (py 12))
      as (_ & _ & _ & H & _).
    apply H; reflexivity.
  - destruct (classification_thresholds log_model (py nan))
      as (_ & _ & _ & H & _).
    apply H; reflexivity.
Defined.

(** The three cases at [dT2 = 0], at [dT1 = 80] with [dT2 = -5], and at
    [dT1 = 0] with [dT2 = 25], with [log_model] for [np.log]. *)
Lemma undefined_lmtd_witness :
  calculations Counterflow (readings 150 25 25 70) = Raise ZeroDivisionError /\
  (LMTD crossing = np nan /\ A crossing = np nan /\ NTU crossing = np nan /\
   effectiveness crossing = py (961400 / 1306250)) /\
  (exists l,
      calc_LMTD (py 0) (py 25) = Ok (np l) /\
      ((l =? 0) = true \/ is_nan l = true) /\
      forall q u, exists a,
        calc_A q u (np l) = Ok (np a) /\ is_finite a = false /\
        forall c_min, exists n,
          calc_NTU u (np a) c_min = Ok (np n) /\ is_finite n = false).
Proof.
  split; [|split].
  - destruct (undefined_lmtd log_model Counterflow (readings 150 25 25 70)
                log_model_negative log_model_zero eq_refl) as (H & _).
    apply H. reflexivity.
  - destruct (undefined_lmtd log_model Counterflow (readings 150 20 25 70)
                log_model_negative log_model_zero eq_refl) as (_ & H & _).
    destruct (H eq_refl eq_refl) as (_ & _ & _ & Hr).
    exact (Hr crossing crossing_run).
  - destruct (undefined_lmtd log_model Counterflow (readings 70 50 25 70)
                log_model_negative log_model_zero eq_refl) as (_ & _ & H).
    exact (H eq_refl eq_refl eq_refl).
Defined.

End IEEEFacts.

(** ** Where the specification and the script part *)

Module Refuted.

#[local] Open Scope float_scope.

(** Counterexample to C1: on the counterflow example [Q_cold] is 564.3
    and not 627, the heat balance error is [200 / 19] (10.53 per cent)
    and not 0, and [effectiveness] is 0.456; the binary64 run agrees. *)
Lemma default_example_Q_cold :
  (exists r,
      @calculations R Exact.arith Counterflow Exact.default_inputs = Ok r /\
      Q_cold r = py (5643 / 10)%R /\ Q_cold r <> py 627%R /\
      heat_balance_error r = py (200 / 19)%R /\
      heat_balance_error r <> py 0%R /\
      effectiveness r = py (456 / 1000)%R) /\
  (exists r,
      @calculations float (IEEE.arith IEEE.log_model) Counterflow
        IEEE.default_inputs = Ok r /\
      Q_cold r = py 564.29999999999995 /\
      heat_balance_error r = py 10.526315789473692 /\
      effectiveness r = py 0.45600000000000002).
Proof.
  split.
  - exists Exact.default_results. split; [exact ExactFacts.default_run|].
    cbn. repeat split; try reflexivity.
    + intros H. injection H as H. lra.
    + intros H. injection H as H. lra.
  - exists IEEE.default_counterflow.
    split; [exact IEEEFacts.default_counterflow_run|].
    repeat split.
Qed.

(** Counterexample to C2: with the cold side at a constant 50 degrees
    both configurations leave the same [dT1], [dT2], [LMTD], [A] and
    [NTU]. *)
Lemma flat_cold_unchanged :
  exists r1 r2,
    @calculations float (IEEE.arith IEEE.log_model) Counterflow
      (IEEE.readings 150 90 50 50) = Ok r1 /\
    @calculations float (IEEE.arith IEEE.log_model) ParallelFlow
      (IEEE.readings 150 90 50 50) = Ok r2 /\
    dT1 r1 = dT1 r2 /\ dT2 r1 = dT2 r2 /\ LMTD r1 = LMTD r2 /\
    A r1 = A r2 /\ NTU r1 = NTU r2.
Proof.
  exists IEEE.flat_cold, IEEE.flat_cold.
  split; [exact IEEEFacts.flat_cold_counterflow_run|].
  split; [exact IEEEFacts.flat_cold_parallel_run|].
  repeat split.
Qed.

(** Counterexample to C3: with the hot outlet at the cold inlet's 25
    degrees, counterflow has [dT1 = 80] and [dT2 = 0] outside the
    degenerate branch, and the block raises [ZeroDivisionError]. *)
Lemma zero_dT2_raises :
  @calc_dT1 float (IEEE.arith IEEE.log_model) Counterflow
    (IEEE.readings 150 25 25 70) = py 80 /\
  @calc_dT2 float (IEEE.arith IEEE.log_model) Counterflow
    (IEEE.readings 150 25 25 70) = py 0 /\
  @degenerate float (IEEE.arith IEEE.log_model) (py 80) (py 0) = false /\
  @calc_LMTD float (IEEE.arith IEEE.log_model) (py 80) (py 0)
  = Raise ZeroDivisionError /\
  @calculations float (IEEE.arith IEEE.log_model) Counterflow
    (IEEE.readings 150 25 25 70) = Raise ZeroDivisionError.
Proof. repeat split. Qed.

(** Counterexample to C4: with no temperature change on either side
    [Q_hot = Q_cold = 0], yet no heat balance error is produced: line 201
    divides by [Q_avg = 0] and the block raises [ZeroDivisionError]. *)
Lemma equal_zero_duties_raise :
  (@calc_Q_hot float (IEEE.arith IEEE.log_model)
     (IEEE.readings 100 100 50 50) = py 0 /\
   @calc_Q_cold float (IEEE.arith IEEE.log_model)
     (IEEE.readings 100 100 50 50) = py 0 /\
   @calc_heat_balance_error float (IEEE.arith IEEE.log_model)
     (py 0) (py 0) (py 0) = Raise ZeroDivisionError /\
   @calculations float (IEEE.arith IEEE.log_model) Counterflow
     (IEEE.readings 100 100 50 50) = Raise ZeroDivisionError) /\
  (@calc_Q_hot R Exact.arith (Exact.readings 100 100 50 50) = py 0%R /\
   @calc_Q_cold R Exact.arith (Exact.readings 100 100 50 50) = py 0%R /\
   @calc_Q_avg R Exact.arith (py 0%R) (py 0%R) = Ok (py 0%R) /\
   @calc_heat_balance_error R Exact.arith (py 0%R) (py 0%R) (py 0%R)
   = Raise ZeroDivisionError).
Proof.
  split.
  - repeat split.
  - split; [|split; [|split]].
    + cbn. f_equal. lra.
    + cbn. f_equal. lra.
    + rewrite ExactFacts.calc_Q_avg_R. do 2 f_equal. lra.
    + apply ExactFacts.calc_heat_balance_error_Raise. reflexivity.
Qed.

End Refuted.


(** * Further properties of the script *)

(** ** Whatever the arithmetic *)

Section RunFacts.

Context {F : Type} {AF : Arith F}.

Lemma not_Raise_Ok {X} (m : outcome X) :
  m <> Raise ZeroDivisionError <-> exists x, m = Ok x.
Proof.
  destruct m as [x|[]]; split.
  - intros _. exists x. reflexivity.
  - intros _ H. discriminate.
  - intros H. contradiction H. reflexivity.
  - intros [x H]. discriminate.
Qed.

Lemma py_min_py (a b : F) : py_min (py a) (py b) = py (num (py_min (py a) (py b))).
Proof. unfold py_min. destruct (vlt (py b) (py a)); reflexivity. Qed.

Lemma py_max_py (a b : F) : py_max (py a) (py b) = py (num (py_max (py a) (py b))).
Proof. unfold py_max. destruct (vlt (py a) (py b)); reflexivity. Qed.

Lemma calc_LMTD_py (d1 d2 : F) :
  calc_LMTD (py d1) (py d2)
  = if degenerate (py d1) (py d2) then Ok (py d1)
    else if eq0 d2 then Raise ZeroDivisionError
         else Ok (np (div (sub d1 d2) (log (div d1 d2)))).
Proof.
  unfold calc_LMTD. destruct (degenerate (py d1) (py d2)); [reflexivity|].
  rewrite truediv_py_py. destruct (eq0 d2); [reflexivity|].
  cbn [bind]. unfold np_log. rewrite truediv_np_r. reflexivity.
Qed.

(** The block raises in six cases, each a zero divisor between two Python
    floats. *)
Lemma calculations_Raise_iff (c : Configuration) (i : Inputs F) :
  eq0 (of_int 2) = false ->
  let d1 := calc_dT1 c i in
  let d2 := calc_dT2 c i in
  let c_min := py_min (calc_C_hot i) (calc_C_cold i) in
  let c_max := py_max (calc_C_hot i) (calc_C_cold i) in
  let q_max := calc_Q_max c_min i in
  let q_sum := vadd (calc_Q_hot i) (calc_Q_cold i) in
  calculations c i = Raise ZeroDivisionError <->
  (degenerate d1 d2 = false /\ eq0 (num d2) = true) \/
  (degenerate d1 d2 = true /\ eq0 (mul (U i) (num d1)) = true) \/
  eq0 (num c_max) = true \/
  eq0 (num q_max) = true \/
  (degenerate d1 d2 = true /\ eq0 (num c_min) = true) \/
  eq0 (div (num q_sum) (of_int 2)) = true.
Proof.
  intros H2 d1 d2 c_min c_max q_max q_sum.
  unfold calculations.
  fold d1 d2 c_min c_max q_max.
  assert (Ed1 : d1 = py (num d1)) by (unfold d1; destruct c; reflexivity).
  assert (Ed2 : d2 = py (num d2)) by (unfold d2; destruct c; reflexivity).
  assert (Emin : c_min = py (num c_min)) by apply py_min_py.
  assert (Emax : c_max = py (num c_max)) by apply py_max_py.
  assert (Eqm : q_max = py (num q_max)).
  { unfold q_max, calc_Q_max. rewrite Emin. reflexivity. }
  assert (Eqa : calc_Q_avg (calc_Q_hot i) (calc_Q_cold i)
                = Ok (py (div (num q_sum) (of_int 2)))).
  { unfold calc_Q_avg, q_sum, calc_Q_hot, calc_Q_cold, int.
    rewrite !vsub_py, !vmul_py, vadd_py, truediv_py_py, H2. reflexivity. }
  rewrite Eqa. cbn [bind].
  set (qa := div (num q_sum) (of_int 2)).
  replace (calc_Q_hot i) with (py (num (calc_Q_hot i))) by reflexivity.
  replace (calc_Q_cold i) with (py (num (calc_Q_cold i))) by reflexivity.
  rewrite Ed1, Ed2, calc_LMTD_py. cbn [num].
  unfold calc_A, calc_C_ratio, calc_effectiveness, calc_NTU,
    calc_heat_balance_error, calc_Q, int.
  rewrite Emin, Emax, Eqm. cbn [num]. rewrite !vsub_py, !vmul_py.
  set (q := mul qa (of_int 1000)).
  set (hb := vabs (py (sub (num (calc_Q_hot i)) (num (calc_Q_cold i))))).
  assert (Ehb : hb = py (num hb)) by reflexivity.
  rewrite Ehb.
  destruct (degenerate (py (num d1)) (py (num d2))).
  - cbn [bind]. rewrite vmul_py.
    rewrite (truediv_py_py q (mul (U i) (num d1))).
    destruct (eq0 (mul (U i) (num d1))); cbn [bind];
      [intuition congruence|].
    rewrite (truediv_py_py (num c_min) (num c_max)).
    destruct (eq0 (num c_max)); cbn [bind]; [intuition congruence|].
    rewrite (truediv_py_py q (num q_max)).
    destruct (eq0 (num q_max)); cbn [bind]; [intuition congruence|].
    rewrite vmul_py, (truediv_py_py _ (num c_min)).
    destruct (eq0 (num c_min)); cbn [bind]; [intuition congruence|].
    rewrite (truediv_py_py (num hb) qa).
    destruct (eq0 qa); cbn [bind]; [intuition congruence|].
    split; [discriminate|]. intuition congruence.
  - destruct (eq0 (num d2)); cbn [bind]; [intuition congruence|].
    rewrite vmul_py_np, truediv_np_r. cbn [bind].
    rewrite (truediv_py_py (num c_min) (num c_max)).
    destruct (eq0 (num c_max)); cbn [bind]; [intuition congruence|].
    rewrite (truediv_py_py q (num q_max)).
    destruct (eq0 (num q_max)); cbn [bind]; [intuition congruence|].
    rewrite vmul_py_np, truediv_np_l. cbn [bind].
    rewrite (truediv_py_py (num hb) qa).
    destruct (eq0 qa); cbn [bind]; [intuition congruence|].
    split; [discriminate|]. intuition congruence.
Qed.

(** X1: the block raises [ZeroDivisionError] exactly in six cases, each a
    zero divisor between two Python floats: [dT2 == 0] outside the
    degenerate branch; [U * dT1 == 0] or [C_min == 0] inside it (there
    [LMTD], [A] are Python floats); [C_max == 0]; [Q_max == 0];
    [Q_avg == 0].  In every other case it runs to its end. *)
Theorem block_raises_iff (c : Configuration) (i : Inputs F) :
  eq0 (of_int 2) = false ->
  let d1 := calc_dT1 c i in
  let d2 := calc_dT2 c i in
  let c_min := py_min (calc_C_hot i) (calc_C_cold i) in
  let c_max := py_max (calc_C_hot i) (calc_C_cold i) in
  let q_max := calc_Q_max c_min i in
  let q_sum := vadd (calc_Q_hot i) (calc_Q_cold i) in
  (calculations c i = Raise ZeroDivisionError <->
   (degenerate d1 d2 = false /\ eq0 (num d2) = true) \/
   (degenerate d1 d2 = true /\ eq0 (mul (U i) (num d1)) = true) \/
   eq0 (num c_max) = true \/
   eq0 (num q_max) = true \/
   (degenerate d1 d2 = true /\ eq0 (num c_min) = true) \/
   eq0 (div (num q_sum) (of_int 2)) = true) /\
  (calculations c i <> Raise ZeroDivisionError <->
   exists r, calculations c i = Ok r).
Proof.
  intros H2. cbn zeta. split.
  - apply (calculations_Raise_iff c i H2).
  - apply not_Raise_Ok.
Qed.

(** X2: the rating the gauge shows for a run is the same under both
    configurations, whenever both runs reach their end, and the same for
    any other value of [U]. *)
Theorem rating_independent_of_configuration_and_U
    (c : Configuration) (i : Inputs F) (r : Results F) :
  calculations c i = Ok r ->
  (forall c' r', calculations c' i = Ok r' ->
                 performance_analysis r' = performance_analysis r) /\
  (forall u r', calculations c (with_U u i) = Ok r' ->
                performance_analysis r' = performance_analysis r).
Proof.
  intros H.
  pose proof (effectiveness_formula _ _ _ H) as E.
  pose proof H as R. apply calculations_runs in R.
  destruct R as (Qh & Qc & Qa & HQ & _ & _ & _ & _ & Ch & Cc & Cm & _ & _
                 & Qm & _).
  assert (K : forall c' i' r',
             calculations c' i' = Ok r' ->
             calc_Q_hot i' = calc_Q_hot i -> calc_Q_cold i' = calc_Q_cold i ->
             calc_C_hot i' = calc_C_hot i -> calc_C_cold i' = calc_C_cold i ->
             Th_in i' = Th_in i -> Tc_in i' = Tc_in i ->
             performance_analysis r' = performance_analysis r).
  { intros c' i' r' H' E1 E2 E3 E4 E5 E6.
    pose proof (effectiveness_formula _ _ _ H') as E'.
    apply calculations_runs in H'.
    destruct H' as (Qh' & Qc' & Qa' & HQ' & _ & _ & _ & _ & Ch' & Cc' & Cm'
                    & _ & _ & Qm' & _).
    assert (Eqa : Q_avg r' = Q_avg r).
    { apply Ok_inj. rewrite <- Qa, <- Qa', Qh, Qh', Qc, Qc', E1, E2.
      reflexivity. }
    assert (Eq : Q r' = Q r) by (rewrite HQ, HQ', Eqa; reflexivity).
    assert (Ecm : C_min r' = C_min r)
      by (rewrite Cm, Cm', Ch, Ch', Cc, Cc', E3, E4; reflexivity).
    assert (Eqm : Q_max r' = Q_max r).
    { rewrite Qm, Qm', Ecm. unfold calc_Q_max. rewrite E5, E6. reflexivity. }
    unfold performance_analysis. rewrite E, E', Eq, Eqm. reflexivity. }
  split.
  - intros c' r' H'. apply (K c' i r' H'); reflexivity.
  - intros u r' H'. apply (K c (with_U u i) r' H'); reflexivity.
Qed.

End RunFacts.


(** ** The gauge, whatever the arithmetic *)

Section GaugeFacts.

Context {F : Type} {AF : Arith F}.

Lemma gauge_figure (e : value F) :
  let fig := fst (effectiveness_gauge e) in
  indicator_value fig = e /\ threshold_value fig = e /\
  axis_range fig = (of_int 0, of_int 100) /\
  steps fig = gauge_steps /\
  bar_color fig = snd (performance_classification e) /\
  snd (effectiveness_gauge e)
  = ("Performance Rating: **" ++ fst (performance_classification e)
     ++ "**")%string.
Proof.
  unfold effectiveness_gauge.
  destruct (performance_classification e) as [label color].
  repeat split.
Qed.

End GaugeFacts.


(** ** Run-time types of the results *)

Section TypeFacts.

Context {F : Type} {AF : Arith F}.

Lemma truediv_is_np (a b v : value F) :
  truediv a b = Ok v -> is_np v = (is_np a || is_np b)%bool.
Proof.
  unfold truediv. destruct (is_np a || is_np b)%bool.
  - intros H. apply Ok_inj in H. rewrite <- H. reflexivity.
  - destruct (eq0 (num b)); [discriminate|].
    intros H. apply Ok_inj in H. rewrite <- H. reflexivity.
Qed.

Lemma retag_is_np (a b : value F) (x : F) :
  is_np (retag a b x) = (is_np a || is_np b)%bool.
Proof. unfold retag. destruct (is_np a || is_np b)%bool; reflexivity. Qed.

Lemma vabs_is_np (a : value F) : is_np (vabs a) = is_np a.
Proof. destruct a; reflexivity. Qed.

Lemma py_min_is_np (a b : value F) :
  is_np a = false -> is_np b = false -> is_np (py_min a b) = false.
Proof. intros Ha Hb. unfold py_min. destruct (vlt b a); assumption. Qed.

Lemma py_max_is_np (a b : value F) :
  is_np a = false -> is_np b = false -> is_np (py_max a b) = false.
Proof. intros Ha Hb. unfold py_max. destruct (vlt a b); assumption. Qed.

(** X16: in a completed run [LMTD], [A] and [NTU] are [numpy.float64]
    exactly when the logarithmic branch was taken, and Python floats in
    the degenerate branch; every other variable of the block is a Python
    float in both, and so is the value handed to the gauge. *)
Theorem result_types (c : Configuration) (i : Inputs F) (r : Results F) :
  calculations c i = Ok r ->
  let d := degenerate (calc_dT1 c i) (calc_dT2 c i) in
  is_np (LMTD r) = negb d /\ is_np (A r) = negb d /\ is_np (NTU r) = negb d /\
  is_np (Q_hot r) = false /\ is_np (Q_cold r) = false /\
  is_np (Q_avg r) = false /\ is_np (Q r) = false /\
  is_np (dT1 r) = false /\ is_np (dT2 r) = false /\
  is_np (C_hot r) = false /\ is_np (C_cold r) = false /\
  is_np (C_min r) = false /\ is_np (C_max r) = false /\
  is_np (C_ratio r) = false /\ is_np (Q_max r) = false /\
  is_np (effectiveness r) = false /\
  is_np (heat_balance_error r) = false /\
  is_np (indicator_value (fst (performance_analysis r))) = false.
Proof.
  intros H d. apply calculations_runs in H.
  destruct H as (Qh & Qc & Qa & HQ & D1 & D2 & L & HA & Ch & Cc & Cm & CM
                 & Cr & Qm & He & Hn & Hb).
  assert (Tqh : is_np (Q_hot r) = false) by (rewrite Qh; reflexivity).
  assert (Tqc : is_np (Q_cold r) = false) by (rewrite Qc; reflexivity).
  assert (Tqa : is_np (Q_avg r) = false).
  { unfold calc_Q_avg in Qa. apply truediv_is_np in Qa.
    rewrite Qa. unfold vadd. rewrite retag_is_np, Tqh, Tqc. reflexivity. }
  assert (Tq : is_np (Q r) = false).
  { rewrite HQ. unfold calc_Q, vmul. rewrite retag_is_np, Tqa. reflexivity. }
  assert (Td1 : is_np (dT1 r) = false) by (rewrite D1; destruct c; reflexivity).
  assert (Td2 : is_np (dT2 r) = false) by (rewrite D2; destruct c; reflexivity).
  assert (Tl : is_np (LMTD r) = negb d).
  { unfold d. rewrite <- D1, <- D2. unfold calc_LMTD in L.
    destruct (degenerate (dT1 r) (dT2 r)).
    - apply Ok_inj in L. rewrite <- L. exact Td1.
    - destruct (truediv (dT1 r) (dT2 r)) as [q|e]; [|discriminate].
      cbn [bind] in L. apply truediv_is_np in L. rewrite L.
      apply orb_true_r. }
  assert (Ta : is_np (A r) = negb d).
  { unfold calc_A in HA. apply truediv_is_np in HA.
    rewrite HA. unfold vmul. rewrite retag_is_np, Tq, Tl. reflexivity. }
  assert (Tch : is_np (C_hot r) = false) by (rewrite Ch; reflexivity).
  assert (Tcc : is_np (C_cold r) = false) by (rewrite Cc; reflexivity).
  assert (Tm : is_np (C_min r) = false)
    by (rewrite Cm; apply py_min_is_np; assumption).
  assert (TM : is_np (C_max r) = false)
    by (rewrite CM; apply py_max_is_np; assumption).
  assert (Tr : is_np (C_ratio r) = false).
  { unfold calc_C_ratio in Cr. apply truediv_is_np in Cr.
    rewrite Cr, Tm, TM. reflexivity. }
  assert (Tqm : is_np (Q_max r) = false).
  { rewrite Qm. unfold calc_Q_max, vmul. rewrite retag_is_np, Tm.
    reflexivity. }
  assert (Te : is_np (effectiveness r) = false).
  { unfold calc_effectiveness in He. apply truediv_is_np in He.
    rewrite He, Tq, Tqm. reflexivity. }
  assert (Tn : is_np (NTU r) = negb d).
  { unfold calc_NTU in Hn. apply truediv_is_np in Hn.
    rewrite Hn. unfold vmul. rewrite retag_is_np, Ta, Tm.
    cbn [is_np orb]. apply orb_false_r. }
  assert (Tb : is_np (heat_balance_error r) = false).
  { unfold calc_heat_balance_error in Hb.
    destruct (truediv (vabs (vsub (Q_hot r) (Q_cold r))) (Q_avg r))
      as [e|e] eqn:E; [|discriminate].
    cbn [bind] in Hb. apply Ok_inj in Hb. apply truediv_is_np in E.
    rewrite <- Hb. unfold vmul. rewrite retag_is_np, E, vabs_is_np.
    unfold vsub. rewrite retag_is_np, Tqh, Tqc, Tqa. reflexivity. }
  assert (Tg : is_np (indicator_value (fst (performance_analysis r))) = false).
  { unfold performance_analysis.
    destruct (gauge_figure (vmul (effectiveness r) (int 100))) as [E _].
    rewrite E. unfold vmul. rewrite retag_is_np, Te. reflexivity. }
  repeat split; assumption.
Qed.

End TypeFacts.


(** ** In binary64 *)

Module IEEEMore.

Import IEEE IEEEFacts.
#[local] Open Scope float_scope.

#[local] Hint Extern 0 (Arith float) =>
  match goal with lg : float -> float |- _ => exact (arith lg) end
  : typeclass_instances.
#[local] Hint Extern 1 (Arith float) => exact (arith log_model)
  : typeclass_instances.

(** *** The bands of the gauge and the rating *)

Lemma compare_cont_Lt_trans (m a b : positive) :
  (a < b)%positive ->
  Pos.compare_cont Eq m a = Lt -> Pos.compare_cont Eq m b = Lt.
Proof. intros Hab H. exact (Pos.lt_trans m a b H Hab). Qed.

Lemma below_40_below_60 x : (x <? 40) = true -> (x <? 60) = true.
Proof.
  rewrite !ltb_spec. unfold SFltb.
  let v := eval vm_compute in (Prim2SF 40) in change (Prim2SF 40) with v.
  let v := eval vm_compute in (Prim2SF 60) in change (Prim2SF 60) with v.
  destruct (Prim2SF x) as [[]|[]| |[] m e]; cbn [SFcompare]; try congruence.
  destruct (Z.compare_spec e (-47)) as [E|E|E]; try discriminate.
  - destruct (Pos.compare_cont Eq m 5629499534213120) eqn:C; try discriminate.
    intros _.
    assert (L : (5629499534213120 < 8444249301319680)%positive)
      by (vm_compute; reflexivity).
    rewrite (compare_cont_Lt_trans m _ _ L C). reflexivity.
  - intros _. reflexivity.
Qed.

Lemma classification_bands (lg : float -> float) (e : value float) :
  ((num e <? 40) = true ->
   performance_classification e = ("Poor", "red")%string) /\
  ((40 <=? num e) = true -> (num e <? 60) = true ->
   performance_classification e = ("Fair", "orange")%string) /\
  ((60 <=? num e) = true -> (num e <? 80) = true ->
   performance_classification e = ("Good", "limegreen")%string) /\
  ((80 <=? num e) = true ->
   performance_classification e = ("Excellent", "green")%string).
Proof.
  unfold performance_classification, vge, int. cbn [num le arith of_int].
  change (float_of_int 80) with 80. change (float_of_int 60) with 60.
  change (float_of_int 40) with 40.
  split; [|split; [|split]].
  - intros H40. pose proof (below_40_below_60 _ H40) as H60.
    rewrite (below_60_not_from_80 _ H60), (ltb_leb_false _ _ H60),
      (ltb_leb_false _ _ H40). reflexivity.
  - intros G40 H60.
    rewrite (below_60_not_from_80 _ H60), (ltb_leb_false _ _ H60), G40.
    reflexivity.
  - intros G60 H80. rewrite (ltb_leb_false _ _ H80), G60. reflexivity.
  - intros G80. rewrite G80. reflexivity.
Qed.

(** X14: the rating and the bar colour are those of the band of ["steps"]
    the value falls in: a value with [lo <= value < hi] for the k-th band
    is rated Poor, Fair, Good, Excellent for k = 0, 1, 2, 3 and the bar
    is red, orange, limegreen, green; every value from 0 up to, not
    including, 100 falls in one of the four bands. *)
Theorem gauge_band_rating (lg : float -> float) (e : value float) :
  let fig := fst (effectiveness_gauge e) in
  let text := snd (effectiveness_gauge e) in
  (forall k s,
     nth_error (steps fig) k = Some s ->
     (range_lo s <=? num e) = true -> (num e <? range_hi s) = true ->
     bar_color fig = nth k ["red"; "orange"; "limegreen"; "green"]%string
                       ""%string /\
     text = ("Performance Rating: **"
             ++ nth k ["Poor"; "Fair"; "Good"; "Excellent"] "" ++ "**")%string) /\
  ((0 <=? num e) = true -> (num e <? 100) = true ->
   exists k s,
     nth_error (steps fig) k = Some s /\
     (range_lo s <=? num e) = true /\ (num e <? range_hi s) = true).
Proof.
  cbn zeta.
  destruct (gauge_figure e) as (_ & _ & _ & Es & Ec & Et).
  destruct (classification_bands lg e) as (B0 & B1 & B2 & B3).
  rewrite Es, Ec, Et. unfold gauge_steps. cbn [of_int arith].
  change (float_of_int 0) with 0. change (float_of_int 40) with 40.
  change (float_of_int 60) with 60. change (float_of_int 80) with 80.
  change (float_of_int 100) with 100.
  split.
  - intros k s Hs Hlo Hhi.
    destruct k as [|[|[|[|k]]]]; cbn [nth_error] in Hs;
      [| | | |destruct k; discriminate];
      injection Hs as <-; cbn [range_lo range_hi] in Hlo, Hhi.
    + rewrite (B0 Hhi). split; reflexivity.
    + rewrite (B1 Hlo Hhi). split; reflexivity.
    + rewrite (B2 Hlo Hhi). split; reflexivity.
    + rewrite (B3 Hlo). split; reflexivity.
  - intros H0 H100.
    pose proof (leb_not_nan _ _ H0) as Hn.
    destruct (num e <? 40) eqn:L40.
    { exists 0%nat. eexists. split; [reflexivity|]. split; assumption. }
    pose proof (not_ltb_leb (num e) 40 Hn eq_refl L40) as G40.
    destruct (num e <? 60) eqn:L60.
    { exists 1%nat. eexists. split; [reflexivity|]. split; assumption. }
    pose proof (not_ltb_leb (num e) 60 Hn eq_refl L60) as G60.
    destruct (num e <? 80) eqn:L80.
    { exists 2%nat. eexists. split; [reflexivity|]. split; assumption. }
    pose proof (not_ltb_leb (num e) 80 Hn eq_refl L80) as G80.
    exists 3%nat. eexists. split; [reflexivity|]. split; assumption.
Qed.

End IEEEMore.


(** ** These theorems at concrete binary64 readings *)

Module IEEEMoreWitnesses.

Import IEEE IEEEFacts IEEEMore.
#[local] Open Scope float_scope.

#[local] Hint Extern 1 (Arith float) => exact (arith log_model)
  : typeclass_instances.

(** [dT2 = 0] with [dT1 = 80]: the first of the six cases; and the default
    readings, where none of them holds. *)
Lemma block_raises_iff_witness :
  calculations Counterflow (readings 150 25 25 70) = Raise ZeroDivisionError /\
  exists r, calculations Counterflow default_inputs = Ok r.
Proof.
  assert (E2 : @eq0 float (arith log_model) (@of_int float (arith log_model) 2)
               = false) by reflexivity.
  destruct (@block_raises_iff float (arith log_model) Counterflow
              (readings 150 25 25 70) E2) as [H _].
  destruct (@block_raises_iff float (arith log_model) Counterflow
              default_inputs E2) as [_ H'].
  split.
  - apply H. left. split; vm_compute; reflexivity.
  - apply H'. rewrite default_counterflow_run. discriminate.
Defined.

Lemma rating_independent_of_configuration_and_U_witness :
  performance_analysis default_parallel
  = performance_analysis default_counterflow.
Proof.
  destruct (rating_independent_of_configuration_and_U
              Counterflow default_inputs default_counterflow
              default_counterflow_run) as [H _].
  exact (H ParallelFlow default_parallel default_parallel_run).
Defined.

Lemma gauge_band_rating_witness :
  snd (effectiveness_gauge (py 45.6)) = "Performance Rating: **Fair**"%string /\
  bar_color (fst (effectiveness_gauge (py 45.6))) = "orange"%string.
Proof.
  destruct (gauge_band_rating log_model (py 45.6)) as [H _].
  destruct (H 1%nat {| range_lo := 40; range_hi := 60;
                       step_color := "#fde68a" |})
    as [H1 H2]; try reflexivity.
  split; [exact H2 | exact H1].
Defined.

Lemma result_types_witness :
  is_np (LMTD default_counterflow) = true /\
  is_np (LMTD equal_dT) = false /\
  is_np (effectiveness default_counterflow) = false.
Proof.
  destruct (result_types Counterflow default_inputs default_counterflow
              default_counterflow_run) as (H & _ & _ & _ & _ & _ & _ & _ & _
              & _ & _ & _ & _ & _ & _ & He & _).
  destruct (result_types Counterflow (readings 100 65 25 60) equal_dT
              equal_dT_run) as (H' & _).
  split; [exact H|]. split; [exact H' | exact He].
Defined.

End IEEEMoreWitnesses.

(** * Rounding in binary64 *)

Module RoundFacts.

Import Round.
#[local] Open Scope Z_scope.


(** *** Digits *)

Lemma digits2_pos_bounds (p : positive) :
  2 ^ (Zpos (digits2_pos p) - 1) <= Zpos p < 2 ^ Zpos (digits2_pos p).
Proof.
  induction p as [p IH|p IH|]; cbn [digits2_pos].
  - rewrite Pos2Z.inj_succ.
    replace (Z.succ (Zpos (digits2_pos p)) - 1) with (Z.succ (Zpos (digits2_pos p) - 1)) by lia.
    rewrite !Z.pow_succ_r by lia. lia.
  - rewrite Pos2Z.inj_succ.
    replace (Z.succ (Zpos (digits2_pos p)) - 1) with (Z.succ (Zpos (digits2_pos p) - 1)) by lia.
    rewrite !Z.pow_succ_r by lia. lia.
  - cbn. lia.
Qed.

Lemma Zdigits2_bounds (m : Z) :
  0 < m -> 2 ^ (Zdigits2 m - 1) <= m < 2 ^ Zdigits2 m.
Proof.
  destruct m as [|p|p]; try lia. intros _. apply digits2_pos_bounds.
Qed.

Lemma Zdigits2_pos (m : Z) : 0 < m -> 0 < Zdigits2 m.
Proof. destruct m; cbn; lia. Qed.

Lemma Zdigits2_nonneg (m : Z) : 0 <= Zdigits2 m.
Proof. destruct m; cbn; lia. Qed.

Lemma Zdigits2_unique (m d : Z) :
  0 < d -> 2 ^ (d - 1) <= m < 2 ^ d -> Zdigits2 m = d.
Proof.
  intros Hd [L U].
  assert (Hm : 0 < m) by (pose proof (Z.pow_pos_nonneg 2 (d - 1)); lia).
  pose proof (Zdigits2_bounds m Hm) as [L' U'].
  pose proof (Zdigits2_pos m Hm) as P.
  destruct (Z.lt_trichotomy (Zdigits2 m) d) as [H|[H|H]]; [|exact H|].
  - exfalso. assert (2 ^ Zdigits2 m <= 2 ^ (d - 1)) by (apply Z.pow_le_mono_r; lia). lia.
  - exfalso. assert (2 ^ d <= 2 ^ (Zdigits2 m - 1)) by (apply Z.pow_le_mono_r; lia). lia.
Qed.

Lemma Zdigits2_le (m n : Z) : 0 <= m -> m <= n -> Zdigits2 m <= Zdigits2 n.
Proof.
  intros Hm Hmn.
  destruct (Z.eq_dec m 0) as [->|Hz]; [apply Zdigits2_nonneg|].
  assert (P : 0 < m) by lia. assert (P' : 0 < n) by lia.
  pose proof (Zdigits2_bounds m P) as [L U].
  pose proof (Zdigits2_bounds n P') as [L' U'].
  destruct (Z_le_gt_dec (Zdigits2 m) (Zdigits2 n)) as [H|H]; [exact H|].
  exfalso. assert (2 ^ Zdigits2 n <= 2 ^ (Zdigits2 m - 1)) by (apply Z.pow_le_mono_r; lia). lia.
Qed.

(** [m < 2 ^ d] bounds the number of digits. *)
Lemma Zdigits2_lt_pow (m d : Z) : 0 <= d -> 0 <= m < 2 ^ d -> Zdigits2 m <= d.
Proof.
  intros Hd [L U].
  destruct (Z.eq_dec m 0) as [->|Hz]; [cbn; lia|].
  pose proof (Zdigits2_bounds m ltac:(lia)) as [L' U'].
  destruct (Z_le_gt_dec (Zdigits2 m) d) as [H|H]; [exact H|].
  exfalso. assert (2 ^ d <= 2 ^ (Zdigits2 m - 1)) by (apply Z.pow_le_mono_r; lia). lia.
Qed.

Lemma Zdigits2_div_pow (m k : Z) :
  0 < m -> 0 <= k -> k < Zdigits2 m -> Zdigits2 (m / 2 ^ k) = Zdigits2 m - k.
Proof.
  intros Hm Hk Hlt.
  pose proof (Zdigits2_bounds m Hm) as [L U].
  assert (P : 0 < 2 ^ k) by (apply Z.pow_pos_nonneg; lia).
  apply Zdigits2_unique; [lia|]. split.
  - apply Z.div_le_lower_bound; [exact P|].
    rewrite <- Z.pow_add_r by lia.
    replace (k + (Zdigits2 m - k - 1)) with (Zdigits2 m - 1) by lia. exact L.
  - apply Z.div_lt_upper_bound; [exact P|].
    rewrite <- Z.pow_add_r by lia.
    replace (k + (Zdigits2 m - k)) with (Zdigits2 m) by lia. exact U.
Qed.

(** *** Shifting right *)

Lemma iter_pos_nat {A} (f : A -> A) (p : positive) (x : A) :
  iter_pos f p x = Nat.iter (Pos.to_nat p) f x.
Proof.
  revert x. induction p as [p IH|p IH|]; intros x; cbn [iter_pos].
  - rewrite !IH, Pos2Nat.inj_xI.
    replace (S (2 * Pos.to_nat p))%nat
      with (Pos.to_nat p + (Pos.to_nat p + 1))%nat by lia.
    rewrite !Nat.iter_add. reflexivity.
  - rewrite !IH, Pos2Nat.inj_xO.
    replace (2 * Pos.to_nat p)%nat with (Pos.to_nat p + Pos.to_nat p)%nat by lia.
    rewrite Nat.iter_add. reflexivity.
  - reflexivity.
Qed.


Lemma shr_1_spec (mrs : shr_record) :
  0 <= shr_m mrs ->
  shr_m (shr_1 mrs) = shr_m mrs / 2 /\
  inexact (shr_1 mrs) = Z.odd (shr_m mrs) || inexact mrs.
Proof.
  destruct mrs as [m r s]. unfold inexact. cbn [shr_m shr_r shr_s].
  intros Hm. destruct m as [|[p|p|]|p]; try lia; cbn [shr_1 shr_m shr_r shr_s].
  - split; reflexivity.
  - split; [|reflexivity].
    rewrite Pos2Z.inj_xI. apply Z.div_unique with (r := 1); lia.
  - split; [|reflexivity].
    rewrite Pos2Z.inj_xO. apply Z.div_unique with (r := 0); lia.
  - split; reflexivity.
Qed.

Lemma shr_iter_spec (n : nat) (mrs : shr_record) :
  0 <= shr_m mrs ->
  shr_m (Nat.iter n shr_1 mrs) = shr_m mrs / 2 ^ Z.of_nat n /\
  (inexact (Nat.iter n shr_1 mrs) = false <->
   shr_m mrs mod 2 ^ Z.of_nat n = 0 /\ inexact mrs = false).
Proof.
  intros Hm. induction n as [|n [IHm IHe]].
  - change (Nat.iter 0 shr_1 mrs) with mrs.
    rewrite Z.pow_0_r, Z.div_1_r, Z.mod_1_r. tauto.
  - rewrite Nat.iter_succ.
    set (a := Nat.iter n shr_1 mrs) in *.
    assert (P : 0 < 2 ^ Z.of_nat n) by (apply Z.pow_pos_nonneg; lia).
    assert (Ha : 0 <= shr_m a) by (rewrite IHm; apply Z.div_pos; lia).
    destruct (shr_1_spec a Ha) as [E1 E2].
    rewrite Nat2Z.inj_succ, Z.pow_succ_r by lia.
    split.
    + rewrite E1, IHm, Z.div_div by lia.
      f_equal. lia.
    + rewrite E2, orb_false_iff, IHe.
      pose proof (Z.div_mod (shr_m mrs) (2 ^ Z.of_nat n) ltac:(lia)) as D.
      pose proof (Z.mod_pos_bound (shr_m mrs) (2 ^ Z.of_nat n) P) as B.
      rewrite <- IHm in D.
      rewrite <- Z.negb_even, negb_false_iff, Z.even_spec.
      split.
      * intros [[k Hk] [Hz Hi]]. split; [|exact Hi].
        rewrite D, Hz, Hk, Z.add_0_r.
        replace (2 ^ Z.of_nat n * (2 * k)) with (k * (2 * 2 ^ Z.of_nat n)) by ring.
        apply Z.mod_mul. lia.
      * intros [Hz Hi].
        apply Z.mod_divide in Hz; [|lia]. destruct Hz as [k Hk].
        assert (Hz' : shr_m mrs mod 2 ^ Z.of_nat n = 0).
        { rewrite Hk. replace (k * (2 * 2 ^ Z.of_nat n)) with ((k * 2) * 2 ^ Z.of_nat n) by ring.
          apply Z.mod_mul. lia. }
        split; [|split; [exact Hz' | exact Hi]].
        exists k. rewrite Hz', Z.add_0_r in D. rewrite Hk in D. nia.
Qed.

Lemma shr_spec (mrs : shr_record) (e n : Z) :
  0 <= shr_m mrs -> 0 < n ->
  let '(mrs', e') := shr mrs e n in
  e' = e + n /\
  shr_m mrs' = shr_m mrs / 2 ^ n /\
  (inexact mrs' = false <-> shr_m mrs mod 2 ^ n = 0 /\ inexact mrs = false).
Proof.
  intros Hm Hn. destruct n as [|p|p]; try lia. cbn [shr].
  rewrite iter_pos_nat.
  destruct (shr_iter_spec (Pos.to_nat p) mrs Hm) as [E1 E2].
  rewrite positive_nat_Z in E1, E2.
  split; [reflexivity|]. split; assumption.
Qed.

Lemma shr_nop (mrs : shr_record) (e n : Z) :
  n <= 0 -> shr mrs e n = (mrs, e).
Proof. destruct n; cbn; try lia; reflexivity. Qed.

(** *** Rounding to binary64 *)

Lemma fexp_eq (e : Z) : SpecFloat.fexp prec emax e = Z.max (e - 53) (-1074).
Proof. reflexivity. Qed.

Lemma shr_record_of_loc_m (m : Z) (l : location) :
  shr_m (shr_record_of_loc m l) = m.
Proof. destruct l as [|[]]; reflexivity. Qed.

Lemma shr_record_of_loc_inexact (m : Z) (l : location) :
  inexact (shr_record_of_loc m l) = false <-> l = loc_Exact.
Proof. destruct l as [|[]]; cbn; split; congruence. Qed.

Lemma shr_fexp_spec (m e : Z) (l : location) :
  0 <= m ->
  let k := SpecFloat.fexp prec emax (Zdigits2 m + e) - e in
  let '(mrs, e') := shr_fexp prec emax m e l in
  (k <= 0 -> mrs = shr_record_of_loc m l /\ e' = e) /\
  (0 < k ->
   e' = e + k /\ shr_m mrs = m / 2 ^ k /\
   (inexact mrs = false <-> m mod 2 ^ k = 0 /\ l = loc_Exact)).
Proof.
  intros Hm k. unfold shr_fexp. fold k.
  destruct (Z_le_gt_dec k 0) as [H|H].
  - rewrite shr_nop by exact H. split; [auto|lia].
  - pose proof (shr_spec (shr_record_of_loc m l) e k) as S.
    rewrite shr_record_of_loc_m in S. specialize (S Hm ltac:(lia)).
    destruct (shr (shr_record_of_loc m l) e k) as [mrs e'].
    destruct S as (E1 & E2 & E3). rewrite shr_record_of_loc_inexact in E3.
    split; [lia|]. intros _. split; [exact E1|]. split; assumption.
Qed.

Lemma round_nearest_even_spec (mrs : shr_record) :
  let m := shr_m mrs in
  let mr := round_nearest_even m (loc_of_shr_record mrs) in
  (mr = m \/ mr = m + 1) /\ (inexact mrs = false -> mr = m).
Proof.
  destruct mrs as [m [] []]; cbn; unfold inexact; cbn; split;
    try discriminate; auto.
  destruct (Z.even m); auto.
Qed.


Lemma binary_round_aux_spec (s : bool) (mx ex : Z) (lx : location) :
  0 <= mx ->
  let k := SpecFloat.fexp prec emax (Zdigits2 mx + ex) - ex in
  let m1 := if 0 <? k then mx / 2 ^ k else mx in
  let e1 := if 0 <? k then ex + k else ex in
  let exact1 := (if 0 <? k then mx mod 2 ^ k = 0 else True) /\ lx = loc_Exact in
  exists mr,
    (mr = m1 \/ (mr = m1 + 1 /\ ~ exact1)) /\
    binary_round_aux prec emax s mx ex lx = finish s mr e1.
Proof.
  intros Hm k m1 e1 exact1. unfold binary_round_aux.
  pose proof (shr_fexp_spec mx ex lx Hm) as S. fold k in S. cbn zeta in S.
  destruct (shr_fexp prec emax mx ex lx) as [mrs' e'].
  destruct S as [S0 S1].
  pose proof (round_nearest_even_spec mrs') as [R1 R2]. cbn zeta in R1, R2.
  set (mr := round_nearest_even (shr_m mrs') (loc_of_shr_record mrs')) in *.
  assert (Em : shr_m mrs' = m1 /\ e' = e1 /\ (inexact mrs' = false <-> exact1)).
  { unfold m1, e1, exact1. destruct (Z.ltb_spec 0 k) as [H|H].
    - destruct (S1 H) as (E1 & E2 & E3). auto.
    - destruct (S0 H) as (E1 & E2). subst mrs' e'.
      rewrite shr_record_of_loc_m, shr_record_of_loc_inexact. tauto. }
  destruct Em as (Em & Ee & Ex). subst e'.
  assert (Hm1 : 0 <= m1).
  { unfold m1. destruct (0 <? k); [apply Z.div_pos; [lia|apply Z.pow_pos_nonneg; lia]|lia].
    }
  assert (Hk : 0 <= k \/ True) by auto.
  exists mr. split.
  - rewrite Em in R1, R2. destruct R1 as [R1|R1]; [left; exact R1|].
    destruct (inexact mrs') eqn:I.
    + right. split; [exact R1|]. intros X. apply Ex in X. discriminate.
    + left. apply R2. reflexivity.
  - assert (Hmr : 0 <= mr) by (rewrite Em in R1; lia).
    pose proof (shr_fexp_spec mr e1 loc_Exact Hmr) as T. cbn zeta in T.
    unfold finish.
    destruct (shr_fexp prec emax mr e1 loc_Exact) as [mrs'' e''].
    destruct T as [T0 T1].
    destruct (Z.ltb_spec 0 (SpecFloat.fexp prec emax (Zdigits2 mr + e1) - e1)) as [H|H].
    + destruct (T1 H) as (E1 & E2 & _). rewrite E2, E1. reflexivity.
    + destruct (T0 H) as (E1 & E2). subst mrs'' e''. cbn [shr_record_of_loc shr_m].
      reflexivity.
Qed.

(** *** Numbers of the format *)

Lemma valid_finite (s : bool) (m : positive) (e : Z) :
  valid_binary (S754_finite s m e) = true ->
  SpecFloat.fexp prec emax (Zdigits2 (Zpos m) + e) = e /\ e <= 971.
Proof.
  cbn [valid_binary]. unfold bounded, canonical_mantissa.
  rewrite andb_true_iff, Z.eqb_eq, Z.leb_le. cbn [Zdigits2]. intros [H1 H2].
  split; [exact H1 | exact H2].
Qed.

Lemma Prim2SF_finite (x : float) (s : bool) (m : positive) (e : Z) :
  Prim2SF x = S754_finite s m e ->
  SpecFloat.fexp prec emax (Zdigits2 (Zpos m) + e) = e /\ e <= 971.
Proof.
  intros H. apply (valid_finite s). rewrite <- H. apply Prim2SF_valid.
Qed.

Lemma finish_canonical (s : bool) (m : positive) (e : Z) :
  SpecFloat.fexp prec emax (Zdigits2 (Zpos m) + e) = e -> e <= 971 ->
  finish s (Zpos m) e = S754_finite s m e.
Proof.
  intros H1 H2. unfold finish. rewrite H1, Z.sub_diag. cbn [Z.ltb Z.compare build].
  destruct (Z.leb_spec e (emax - prec)) as [L|L]; [reflexivity|].
  change (emax - prec) with 971 in L. lia.
Qed.

Lemma Zdigits2_mul_pow (m k : Z) :
  0 < m -> 0 <= k -> Zdigits2 (m * 2 ^ k) = Zdigits2 m + k.
Proof.
  intros Hm Hk.
  pose proof (Zdigits2_bounds m Hm) as [L U].
  pose proof (Zdigits2_pos m Hm) as P.
  assert (P2 : 0 < 2 ^ k) by (apply Z.pow_pos_nonneg; lia).
  apply Zdigits2_unique; [lia|]. split.
  - replace (Zdigits2 m + k - 1) with (Zdigits2 m - 1 + k) by lia.
    rewrite Z.pow_add_r by lia. apply Z.mul_le_mono_nonneg_r; lia.
  - rewrite Z.pow_add_r by lia. apply Z.mul_lt_mono_pos_r; lia.
Qed.

(** *** Exact operations *)

Lemma SFmul_1_r (x : spec_float) :
  valid_binary x = true ->
  SFmul prec emax x (Prim2SF 1) = x.
Proof.
  change (Prim2SF 1) with (S754_finite false 4503599627370496 (-52)).
  destruct x as [s|s| |s m e]; intros V; cbn [SFmul].
  - destruct s; reflexivity.
  - destruct s; reflexivity.
  - reflexivity.
  - destruct (valid_finite s m e V) as [C B].
    rewrite xorb_false_r.
    pose proof (binary_round_aux_spec s (Zpos (m * 4503599627370496)) (e + -52)
                  loc_Exact ltac:(lia)) as S. cbn zeta in S.
    rewrite Pos2Z.inj_mul in S.
    change (Zpos 4503599627370496) with (2 ^ 52) in S.
    rewrite Zdigits2_mul_pow in S by lia.
    replace (Zdigits2 (Zpos m) + 52 + (e + -52)) with (Zdigits2 (Zpos m) + e) in S by lia.
    rewrite C in S.
    replace (e - (e + -52)) with 52 in S by lia.
    cbn [Z.ltb Z.compare] in S.
    rewrite Z.div_mul, Z.mod_mul in S by lia.
    replace (e + -52 + 52) with e in S by lia.
    destruct S as (mr & [Hr|[_ Hr]] & E).
    + rewrite Pos2Z.inj_mul. change (Zpos 4503599627370496) with (2 ^ 52).
      rewrite E, Hr. apply finish_canonical; assumption.
    + exfalso. apply Hr. auto.
Qed.


(** *** What rounding returns *)

Lemma build_cases (s : bool) (m e : Z) :
  0 <= m ->
  (m = 0 /\ build s m e = S754_zero s) \/
  (exists p, m = Zpos p /\
     ((e <= 971 /\ build s m e = S754_finite s p e) \/
      (971 < e /\ build s m e = S754_infinity s))).
Proof.
  intros Hm. destruct m as [|p|p]; try lia; [left; auto|right].
  exists p. split; [reflexivity|]. cbn [build].
  change (emax - prec) with 971.
  destruct (Z.leb_spec e 971); [left|right]; auto.
Qed.

Lemma finish_cases (s : bool) (m e : Z) :
  0 <= m ->
  exists m' e',
    finish s m e = build s m' e' /\ 0 <= m' /\
    ((SpecFloat.fexp prec emax (Zdigits2 m + e) <= e /\ m' = m /\ e' = e) \/
     (e < SpecFloat.fexp prec emax (Zdigits2 m + e) /\
      m' = m / 2 ^ (SpecFloat.fexp prec emax (Zdigits2 m + e) - e) /\
      e' = SpecFloat.fexp prec emax (Zdigits2 m + e))).
Proof.
  intros Hm. unfold finish.
  destruct (Z.ltb_spec 0 (SpecFloat.fexp prec emax (Zdigits2 m + e) - e)) as [H|H].
  - exists (m / 2 ^ (SpecFloat.fexp prec emax (Zdigits2 m + e) - e)), (e + (SpecFloat.fexp prec emax (Zdigits2 m + e) - e)).
    split; [reflexivity|]. split.
    + apply Z.div_pos; [lia|apply Z.pow_pos_nonneg; lia].
    + right. split; [lia|]. split; [reflexivity|lia].
  - exists m, e. split; [reflexivity|]. split; [exact Hm|]. left. lia.
Qed.

(** The result of rounding a non-negative mantissa is a zero, a finite
    number or an infinity of the given sign: never NaN. *)
Lemma binary_round_aux_sign (s : bool) (mx ex : Z) (lx : location) :
  0 <= mx ->
  let r := binary_round_aux prec emax s mx ex lx in
  r = S754_zero s \/ r = S754_infinity s \/ exists p e, r = S754_finite s p e.
Proof.
  intros Hm r. unfold r.
  destruct (binary_round_aux_spec s mx ex lx Hm) as (mr & Hr & E).
  cbn zeta in Hr, E. rewrite E.
  set (e1 := if 0 <? SpecFloat.fexp prec emax (Zdigits2 mx + ex) - ex
             then ex + (SpecFloat.fexp prec emax (Zdigits2 mx + ex) - ex) else ex) in *.
  assert (Hmr : 0 <= mr).
  { assert (0 <= (if 0 <? SpecFloat.fexp prec emax (Zdigits2 mx + ex) - ex
                  then mx / 2 ^ (SpecFloat.fexp prec emax (Zdigits2 mx + ex) - ex) else mx)).
    { destruct (Z.ltb_spec 0 (SpecFloat.fexp prec emax (Zdigits2 mx + ex) - ex));
        [apply Z.div_pos; [lia|apply Z.pow_pos_nonneg; lia]|lia]. }
    destruct Hr as [->|[-> _]]; lia. }
  destruct (finish_cases s mr e1 Hmr) as (m' & e' & F & Hm' & _). rewrite F.
  destruct (build_cases s m' e' Hm') as [[_ B]|(p & _ & [[_ B]|[_ B]])]; rewrite B; eauto.
Qed.

Lemma fexp_le (a b : Z) : a <= b -> SpecFloat.fexp prec emax a <= SpecFloat.fexp prec emax b.
Proof. rewrite !fexp_eq. lia. Qed.

Lemma fexp_succ (a : Z) : SpecFloat.fexp prec emax (a + 1) <= SpecFloat.fexp prec emax a + 1.
Proof. rewrite !fexp_eq. lia. Qed.

Lemma Zdigits2_succ_le (m : Z) : 0 <= m -> Zdigits2 (m + 1) <= Zdigits2 m + 1.
Proof.
  intros Hm. destruct (Z.eq_dec m 0) as [->|Hz]; [cbn; lia|].
  pose proof (Zdigits2_bounds m ltac:(lia)) as [_ U].
  pose proof (Zdigits2_pos m ltac:(lia)) as P.
  apply Zdigits2_lt_pow; [lia|]. rewrite Z.pow_add_r, Z.pow_1_r by lia. lia.
Qed.


Lemma finish_nonzero (s : bool) (m1 mr e1 : Z) :
  1 <= m1 -> SpecFloat.fexp prec emax (Zdigits2 m1 + e1) <= e1 -> mr = m1 \/ mr = m1 + 1 ->
  nonzero_number s (finish s mr e1).
Proof.
  intros H1 Hc Hr.
  assert (Hmr : 0 <= mr) by lia.
  destruct (finish_cases s mr e1 Hmr) as (m' & e' & F & Hm' & C). rewrite F.
  assert (P : 1 <= m').
  { destruct C as [(_ & -> & _)|(Hk & -> & _)]; [lia|].
    assert (Hd : Zdigits2 mr <= Zdigits2 m1 + 1).
    { destruct Hr as [->| ->]; [lia | apply Zdigits2_succ_le; lia]. }
    pose proof (fexp_le (Zdigits2 mr + e1) (Zdigits2 m1 + 1 + e1) ltac:(lia)) as M.
    pose proof (fexp_succ (Zdigits2 m1 + e1)) as S.
    replace (Zdigits2 m1 + e1 + 1) with (Zdigits2 m1 + 1 + e1) in S by lia.
    assert (K : SpecFloat.fexp prec emax (Zdigits2 mr + e1) - e1 = 1) by lia.
    rewrite K, Z.pow_1_r.
    assert (mr = m1 + 1).
    { destruct Hr as [->|Hr]; [lia | exact Hr]. }
    apply Z.div_le_lower_bound; lia. }
  destruct (build_cases s m' e' Hm') as [[Z0 _]|(p & _ & [[_ B]|[_ B]])];
    [lia| |]; rewrite B; unfold nonzero_number; eauto.
Qed.

Lemma binary_round_aux_nonzero (s : bool) (mx ex : Z) (lx : location) :
  0 < mx ->
  (let k := SpecFloat.fexp prec emax (Zdigits2 mx + ex) - ex in k <= 0 \/ 2 ^ k <= mx) ->
  nonzero_number s (binary_round_aux prec emax s mx ex lx).
Proof.
  intros Hm Hk. cbn zeta in Hk.
  destruct (binary_round_aux_spec s mx ex lx ltac:(lia)) as (mr & Hr & E).
  cbn zeta in Hr, E. rewrite E. clear E.
  set (k := SpecFloat.fexp prec emax (Zdigits2 mx + ex) - ex) in *.
  destruct (Z.ltb_spec 0 k) as [H|H].
  - destruct Hk as [Hk|Hk]; [lia|].
    assert (Hlt : k < Zdigits2 mx).
    { pose proof (Zdigits2_bounds mx Hm) as [_ U].
      destruct (Z_lt_ge_dec k (Zdigits2 mx)) as [L|L]; [exact L|].
      exfalso. assert (2 ^ Zdigits2 mx <= 2 ^ k) by (apply Z.pow_le_mono_r; lia). lia. }
    apply (finish_nonzero s (mx / 2 ^ k)).
    + apply Z.div_le_lower_bound; [apply Z.pow_pos_nonneg; lia | lia].
    + rewrite Zdigits2_div_pow by lia.
      replace (Zdigits2 mx - k + (ex + k)) with (Zdigits2 mx + ex) by lia.
      unfold k. lia.
    + destruct Hr as [Hr|[Hr _]]; auto.
  - apply (finish_nonzero s mx); [lia | unfold k in H; lia |].
    destruct Hr as [Hr|[Hr _]]; auto.
Qed.

(** *** Products, differences and quotients that are not zero *)

Lemma canonical_exponent (m : positive) (e : Z) :
  SpecFloat.fexp prec emax (Zdigits2 (Zpos m) + e) = e ->
  -1074 <= e /\ Zdigits2 (Zpos m) <= 53 /\
  (Zdigits2 (Zpos m) = 53 \/ e = -1074).
Proof. rewrite fexp_eq. lia. Qed.

(** A number of magnitude at least 1 times a finite number other than
    zero is not zero: the product cannot underflow. *)
Lemma SFmul_nonzero (sx sy : bool) (mx my : positive) (ex ey : Z) :
  SpecFloat.fexp prec emax (Zdigits2 (Zpos my) + ey) = ey ->
  (0 <= ex \/ 2 ^ (- ex) <= Zpos mx) ->
  nonzero_number (xorb sx sy)
    (SFmul prec emax (S754_finite sx mx ex) (S754_finite sy my ey)).
Proof.
  intros Cy Hx. cbn [SFmul].
  apply binary_round_aux_nonzero; [lia|]. cbn zeta.
  rewrite Pos2Z.inj_mul.
  set (m := Zpos mx * Zpos my).
  assert (Hm : 0 < m) by (unfold m; lia).
  pose proof (Zdigits2_bounds m Hm) as [L U].
  pose proof (Zdigits2_pos m Hm) as P.
  destruct (canonical_exponent my ey Cy) as (Hey & _).
  rewrite fexp_eq.
  destruct (Z_le_gt_dec (Z.max (Zdigits2 m + (ex + ey) - 53) (-1074) - (ex + ey)) 0)
    as [H|H]; [left; exact H|right].
  destruct (Z.max_spec (Zdigits2 m + (ex + ey) - 53) (-1074)) as [[_ E]|[_ E]];
    rewrite E in *.
  - assert (Hk : -1074 - (ex + ey) <= - ex) by lia.
    destruct Hx as [Hx|Hx]; [lia|].
    apply Z.le_trans with (2 ^ (- ex)); [apply Z.pow_le_mono_r; lia|].
    apply Z.le_trans with (Zpos mx); [exact Hx|]. unfold m. nia.
  - apply Z.le_trans with (2 ^ (Zdigits2 m - 1)); [apply Z.pow_le_mono_r; lia | exact L].
Qed.

Lemma shl_align_spec (mx : positive) (ex ez : Z) :
  ez <= ex ->
  Zpos (fst (shl_align mx ex ez)) = Zpos mx * 2 ^ (ex - ez) /\
  snd (shl_align mx ex ez) = ez.
Proof.
  intros H. unfold shl_align.
  destruct (ez - ex) as [|d|d] eqn:E; try lia; cbn [fst snd].
  - replace (ex - ez) with 0 by lia. rewrite Z.pow_0_r. lia.
  - replace (ex - ez) with (Zpos d) by lia.
    change (Pos.iter xO mx d) with (shift_pos d mx).
    rewrite shift_pos_correct. change (Z.pow_pos 2 d) with (2 ^ Zpos d).
    split; [ring|reflexivity].
Qed.

Lemma shl_align_nop (mx : positive) (ex ez : Z) :
  ex <= ez -> shl_align mx ex ez = (mx, ex).
Proof.
  intros H. unfold shl_align. destruct (ez - ex) eqn:E; try lia; reflexivity.
Qed.

(** Rounding a mantissa at an exponent of the format never gives zero. *)
Lemma binary_round_nonzero (s : bool) (m : positive) (e : Z) :
  -1074 <= e -> nonzero_number s (binary_round prec emax s m e).
Proof.
  intros He. unfold binary_round.
  change (Zpos (digits2_pos m)) with (Zdigits2 (Zpos m)).
  set (f := SpecFloat.fexp prec emax (Zdigits2 (Zpos m) + e)).
  destruct (Z_le_gt_dec e f) as [H|H].
  - rewrite shl_align_nop by exact H.
    apply binary_round_aux_nonzero; [lia|]. cbn zeta. fold f.
    pose proof (Zdigits2_bounds (Zpos m) ltac:(lia)) as [L U].
    pose proof (Zdigits2_pos (Zpos m) ltac:(lia)) as P.
    unfold f. rewrite fexp_eq.
    destruct (Z.max_spec (Zdigits2 (Zpos m) + e - 53) (-1074)) as [[_ E]|[_ E]];
      rewrite E.
    + left. lia.
    + destruct (Z_le_gt_dec (Zdigits2 (Zpos m) + e - 53 - e) 0); [left; lia|right].
      apply Z.le_trans with (2 ^ (Zdigits2 (Zpos m) - 1));
        [apply Z.pow_le_mono_r; lia | exact L].
  - destruct (shl_align_spec m e f ltac:(lia)) as [E1 E2].
    destruct (shl_align m e f) as [mz ez]. cbn [fst snd] in E1, E2. subst ez.
    apply binary_round_aux_nonzero; [lia|]. cbn zeta. left.
    rewrite E1, Zdigits2_mul_pow by lia.
    replace (Zdigits2 (Zpos m) + (e - f) + f) with (Zdigits2 (Zpos m) + e) by lia.
    fold f. lia.
Qed.

Lemma binary_normalize_nonzero (z e : Z) :
  z <> 0 -> -1074 <= e ->
  nonzero_number (z <? 0) (binary_normalize prec emax z e false).
Proof.
  intros Hz He. destruct z as [|p|p]; [lia| |]; cbn [binary_normalize Z.ltb Z.compare];
    apply binary_round_nonzero; exact He.
Qed.

(** Two numbers of the format with the same value are the same. *)
Lemma canonical_unique (mx my : positive) (ex ey : Z) :
  SpecFloat.fexp prec emax (Zdigits2 (Zpos mx) + ex) = ex ->
  SpecFloat.fexp prec emax (Zdigits2 (Zpos my) + ey) = ey ->
  Zpos mx * 2 ^ (ex - Z.min ex ey) = Zpos my * 2 ^ (ey - Z.min ex ey) ->
  mx = my /\ ex = ey.
Proof.
  intros Cx Cy H.
  assert (K : forall m1 m2 e1 e2,
             SpecFloat.fexp prec emax (Zdigits2 (Zpos m1) + e1) = e1 ->
             SpecFloat.fexp prec emax (Zdigits2 (Zpos m2) + e2) = e2 ->
             e1 <= e2 -> Zpos m1 = Zpos m2 * 2 ^ (e2 - e1) ->
             m1 = m2 /\ e1 = e2).
  { intros m1 m2 e1 e2 C1 C2 L E.
    assert (D : Zdigits2 (Zpos m1) = Zdigits2 (Zpos m2) + (e2 - e1))
      by (rewrite E; apply Zdigits2_mul_pow; lia).
    assert (Ee : e1 = e2).
    { rewrite <- C1, <- C2. f_equal. lia. }
    subst e2. rewrite Z.sub_diag, Z.pow_0_r in E. split; [lia|reflexivity]. }
  destruct (Z.min_spec ex ey) as [[L E]|[L E]]; rewrite E in H.
  - rewrite Z.sub_diag, Z.pow_0_r, Z.mul_1_r in H.
    apply (K mx my ex ey Cx Cy); [lia | exact H].
  - rewrite Z.sub_diag, Z.pow_0_r, Z.mul_1_r in H.
    destruct (K my mx ey ex Cy Cx ltac:(lia) (eq_sym H)) as [-> ->]. auto.
Qed.

(** The difference of two different finite numbers is not zero: thanks to
    subnormal numbers a subtraction never underflows to zero. *)
Lemma SFsub_nonzero (sx sy : bool) (mx my : positive) (ex ey : Z) :
  SpecFloat.fexp prec emax (Zdigits2 (Zpos mx) + ex) = ex ->
  SpecFloat.fexp prec emax (Zdigits2 (Zpos my) + ey) = ey ->
  S754_finite sx mx ex <> S754_finite sy my ey ->
  exists s, nonzero_number s
    (SFsub prec emax (S754_finite sx mx ex) (S754_finite sy my ey)).
Proof.
  intros Cx Cy Hne. cbn [SFsub].
  destruct (canonical_exponent mx ex Cx) as (Hex & _).
  destruct (canonical_exponent my ey Cy) as (Hey & _).
  set (ez := Z.min ex ey).
  destruct (shl_align_spec mx ex ez ltac:(unfold ez; lia)) as [Ex _].
  destruct (shl_align_spec my ey ez ltac:(unfold ez; lia)) as [Ey _].
  rewrite Ex, Ey.
  set (z := cond_Zopp sx (Zpos mx * 2 ^ (ex - ez))
            - cond_Zopp sy (Zpos my * 2 ^ (ey - ez))).
  exists (z <? 0). apply binary_normalize_nonzero; [|unfold ez; lia].
  assert (Px : 0 < Zpos mx * 2 ^ (ex - ez)).
  { apply Z.mul_pos_pos; [lia|apply Z.pow_pos_nonneg; unfold ez; lia]. }
  assert (Py : 0 < Zpos my * 2 ^ (ey - ez)).
  { apply Z.mul_pos_pos; [lia|apply Z.pow_pos_nonneg; unfold ez; lia]. }
  intros Z0. apply Hne. unfold z in Z0.
  destruct sx, sy; cbn [cond_Zopp] in Z0; try lia.
  - destruct (canonical_unique mx my ex ey Cx Cy) as [-> ->]; [fold ez; lia|reflexivity].
  - destruct (canonical_unique mx my ex ey Cx Cy) as [-> ->]; [fold ez; lia|reflexivity].
Qed.

(** A finite number minus itself is +0. *)
Lemma SFsub_diag_finite (s : bool) (m : positive) (e : Z) :
  SFsub prec emax (S754_finite s m e) (S754_finite s m e) = S754_zero false.
Proof.
  cbn [SFsub]. rewrite Z.sub_diag. reflexivity.
Qed.

(** *** Quotients *)

Lemma new_location_exact (nb k : Z) :
  new_location nb k = loc_Exact <-> k = 0.
Proof.
  unfold new_location, new_location_even, new_location_odd.
  destruct (Z.even nb); destruct (Z.eqb_spec k 0) as [E|E]; split;
    intros H; try reflexivity; try assumption; try discriminate; contradiction.
Qed.

Lemma SFdiv_core_spec (m1 m2 : positive) (e1 e2 : Z) :
  let D := Zdigits2 (Zpos m1) + e1 - (Zdigits2 (Zpos m2) + e2) in
  let e' := Z.min (SpecFloat.fexp prec emax D) (e1 - e2) in
  let n := Zpos m1 * 2 ^ (e1 - e2 - e') in
  SFdiv_core_binary prec emax (Zpos m1) e1 (Zpos m2) e2
  = (n / Zpos m2, e', new_location (Zpos m2) (n mod Zpos m2)).
Proof.
  intros D e' n. unfold SFdiv_core_binary. fold D. fold e'.
  assert (Hs : 0 <= e1 - e2 - e') by (unfold e'; lia).
  assert (En : match e1 - e2 - e' with
               | Zpos _ => Z.shiftl (Zpos m1) (e1 - e2 - e')
               | Z0 => Zpos m1
               | Zneg _ => 0
               end = n).
  { unfold n. destruct (e1 - e2 - e') as [|p|p] eqn:E; try lia.
    apply Z.shiftl_mul_pow2. lia. }
  rewrite En. unfold Z.div, Z.modulo.
  destruct (Z.div_eucl n (Zpos m2)) as [q r]. reflexivity.
Qed.

(** A finite number other than zero divided by itself is 1. *)
Lemma SFdiv_diag_finite (s : bool) (m : positive) (e : Z) :
  SFdiv prec emax (S754_finite s m e) (S754_finite s m e) = Prim2SF 1.
Proof.
  cbn [SFdiv]. rewrite SFdiv_core_spec.
  replace (Zdigits2 (Zpos m) + e - (Zdigits2 (Zpos m) + e)) with 0 by lia.
  rewrite Z.sub_diag. change (Z.min (SpecFloat.fexp prec emax 0) 0) with (-53).
  change (0 - -53) with 53.
  replace (Zpos m * 2 ^ 53) with (2 ^ 53 * Zpos m) by ring.
  rewrite Z.div_mul, Z.mod_mul by lia.
  rewrite (proj2 (new_location_exact (Zpos m) 0) eq_refl).
  destruct s; reflexivity.
Qed.

(** The quotient of two positive finite numbers, the first one smaller,
    is +0 or a finite number below 1 (its exponent is at most -53, that
    of the numbers of [[1/2, 1)]). *)
Lemma SFdiv_lt_1 (s : bool) (m1 m2 : positive) (e1 e2 : Z) (l : location) :
  SpecFloat.fexp prec emax (Zdigits2 (Zpos m1) + e1) = e1 ->
  SpecFloat.fexp prec emax (Zdigits2 (Zpos m2) + e2) = e2 ->
  e1 < e2 \/ (e1 = e2 /\ Zpos m1 < Zpos m2) ->
  let D := Zdigits2 (Zpos m1) + e1 - (Zdigits2 (Zpos m2) + e2) in
  let e' := Z.min (SpecFloat.fexp prec emax D) (e1 - e2) in
  let n := Zpos m1 * 2 ^ (e1 - e2 - e') in
  (l = loc_Exact <-> n mod Zpos m2 = 0) ->
  let r := binary_round_aux prec emax s (n / Zpos m2) e' l in
  r = S754_zero s \/ exists p e, r = S754_finite s p e /\ e <= -53.
Proof.
  intros C1 C2 Hlt D e' n Hl r.
  destruct (canonical_exponent m1 e1 C1) as (He1 & Hd1 & N1).
  destruct (canonical_exponent m2 e2 C2) as (He2 & Hd2 & N2).
  pose proof (Zdigits2_bounds (Zpos m1) ltac:(lia)) as [L1 U1].
  pose proof (Zdigits2_bounds (Zpos m2) ltac:(lia)) as [L2 U2].
  pose proof (Zdigits2_pos (Zpos m1) ltac:(lia)) as P1.
  pose proof (Zdigits2_pos (Zpos m2) ltac:(lia)) as P2.
  set (d1 := Zdigits2 (Zpos m1)) in *. set (d2 := Zdigits2 (Zpos m2)) in *.
  assert (B1 : Zpos m1 <= 2 ^ 53 - 1).
  { assert (2 ^ d1 <= 2 ^ 53) by (apply Z.pow_le_mono_r; lia). lia. }
  assert (B2 : Zpos m2 <= 2 ^ 53 - 1).
  { assert (2 ^ d2 <= 2 ^ 53) by (apply Z.pow_le_mono_r; lia). lia. }
  (* the magnitude of the quotient *)
  assert (HD : D <= 0).
  { unfold D. destruct Hlt as [H|[H H']]; [lia|].
    assert (d1 <= d2) by (apply Zdigits2_le; lia). lia. }
  assert (He' : e' <= -53).
  { unfold e'. rewrite fexp_eq. lia. }
  assert (Hs : 0 <= e1 - e2 - e') by (unfold e'; lia).
  set (E := - e' - 53). assert (HE : 0 <= E) by (unfold E; lia).
  set (P := 2 ^ E). assert (HP : 1 <= P) by (unfold P; pose proof (Z.pow_pos_nonneg 2 E); lia).
  (* the exact quotient is at most [1 - 2^-53] *)
  assert (KI : n <= Zpos m2 * ((2 ^ 53 - 1) * P)).
  { unfold n. destruct Hlt as [H|[H H']].
    - assert (Ed : d2 = 53) by lia.
      assert (M2 : 2 ^ 52 <= Zpos m2) by (rewrite Ed in L2; exact L2).
      set (t := e2 - e1). assert (Ht : 1 <= t) by (unfold t; lia).
      assert (Es : E + 53 = (e1 - e2 - e') + t) by (unfold E, t; lia).
      assert (T : 2 <= 2 ^ t).
      { change 2 with (2 ^ 1) at 1. apply Z.pow_le_mono_r; lia. }
      assert (X : 2 ^ 53 * P = 2 ^ (e1 - e2 - e') * 2 ^ t).
      { unfold P. rewrite <- !Z.pow_add_r by lia. f_equal. lia. }
      set (S := 2 ^ (e1 - e2 - e')) in *.
      assert (PS : 0 < S) by (apply Z.pow_pos_nonneg; lia).
      (* m1 * S * 2^53 <= m2 * (2^53 - 1) * (2^53 * P) *)
      apply Z.mul_le_mono_pos_r with (p := 2 ^ 53); [lia|].
      replace (Zpos m2 * ((2 ^ 53 - 1) * P) * 2 ^ 53)
        with (Zpos m2 * (2 ^ 53 - 1) * (2 ^ 53 * P)) by ring.
      rewrite X.
      replace (Zpos m1 * S * 2 ^ 53) with ((Zpos m1 * 2 ^ 53) * S) by ring.
      replace (Zpos m2 * (2 ^ 53 - 1) * (S * 2 ^ t))
        with ((Zpos m2 * (2 ^ 53 - 1) * 2 ^ t) * S) by ring.
      apply Z.mul_le_mono_nonneg_r; [lia|].
      assert (Zpos m1 * 2 ^ 53 <= (2 ^ 53 - 1) * 2 ^ 53) by nia.
      assert ((2 ^ 53 - 1) * 2 ^ 53 <= Zpos m2 * (2 ^ 53 - 1) * 2) by nia.
      assert (Zpos m2 * (2 ^ 53 - 1) * 2 <= Zpos m2 * (2 ^ 53 - 1) * 2 ^ t) by nia.
      lia.
    - subst e2. replace (e1 - e1 - e') with (E + 53) by (unfold E; lia).
      rewrite Z.pow_add_r by lia. fold P.
      assert (Zpos m1 * 2 ^ 53 <= Zpos m2 * (2 ^ 53 - 1)) by nia.
      replace (Zpos m1 * (P * 2 ^ 53)) with ((Zpos m1 * 2 ^ 53) * P) by ring.
      replace (Zpos m2 * ((2 ^ 53 - 1) * P)) with ((Zpos m2 * (2 ^ 53 - 1)) * P) by ring.
      apply Z.mul_le_mono_nonneg_r; lia. }
  assert (Hn : 0 <= n).
  { unfold n. apply Z.mul_nonneg_nonneg; [lia|apply Z.pow_nonneg; lia]. }
  set (q := n / Zpos m2) in *.
  assert (Hq0 : 0 <= q) by (apply Z.div_pos; lia).
  assert (Hqn : Zpos m2 * q <= n) by (apply Z.mul_div_le; lia).
  assert (Hq : q <= (2 ^ 53 - 1) * P).
  { apply Z.mul_le_mono_pos_l with (p := Zpos m2); lia. }
  assert (Hqx : q = (2 ^ 53 - 1) * P -> l = loc_Exact).
  { intros Eq. apply Hl. rewrite Z.mod_eq by lia. fold q. rewrite Eq in *. lia. }
  (* the two steps of the rounding *)
  destruct (binary_round_aux_spec s q e' l Hq0) as (mr & Hr & Er).
  cbn zeta in Hr, Er. unfold r. rewrite Er. clear Er.
  set (k := SpecFloat.fexp prec emax (Zdigits2 q + e') - e') in *.
  assert (Hdq : Zdigits2 q + e' <= 0).
  { assert (Zdigits2 q <= E + 53); [|unfold E in *; lia].
    apply Zdigits2_lt_pow; [lia|]. rewrite Z.pow_add_r by lia. fold P. nia. }
  assert (Hf : SpecFloat.fexp prec emax (Zdigits2 q + e') <= -53) by (rewrite fexp_eq; lia).
  set (e1' := if 0 <? k then e' + k else e') in *.
  set (m1' := if 0 <? k then q / 2 ^ k else q) in *.
  assert (He1' : e' <= e1' <= -53 /\ -1074 <= e1' \/ e' <= e1' <= -53).
  { right. unfold e1'. destruct (Z.ltb_spec 0 k); unfold k in *; lia. }
  assert (He1'' : e' <= e1' <= -53) by (destruct He1' as [[? _]|?]; assumption).
  clear He1'.
  set (E1 := - e1' - 53). assert (HE1 : 0 <= E1) by (unfold E1; lia).
  set (Q1 := 2 ^ E1).
  assert (HQ1 : 1 <= Q1) by (unfold Q1; pose proof (Z.pow_pos_nonneg 2 E1); lia).
  assert (Hm1 : 0 <= m1' <= (2 ^ 53 - 1) * Q1 /\
                (m1' = (2 ^ 53 - 1) * Q1 ->
                 (if 0 <? k then q mod 2 ^ k = 0 else True) /\ l = loc_Exact)).
  { unfold m1', e1' in *. destruct (Z.ltb_spec 0 k) as [Hk|Hk].
    - assert (Pk : 0 < 2 ^ k) by (apply Z.pow_pos_nonneg; lia).
      assert (EP : P = Q1 * 2 ^ k).
      { unfold P, Q1. rewrite <- Z.pow_add_r by lia. f_equal. unfold E, E1. lia. }
      assert (Hdiv : 2 ^ k * (q / 2 ^ k) <= q) by (apply Z.mul_div_le; lia).
      assert (Hup : q / 2 ^ k <= (2 ^ 53 - 1) * Q1).
      { apply Z.div_le_upper_bound; [lia|]. rewrite EP in Hq. lia. }
      split; [split; [apply Z.div_pos; lia | exact Hup]|].
      intros Em. rewrite Em in Hdiv.
      assert (Eq : q = (2 ^ 53 - 1) * P) by (rewrite EP in *; lia).
      split; [|apply Hqx; exact Eq].
      rewrite Eq, EP.
      replace ((2 ^ 53 - 1) * (Q1 * 2 ^ k)) with (((2 ^ 53 - 1) * Q1) * 2 ^ k) by ring.
      apply Z.mod_mul. lia.
    - replace Q1 with P by (unfold P, Q1, E, E1; reflexivity).
      split; [lia|]. intros Em. split; [exact I | apply Hqx; exact Em]. }
  destruct Hm1 as [[Hm0 Hm1] Hmx].
  assert (Hmr : 0 <= mr < 2 ^ 53 * Q1).
  { destruct Hr as [->|[-> Hne]]; [lia|].
    assert (m1' <> (2 ^ 53 - 1) * Q1) by (intros Em; apply Hne, Hmx, Em).
    lia. }
  assert (Hdr : Zdigits2 mr + e1' <= 0).
  { assert (Zdigits2 mr <= 53 + E1); [|unfold E1 in *; lia].
    apply Zdigits2_lt_pow; [lia|]. rewrite Z.pow_add_r by lia. fold Q1. lia. }
  destruct (finish_cases s mr e1' ltac:(lia)) as (m' & e'' & F & Hm' & C).
  rewrite F.
  assert (He'' : e'' <= -53).
  { destruct C as [(_ & _ & ->)|(_ & _ & ->)]; [lia|]. rewrite fexp_eq. lia. }
  destruct (build_cases s m' e'' Hm') as [[_ B]|(p & _ & [[_ B]|[X _]])].
  - left. exact B.
  - right. exists p, e''. split; [exact B | exact He''].
  - lia.
Qed.


(** *** Magnitudes

    The magnitude of a finite number [m * 2^e] other than zero is
    [digits m + e]: the number lies in [[2^(mag-1), 2^mag)]. *)

Lemma finish_magnitude (s s' : bool) (mr e1 : Z) (p : positive) (e : Z) :
  0 <= mr -> finish s mr e1 = S754_finite s' p e ->
  Zdigits2 (Zpos p) + e = Zdigits2 mr + e1.
Proof.
  intros Hmr F.
  destruct (finish_cases s mr e1 Hmr) as (m' & e' & F' & Hm' & C).
  rewrite F' in F.
  destruct (build_cases s m' e' Hm') as [[_ B]|(q & Eq & [[_ B]|[_ B]])];
    rewrite B in F; try discriminate.
  injection F as _ Hp He. subst p e.
  destruct C as [(_ & E1 & E2)|(Hk & E1 & E2)].
  - rewrite <- Eq, E1, E2. reflexivity.
  - set (k := SpecFloat.fexp prec emax (Zdigits2 mr + e1) - e1) in *.
    assert (Hk0 : 0 < k) by (unfold k; lia).
    assert (Hp : 0 < mr).
    { destruct (Z.eq_dec mr 0) as [->|]; [|lia]. rewrite Z.div_0_l in E1; lia. }
    assert (Hlt : k < Zdigits2 mr).
    { destruct (Z_lt_ge_dec k (Zdigits2 mr)) as [L|L]; [exact L|exfalso].
      pose proof (Zdigits2_bounds mr Hp) as [_ U].
      assert (2 ^ Zdigits2 mr <= 2 ^ k) by (apply Z.pow_le_mono_r; lia).
      rewrite Z.div_small in E1 by lia. lia. }
    rewrite <- Eq, E1, Zdigits2_div_pow by lia. rewrite E2. unfold k. lia.
Qed.

(** Rounding adds at most one to the magnitude, and a result below the
    normal range has magnitude at most -1073. *)
Lemma binary_round_aux_magnitude_le (s s' : bool) (mx ex : Z) (lx : location)
    (p : positive) (e : Z) :
  0 <= mx ->
  binary_round_aux prec emax s mx ex lx = S754_finite s' p e ->
  Zdigits2 (Zpos p) + e <= Z.max (Zdigits2 mx + ex + 1) (-1073).
Proof.
  intros Hm R.
  destruct (binary_round_aux_spec s mx ex lx Hm) as (mr & Hr & E).
  cbn zeta in Hr, E. rewrite E in R. clear E.
  set (k := SpecFloat.fexp prec emax (Zdigits2 mx + ex) - ex) in *.
  pose proof (Zdigits2_nonneg mx) as Dn.
  destruct (Z.ltb_spec 0 k) as [H|H].
  - assert (H0 : 0 <= mx / 2 ^ k) by (apply Z.div_pos; [lia|apply Z.pow_pos_nonneg; lia]).
    assert (Hmr : 0 <= mr) by (destruct Hr as [->|[-> _]]; lia).
    rewrite (finish_magnitude s s' mr (ex + k) p e Hmr R).
    assert (Hd : Zdigits2 mr <= Zdigits2 (mx / 2 ^ k) + 1).
    { destruct Hr as [->|[-> _]]; [lia | apply Zdigits2_succ_le; lia]. }
    destruct (Z_lt_ge_dec k (Zdigits2 mx)) as [L|L].
    + assert (0 < mx).
      { destruct (Z.eq_dec mx 0) as [->|]; [cbn in L; lia|lia]. }
      rewrite Zdigits2_div_pow in Hd by lia. lia.
    + assert (Ez : mx / 2 ^ k = 0).
      { destruct (Z.eq_dec mx 0) as [->|]; [apply Z.div_0_l; lia|].
        pose proof (Zdigits2_bounds mx ltac:(lia)) as [_ U].
        assert (2 ^ Zdigits2 mx <= 2 ^ k) by (apply Z.pow_le_mono_r; lia).
        apply Z.div_small; lia. }
      rewrite Ez in Hd. change (Zdigits2 0) with 0 in Hd.
      unfold k in *. rewrite fexp_eq in *. lia.
  - assert (Hmr : 0 <= mr) by (destruct Hr as [->|[-> _]]; lia).
    rewrite (finish_magnitude s s' mr ex p e Hmr R).
    assert (Hd : Zdigits2 mr <= Zdigits2 mx + 1).
    { destruct Hr as [->|[-> _]]; [lia | apply Zdigits2_succ_le; lia]. }
    lia.
Qed.

(** Rounding does not lower the magnitude of a number that is at least
    [2^-1074]. *)
Lemma binary_round_aux_magnitude (s : bool) (mx ex : Z) (lx : location) :
  0 < mx -> -1073 <= Zdigits2 mx + ex ->
  let r := binary_round_aux prec emax s mx ex lx in
  r = S754_infinity s \/
  exists p e, r = S754_finite s p e /\ Zdigits2 mx + ex <= Zdigits2 (Zpos p) + e.
Proof.
  intros Hm HM r. unfold r.
  assert (N : nonzero_number s (binary_round_aux prec emax s mx ex lx)).
  { apply binary_round_aux_nonzero; [exact Hm|]. cbn zeta.
    pose proof (Zdigits2_bounds mx Hm) as [L U].
    pose proof (Zdigits2_pos mx Hm) as P.
    rewrite fexp_eq.
    destruct (Z_le_gt_dec (Z.max (Zdigits2 mx + ex - 53) (-1074) - ex) 0);
      [left; assumption|right].
    apply Z.le_trans with (2 ^ (Zdigits2 mx - 1)); [apply Z.pow_le_mono_r; lia | exact L]. }
  destruct N as [N|(p & e & N)]; [left; exact N|right].
  exists p, e. split; [exact N|].
  destruct (binary_round_aux_spec s mx ex lx ltac:(lia)) as (mr & Hr & E).
  cbn zeta in Hr, E. rewrite E in N. clear E.
  set (k := SpecFloat.fexp prec emax (Zdigits2 mx + ex) - ex) in *.
  pose proof (Zdigits2_pos mx Hm) as P.
  destruct (Z.ltb_spec 0 k) as [H|H].
  - assert (Hlt : k < Zdigits2 mx) by (unfold k in *; rewrite fexp_eq in *; lia).
    assert (H0 : 0 <= mx / 2 ^ k) by (apply Z.div_pos; [lia|apply Z.pow_pos_nonneg; lia]).
    assert (Hmr : 0 <= mr) by (destruct Hr as [->|[-> _]]; lia).
    rewrite (finish_magnitude s s mr (ex + k) p e Hmr N).
    assert (Hd : Zdigits2 (mx / 2 ^ k) <= Zdigits2 mr).
    { apply Zdigits2_le; [lia|]. destruct Hr as [->|[-> _]]; lia. }
    rewrite Zdigits2_div_pow in Hd by lia. lia.
  - assert (Hmr : 0 <= mr) by (destruct Hr as [->|[-> _]]; lia).
    rewrite (finish_magnitude s s mr ex p e Hmr N).
    assert (Hd : Zdigits2 mx <= Zdigits2 mr).
    { apply Zdigits2_le; [lia|]. destruct Hr as [->|[-> _]]; lia. }
    lia.
Qed.

Lemma Zdigits2_ge_pow (v k : Z) : 0 <= k -> 2 ^ k <= v -> k + 1 <= Zdigits2 v.
Proof.
  intros Hk Hv.
  assert (Pv : 0 < v) by (pose proof (Z.pow_pos_nonneg 2 k); lia).
  pose proof (Zdigits2_bounds v Pv) as [_ U].
  pose proof (Zdigits2_pos v Pv) as P.
  destruct (Z_lt_ge_dec k (Zdigits2 v)) as [L|L]; [lia|exfalso].
  assert (2 ^ Zdigits2 v <= 2 ^ k) by (apply Z.pow_le_mono_r; lia). lia.
Qed.

Lemma shl_align_magnitude (m : positive) (e f : Z) :
  Zdigits2 (Zpos (fst (shl_align m e f))) + snd (shl_align m e f)
  = Zdigits2 (Zpos m) + e.
Proof.
  destruct (Z_le_gt_dec f e) as [H|H].
  - destruct (shl_align_spec m e f H) as [E1 E2].
    rewrite E1, E2, Zdigits2_mul_pow by lia. lia.
  - rewrite shl_align_nop by lia. reflexivity.
Qed.

Lemma binary_round_magnitude_le (s s' : bool) (m : positive) (e : Z)
    (p : positive) (e' : Z) :
  binary_round prec emax s m e = S754_finite s' p e' ->
  Zdigits2 (Zpos p) + e' <= Z.max (Zdigits2 (Zpos m) + e + 1) (-1073).
Proof.
  unfold binary_round.
  pose proof (shl_align_magnitude m e
                (SpecFloat.fexp prec emax (Zpos (digits2_pos m) + e))) as M.
  destruct (shl_align m e (SpecFloat.fexp prec emax (Zpos (digits2_pos m) + e)))
    as [mz ez]. cbn [fst snd] in M.
  intros R. apply binary_round_aux_magnitude_le in R; [|lia]. lia.
Qed.

Lemma binary_round_magnitude (s : bool) (m : positive) (e : Z) :
  -1073 <= Zdigits2 (Zpos m) + e ->
  binary_round prec emax s m e = S754_infinity s \/
  exists p e', binary_round prec emax s m e = S754_finite s p e' /\
    Zdigits2 (Zpos m) + e <= Zdigits2 (Zpos p) + e'.
Proof.
  intros HM. unfold binary_round.
  pose proof (shl_align_magnitude m e
                (SpecFloat.fexp prec emax (Zpos (digits2_pos m) + e))) as M.
  destruct (shl_align m e (SpecFloat.fexp prec emax (Zpos (digits2_pos m) + e)))
    as [mz ez]. cbn [fst snd] in M.
  destruct (binary_round_aux_magnitude s (Zpos mz) ez loc_Exact ltac:(lia) ltac:(lia))
    as [R|(p & e' & R & B)]; [left; exact R|right].
  exists p, e'. split; [exact R|lia].
Qed.

(** The magnitude of a number of the format is at least -1073. *)
Lemma canonical_magnitude (m : positive) (e : Z) :
  SpecFloat.fexp prec emax (Zdigits2 (Zpos m) + e) = e ->
  -1073 <= Zdigits2 (Zpos m) + e.
Proof.
  intros C. pose proof (Zdigits2_pos (Zpos m) ltac:(lia)).
  rewrite fexp_eq in C. lia.
Qed.

(** *** The magnitude of a sum, a difference and a quotient *)

Lemma aligned_magnitude (m : positive) (e ez : Z) :
  ez <= e ->
  Zdigits2 (Zpos (fst (shl_align m e ez))) + ez = Zdigits2 (Zpos m) + e.
Proof.
  intros H. destruct (shl_align_spec m e ez H) as [E _].
  rewrite E, Zdigits2_mul_pow by lia. lia.
Qed.

Lemma binary_normalize_magnitude_le (z ez : Z) (s : bool) (p : positive) (e : Z) :
  binary_normalize prec emax z ez false = S754_finite s p e ->
  Zdigits2 (Zpos p) + e <= Z.max (Zdigits2 (Z.abs z) + ez + 1) (-1073).
Proof.
  destruct z as [|q|q]; cbn [binary_normalize Z.abs]; intros R;
    [discriminate| |]; apply binary_round_magnitude_le in R; exact R.
Qed.

Lemma binary_normalize_magnitude (z ez : Z) :
  z <> 0 -> -1073 <= Zdigits2 (Z.abs z) + ez ->
  binary_normalize prec emax z ez false = S754_infinity (z <? 0) \/
  exists p e, binary_normalize prec emax z ez false = S754_finite (z <? 0) p e /\
    Zdigits2 (Z.abs z) + ez <= Zdigits2 (Zpos p) + e.
Proof.
  intros Hz HM. destruct z as [|q|q]; [lia| |];
    cbn [binary_normalize Z.abs Z.ltb Z.compare] in *;
    apply binary_round_magnitude; exact HM.
Qed.

(** The sum of two finite numbers has at most the larger magnitude plus
    two: one for the sum, one for the rounding. *)
Lemma SFadd_magnitude_le (sx sy s : bool) (mx my p : positive) (ex ey e : Z) :
  SpecFloat.fexp prec emax (Zdigits2 (Zpos mx) + ex) = ex ->
  SFadd prec emax (S754_finite sx mx ex) (S754_finite sy my ey)
  = S754_finite s p e ->
  Zdigits2 (Zpos p) + e
  <= Z.max (Zdigits2 (Zpos mx) + ex) (Zdigits2 (Zpos my) + ey) + 2.
Proof.
  intros Cx R. cbn [SFadd] in R.
  pose proof (canonical_magnitude mx ex Cx) as Hx.
  set (ez := Z.min ex ey) in *.
  pose proof (aligned_magnitude mx ex ez ltac:(unfold ez; lia)) as Ax.
  pose proof (aligned_magnitude my ey ez ltac:(unfold ez; lia)) as Ay.
  set (a := Zpos (fst (shl_align mx ex ez))) in *.
  set (b := Zpos (fst (shl_align my ey ez))) in *.
  assert (Pa : 0 < a) by (unfold a; lia).
  assert (Pb : 0 < b) by (unfold b; lia).
  apply binary_normalize_magnitude_le in R.
  set (z := cond_Zopp sx a + cond_Zopp sy b) in *.
  assert (Hz : Z.abs z <= a + b).
  { unfold z. destruct sx, sy; cbn [cond_Zopp]; lia. }
  pose proof (Zdigits2_bounds a Pa) as [_ Ua].
  pose proof (Zdigits2_bounds b Pb) as [_ Ub].
  pose proof (Zdigits2_pos a Pa) as Da.
  pose proof (Zdigits2_pos b Pb) as Db.
  assert (Hd : Zdigits2 (Z.abs z) <= Z.max (Zdigits2 a) (Zdigits2 b) + 1).
  { apply Zdigits2_lt_pow; [lia|]. split; [lia|].
    rewrite Z.pow_add_r, Z.pow_1_r by lia.
    assert (2 ^ Zdigits2 a <= 2 ^ Z.max (Zdigits2 a) (Zdigits2 b))
      by (apply Z.pow_le_mono_r; lia).
    assert (2 ^ Zdigits2 b <= 2 ^ Z.max (Zdigits2 a) (Zdigits2 b))
      by (apply Z.pow_le_mono_r; lia).
    lia. }
  lia.
Qed.

(** Two different numbers of the format, aligned on the smaller exponent:
    their difference has at least the larger magnitude minus 53. *)
Lemma aligned_difference (mx my : positive) (ex ey : Z) :
  SpecFloat.fexp prec emax (Zdigits2 (Zpos mx) + ex) = ex ->
  SpecFloat.fexp prec emax (Zdigits2 (Zpos my) + ey) = ey ->
  ey <= ex ->
  Zpos mx * 2 ^ (ex - ey) <> Zpos my ->
  Z.max (Zdigits2 (Zpos mx) + ex) (Zdigits2 (Zpos my) + ey) - 53
  <= Zdigits2 (Z.abs (Zpos mx * 2 ^ (ex - ey) - Zpos my)) + ey.
Proof.
  intros Cx Cy Hle Hne.
  destruct (canonical_exponent mx ex Cx) as (Hex & Hdx & Nx).
  destruct (canonical_exponent my ey Cy) as (Hey & Hdy & Ny).
  pose proof (Zdigits2_bounds (Zpos mx) ltac:(lia)) as [Lx Ux].
  pose proof (Zdigits2_bounds (Zpos my) ltac:(lia)) as [Ly Uy].
  set (t := ex - ey) in *.
  set (v := Z.abs (Zpos mx * 2 ^ t - Zpos my)).
  destruct (Z_le_gt_dec 2 t) as [Ht|Ht].
  - assert (Ed : Zdigits2 (Zpos mx) = 53) by (unfold t in Ht; lia).
    rewrite Ed in *.
    assert (Hy : Zpos my < 2 ^ 53).
    { assert (2 ^ Zdigits2 (Zpos my) <= 2 ^ 53) by (apply Z.pow_le_mono_r; lia). lia. }
    assert (Hp : 2 ^ (51 + t) = 2 ^ 51 * 2 ^ t) by (apply Z.pow_add_r; lia).
    assert (Ht2 : 4 <= 2 ^ t).
    { change 4 with (2 ^ 2). apply Z.pow_le_mono_r; lia. }
    assert (Hv : 2 ^ (51 + t) <= v).
    { unfold v. rewrite Hp.
      change (2 ^ (53 - 1)) with (2 * 2 ^ 51) in Lx.
      change (2 ^ 53) with (4 * 2 ^ 51) in Hy.
      assert (0 < 2 ^ 51) by reflexivity. nia. }
    pose proof (Zdigits2_ge_pow v (51 + t) ltac:(lia) Hv). unfold t in *. lia.
  - assert (Hv : 2 ^ 0 <= v).
    { unfold v. change (2 ^ 0) with 1. lia. }
    pose proof (Zdigits2_ge_pow v 0 ltac:(lia) Hv). unfold t in *. lia.
Qed.

(** The difference of two different finite numbers is an infinity or a
    finite number whose magnitude is at least the larger of theirs
    minus 53. *)
Lemma SFsub_magnitude (sx sy : bool) (mx my : positive) (ex ey : Z) :
  SpecFloat.fexp prec emax (Zdigits2 (Zpos mx) + ex) = ex ->
  SpecFloat.fexp prec emax (Zdigits2 (Zpos my) + ey) = ey ->
  S754_finite sx mx ex <> S754_finite sy my ey ->
  let r := SFsub prec emax (S754_finite sx mx ex) (S754_finite sy my ey) in
  (exists s, r = S754_infinity s) \/
  exists s p e, r = S754_finite s p e /\
    Z.max (Zdigits2 (Zpos mx) + ex) (Zdigits2 (Zpos my) + ey) - 53
    <= Zdigits2 (Zpos p) + e.
Proof.
  intros Cx Cy Hne r. unfold r. cbn [SFsub].
  destruct (canonical_exponent mx ex Cx) as (Hex & _).
  destruct (canonical_exponent my ey Cy) as (Hey & _).
  pose proof (canonical_magnitude mx ex Cx) as Mx.
  pose proof (canonical_magnitude my ey Cy) as My.
  set (ez := Z.min ex ey).
  destruct (shl_align_spec mx ex ez ltac:(unfold ez; lia)) as [Ex _].
  destruct (shl_align_spec my ey ez ltac:(unfold ez; lia)) as [Ey _].
  rewrite Ex, Ey.
  set (a := Zpos mx * 2 ^ (ex - ez)) in *.
  set (b := Zpos my * 2 ^ (ey - ez)) in *.
  set (z := cond_Zopp sx a - cond_Zopp sy b).
  assert (Pa : 0 < a).
  { apply Z.mul_pos_pos; [lia|apply Z.pow_pos_nonneg; unfold ez; lia]. }
  assert (Pb : 0 < b).
  { apply Z.mul_pos_pos; [lia|apply Z.pow_pos_nonneg; unfold ez; lia]. }
  assert (Hab : a = b -> mx = my /\ ex = ey).
  { intros E. apply canonical_unique; assumption. }
  assert (Hd : a <> b ->
               Z.max (Zdigits2 (Zpos mx) + ex) (Zdigits2 (Zpos my) + ey) - 53
               <= Zdigits2 (Z.abs (a - b)) + ez).
  { intros N. unfold a, b, ez in *.
    destruct (Z.min_spec ex ey) as [[L E]|[L E]]; rewrite E in *.
    - rewrite Z.sub_diag, Z.pow_0_r, Z.mul_1_r in *.
      pose proof (aligned_difference my mx ey ex Cy Cx ltac:(lia) ltac:(lia)) as K.
      replace (Z.abs (Zpos mx - Zpos my * 2 ^ (ey - ex)))
        with (Z.abs (Zpos my * 2 ^ (ey - ex) - Zpos mx)) by lia.
      lia.
    - rewrite Z.sub_diag, Z.pow_0_r, Z.mul_1_r in *.
      apply (aligned_difference mx my ex ey Cx Cy); lia. }
  assert (Hz : z <> 0 /\
               Z.max (Zdigits2 (Zpos mx) + ex) (Zdigits2 (Zpos my) + ey) - 53
               <= Zdigits2 (Z.abs z) + ez).
  { assert (K : a <> b \/ (a = b /\ sx <> sy)).
    { destruct (Z.eq_dec a b) as [E|E]; [right|left; exact E].
      split; [exact E|]. intros Es. apply Hne.
      destruct (Hab E) as [-> ->]. rewrite Es. reflexivity. }
    assert (Habs : Z.abs z = Z.abs (a - b) \/ Z.abs z = a + b).
    { unfold z. destruct sx, sy; cbn [cond_Zopp]; lia. }
    assert (Hsum : Zdigits2 (Z.abs (a - b)) <= Zdigits2 (a + b))
      by (apply Zdigits2_le; lia).
    destruct K as [N|[E Ns]].
    - split; [unfold z; destruct sx, sy; cbn [cond_Zopp]; lia|].
      specialize (Hd N). destruct Habs as [->| ->]; lia.
    - assert (Ez : Z.abs z = a + b).
      { unfold z. destruct sx, sy; cbn [cond_Zopp]; try lia; congruence. }
      split; [lia|]. rewrite Ez.
      assert (Zdigits2 a <= Zdigits2 (a + b)) by (apply Zdigits2_le; lia).
      assert (Zdigits2 b <= Zdigits2 (a + b)) by (apply Zdigits2_le; lia).
      assert (Zdigits2 a + ez = Zdigits2 (Zpos mx) + ex).
      { unfold a. rewrite Zdigits2_mul_pow by (unfold ez; lia). lia. }
      assert (Zdigits2 b + ez = Zdigits2 (Zpos my) + ey).
      { unfold b. rewrite Zdigits2_mul_pow by (unfold ez; lia). lia. }
      lia. }
  destruct Hz as [Hz Hm].
  pose proof (Zdigits2_pos (Z.abs z) ltac:(lia)) as Dz.
  destruct (binary_normalize_magnitude z ez Hz ltac:(unfold ez; lia))
    as [R|(p & e & R & B)].
  - left. eauto.
  - right. exists (z <? 0), p, e. split; [exact R|lia].
Qed.

(** The integer quotient that [SFdiv] rounds. *)
Lemma SFdiv_core_magnitude (m1 m2 : positive) (e1 e2 : Z) :
  let D := Zdigits2 (Zpos m1) + e1 - (Zdigits2 (Zpos m2) + e2) in
  let e' := Z.min (SpecFloat.fexp prec emax D) (e1 - e2) in
  let n := Zpos m1 * 2 ^ (e1 - e2 - e') in
  0 <= n / Zpos m2 /\
  (0 < n / Zpos m2 -> Zdigits2 (n / Zpos m2) + e' <= D + 1) /\
  (-1073 <= D -> 0 < n / Zpos m2 /\ D <= Zdigits2 (n / Zpos m2) + e').
Proof.
  intros D e' n.
  assert (Hs : 0 <= e1 - e2 - e') by (unfold e'; lia).
  assert (Pn : 0 < n).
  { unfold n. apply Z.mul_pos_pos; [lia|apply Z.pow_pos_nonneg; lia]. }
  assert (Dn : Zdigits2 n = Zdigits2 (Zpos m1) + (e1 - e2 - e')).
  { unfold n. apply Zdigits2_mul_pow; lia. }
  pose proof (Zdigits2_bounds n Pn) as [Ln Un].
  pose proof (Zdigits2_bounds (Zpos m2) ltac:(lia)) as [L2 U2].
  pose proof (Zdigits2_pos (Zpos m2) ltac:(lia)) as P2.
  pose proof (Zdigits2_pos n Pn) as P1.
  set (a := Zdigits2 n) in *. set (b := Zdigits2 (Zpos m2)) in *.
  set (q := n / Zpos m2).
  assert (Hq0 : 0 <= q) by (apply Z.div_pos; lia).
  assert (Hqn : Zpos m2 * q <= n) by (apply Z.mul_div_le; lia).
  split; [exact Hq0|]. split.
  - intros Pq.
    pose proof (Zdigits2_bounds q Pq) as [Lq _].
    pose proof (Zdigits2_pos q Pq) as Dq.
    set (c := Zdigits2 q) in *.
    assert (c + b - 2 < a); [|unfold D; lia].
    destruct (Z_lt_ge_dec (c + b - 2) a) as [L|L]; [exact L|exfalso].
    assert (X : 2 ^ (c - 1) * 2 ^ (b - 1) = 2 ^ (c + b - 2)).
    { rewrite <- Z.pow_add_r by lia. f_equal. lia. }
    assert (2 ^ a <= 2 ^ (c + b - 2)) by (apply Z.pow_le_mono_r; lia).
    assert (0 < 2 ^ (c - 1)) by (apply Z.pow_pos_nonneg; lia).
    assert (0 < 2 ^ (b - 1)) by (apply Z.pow_pos_nonneg; lia).
    nia.
  - intros HD.
    assert (Hab : 1 <= a - b).
    { unfold e' in *. rewrite fexp_eq in *. unfold D in *. lia. }
    assert (X : 2 ^ (a - 1 - b) * 2 ^ b = 2 ^ (a - 1)).
    { rewrite <- Z.pow_add_r by lia. f_equal. lia. }
    assert (Hq : 2 ^ (a - 1 - b) <= q).
    { apply Z.div_le_lower_bound; [lia|].
      assert (0 < 2 ^ (a - 1 - b)) by (apply Z.pow_pos_nonneg; lia). nia. }
    assert (0 < 2 ^ (a - 1 - b)) by (apply Z.pow_pos_nonneg; lia).
    split; [lia|].
    pose proof (Zdigits2_ge_pow q (a - 1 - b) ltac:(lia) Hq).
    unfold D. lia.
Qed.

(** A quotient of finite numbers whose magnitudes differ by at most 1073
    does not underflow to zero. *)
Lemma SFdiv_nonzero (sx sy : bool) (mx my : positive) (ex ey : Z) :
  -1073 <= Zdigits2 (Zpos mx) + ex - (Zdigits2 (Zpos my) + ey) ->
  nonzero_number (xorb sx sy)
    (SFdiv prec emax (S754_finite sx mx ex) (S754_finite sy my ey)).
Proof.
  intros HD. cbn [SFdiv]. rewrite SFdiv_core_spec.
  destruct (SFdiv_core_magnitude mx my ex ey) as (_ & _ & K).
  cbn zeta in K. destruct (K HD) as [Pq Mq].
  match goal with
  | |- nonzero_number _ (binary_round_aux _ _ ?s ?q ?e ?l) =>
      pose proof (binary_round_aux_magnitude s q e l Pq ltac:(lia)) as N
  end.
  cbn zeta in N. destruct N as [R|(p & e & R & _)]; unfold nonzero_number; eauto.
Qed.

(** The magnitude of a quotient is at most the difference of the
    magnitudes plus two. *)
Lemma SFdiv_magnitude_le (sx sy s : bool) (mx my p : positive) (ex ey e : Z) :
  SFdiv prec emax (S754_finite sx mx ex) (S754_finite sy my ey)
  = S754_finite s p e ->
  Zdigits2 (Zpos p) + e
  <= Z.max (Zdigits2 (Zpos mx) + ex - (Zdigits2 (Zpos my) + ey) + 2) (-1073).
Proof.
  cbn [SFdiv]. rewrite SFdiv_core_spec. intros R.
  destruct (SFdiv_core_magnitude mx my ex ey) as (Hq0 & Hup & _).
  cbn zeta in Hq0, Hup.
  apply binary_round_aux_magnitude_le in R; [|exact Hq0].
  set (D := Zdigits2 (Zpos mx) + ex - (Zdigits2 (Zpos my) + ey)) in *.
  set (e' := Z.min (SpecFloat.fexp prec emax D) (ex - ey)) in *.
  set (q := Zpos mx * 2 ^ (ex - ey - e') / Zpos my) in *.
  destruct (Z.eq_dec q 0) as [E|E].
  - rewrite E in R. change (Zdigits2 0) with 0 in R.
    unfold e' in R. rewrite fexp_eq in R. lia.
  - specialize (Hup ltac:(lia)). lia.
Qed.

End RoundFacts.


(** * Exact and never-zero operations on binary64 numbers *)

Module Binary64.

Import IEEE IEEEFacts Round RoundFacts.
#[local] Open Scope float_scope.

Lemma SFeqb_finite (s1 s2 : bool) (m1 m2 : positive) (e1 e2 : Z) :
  SFeqb (S754_finite s1 m1 e1) (S754_finite s2 m2 e2) = true ->
  S754_finite s1 m1 e1 = S754_finite s2 m2 e2.
Proof.
  unfold SFeqb. cbn [SFcompare].
  destruct s1, s2; try discriminate;
    destruct (Z.compare_spec e1 e2) as [E|E|E]; try discriminate;
    destruct (Pos.compare_cont Eq m1 m2) eqn:C; try discriminate; intros _;
    apply (Pos.compare_eq m1 m2) in C; subst; reflexivity.
Qed.

Lemma nonzero_number_class (s : bool) (r : spec_float) :
  nonzero_number s r -> sf_class_of r = CFin \/ sf_class_of r = CInf.
Proof. intros [->|(p & e & ->)]; cbn; auto. Qed.

Lemma binary_round_not_nan (s : bool) (m : positive) (e : Z) :
  binary_round prec emax s m e <> S754_nan.
Proof.
  unfold binary_round.
  destruct (shl_align m e _) as [mz ez].
  destruct (binary_round_aux_sign s (Zpos mz) ez loc_Exact ltac:(lia))
    as [H|[H|(p & e' & H)]]; rewrite H; discriminate.
Qed.

Lemma binary_normalize_not_nan (z e : Z) :
  binary_normalize prec emax z e false <> S754_nan.
Proof.
  destruct z; cbn [binary_normalize];
    [discriminate | apply binary_round_not_nan | apply binary_round_not_nan].
Qed.

(** *** Differences *)

(** Equal finite numbers have a zero for difference. *)
Lemma sub_eq_zero (x y : float) :
  (x =? y) = true -> is_finite x = true -> class_of (x - y) = CZero.
Proof.
  rewrite FloatAxioms.eqb_spec, is_finite_class. unfold class_of.
  rewrite sub_spec. unfold SF64sub.
  destruct (Prim2SF x) as [sx|sx| |sx mx ex] eqn:Ex;
    destruct (Prim2SF y) as [sy|sy| |sy my ey] eqn:Ey;
    cbn [sf_class_of]; intros He Hf;
    try (destruct Hf; discriminate); try discriminate He;
    try (unfold SFeqb in He; cbn [SFcompare] in He;
         destruct sx, sy; discriminate He).
  - destruct sx, sy; reflexivity.
  - apply SFeqb_finite in He. injection He as -> -> ->.
    rewrite SFsub_diag_finite. reflexivity.
Qed.

(** Different finite numbers have a difference other than zero. *)
Lemma sub_ne_nonzero (x y : float) :
  (x =? y) = false -> is_finite x = true -> is_finite y = true ->
  class_of (x - y) = CFin \/ class_of (x - y) = CInf.
Proof.
  rewrite FloatAxioms.eqb_spec, !is_finite_class. unfold class_of.
  rewrite sub_spec. unfold SF64sub.
  intros He Hx Hy.
  destruct (Prim2SF x) as [sx|sx| |sx mx ex] eqn:Ex;
    try (destruct Hx; discriminate);
    destruct (Prim2SF y) as [sy|sy| |sy my ey] eqn:Ey;
    try (destruct Hy; discriminate).
  - left. reflexivity.
  - left. reflexivity.
  - destruct (Prim2SF_finite x _ _ _ Ex) as [Cx _].
    destruct (Prim2SF_finite y _ _ _ Ey) as [Cy _].
    destruct (SFsub_nonzero sx sy mx my ex ey Cx Cy) as [s Hs].
    + intros E. rewrite E in He. unfold SFeqb in He.
      rewrite SFcompare_refl in He by discriminate. discriminate.
    + exact (nonzero_number_class s _ Hs).
Qed.

(** A difference is finite only if both numbers are. *)
Lemma sub_finite_inv (x y : float) :
  is_finite (x - y) = true -> is_finite x = true /\ is_finite y = true.
Proof.
  rewrite !is_finite_class. unfold class_of. rewrite sub_spec. unfold SF64sub.
  destruct (Prim2SF x) as [sx|sx| |sx mx ex], (Prim2SF y) as [sy|sy| |sy my ey];
    cbn [SFsub sf_class_of]; intros H; split; auto;
    try (destruct H; discriminate);
    try (destruct sx, sy; cbn in H; destruct H; discriminate).
Qed.

(** Subtracting or adding a zero leaves a finite number as it is. *)
Lemma sub_zero_eqb (x z : float) :
  is_finite x = true -> class_of z = CZero -> (x - z =? x) = true.
Proof.
  rewrite is_finite_class. unfold class_of.
  rewrite FloatAxioms.eqb_spec, sub_spec. unfold SF64sub, SFeqb.
  destruct (Prim2SF x) as [sx|sx| |sx mx ex], (Prim2SF z) as [sz|sz| |sz mz ez];
    cbn [SFsub sf_class_of]; intros Hx Hz; try discriminate;
    try (destruct Hx; discriminate).
  - destruct sx, sz; reflexivity.
  - rewrite SFcompare_refl by discriminate. reflexivity.
Qed.

Lemma add_zero_eqb (x z : float) :
  is_finite x = true -> class_of z = CZero -> (x + z =? x) = true.
Proof.
  rewrite is_finite_class. unfold class_of.
  rewrite FloatAxioms.eqb_spec, add_spec. unfold SF64add, SFeqb.
  destruct (Prim2SF x) as [sx|sx| |sx mx ex], (Prim2SF z) as [sz|sz| |sz mz ez];
    cbn [SFadd sf_class_of]; intros Hx Hz; try discriminate;
    try (destruct Hx; discriminate).
  - destruct sx, sz; reflexivity.
  - rewrite SFcompare_refl by discriminate. reflexivity.
Qed.

(** *** Products *)

Lemma mul_1_r (x : float) : x * 1 = x.
Proof.
  apply Prim2SF_inj. rewrite mul_spec. apply SFmul_1_r. apply Prim2SF_valid.
Qed.

Lemma mul_zero_class (x z : float) :
  is_finite x = true -> class_of z = CZero -> class_of (x * z) = CZero.
Proof.
  rewrite is_finite_class. unfold class_of. rewrite mul_spec. unfold SF64mul.
  destruct (Prim2SF x) as [sx|sx| |sx mx ex], (Prim2SF z) as [sz|sz| |sz mz ez];
    cbn [SFmul sf_class_of]; intros Hx Hz; try discriminate;
    try (destruct Hx; discriminate); reflexivity.
Qed.

Lemma mul_zero_class_l (z x : float) :
  class_of z = CZero -> is_finite x = true -> class_of (z * x) = CZero.
Proof.
  rewrite is_finite_class. unfold class_of. rewrite mul_spec. unfold SF64mul.
  destruct (Prim2SF x) as [sx|sx| |sx mx ex], (Prim2SF z) as [sz|sz| |sz mz ez];
    cbn [SFmul sf_class_of]; intros Hz Hx; try discriminate;
    try (destruct Hx; discriminate); reflexivity.
Qed.

(** A number from 1 up times a number other than zero is not zero: the
    product does not underflow. *)
Lemma mul_ge_1_nonzero (c d : float) :
  (1 <=? c) = true ->
  class_of d = CFin \/ class_of d = CInf ->
  class_of (c * d) = CFin \/ class_of (c * d) = CInf.
Proof.
  rewrite leb_spec. unfold class_of. rewrite mul_spec. unfold SF64mul, SFleb.
  change (Prim2SF 1) with (S754_finite false 4503599627370496 (-52)).
  destruct (Prim2SF c) as [sc|sc| |sc mc ec] eqn:Ec;
    destruct (Prim2SF d) as [sd|sd| |sd md ed] eqn:Ed;
    cbn [sf_class_of SFcompare]; intros Hc Hd;
    try (destruct Hd; discriminate); try discriminate Hc;
    try (right; reflexivity).
  destruct (Prim2SF_finite c _ _ _ Ec) as [Cc _].
  destruct (Prim2SF_finite d _ _ _ Ed) as [Cd _].
  apply (nonzero_number_class (xorb sc sd)).
  apply SFmul_nonzero; [exact Cd|].
  destruct (canonical_exponent mc ec Cc) as (He & Hdg & N).
  destruct sc; [discriminate|].
  destruct (Z_le_gt_dec 0 ec) as [P|P]; [left; exact P|right].
  assert (Dg : Zdigits2 (Zpos mc) = 53%Z).
  { destruct N as [N|N]; [exact N|]. subst ec. discriminate Hc. }
  pose proof (Zdigits2_bounds (Zpos mc) ltac:(lia)) as [L _].
  rewrite Dg in L.
  assert (Hec : (-52 <= ec)%Z).
  { destruct (Z.compare_spec (-52) ec) as [E|E|E]; try discriminate Hc; lia. }
  apply Z.le_trans with (2 ^ 52)%Z; [apply Z.pow_le_mono_r; lia | exact L].
Qed.

(** *** Quotients *)

Lemma div_diag (x : float) : class_of x = CFin -> x / x = 1.
Proof.
  unfold class_of. intros H. apply Prim2SF_inj. rewrite div_spec. unfold SF64div.
  destruct (Prim2SF x) as [s|s| |s m e]; try discriminate.
  apply SFdiv_diag_finite.
Qed.

(** A positive number over a larger one is a number of [[0, 1)]: +0 when
    the quotient underflows. *)
Lemma div_lt_1 (x y : float) :
  (0 <? x) = true -> (x <? y) = true ->
  (0 <=? x / y) = true /\ (x / y <? 1) = true.
Proof.
  rewrite !ltb_spec, leb_spec, div_spec. unfold SF64div, SFltb, SFleb.
  change (Prim2SF 0) with (S754_zero false).
  change (Prim2SF 1) with (S754_finite false 4503599627370496 (-52)).
  destruct (Prim2SF x) as [sx|sx| |sx mx ex] eqn:Ex;
    destruct (Prim2SF y) as [sy|sy| |sy my ey] eqn:Ey;
    cbn [SFcompare]; intros H0 Hlt; try discriminate;
    try (destruct sx; discriminate); try (destruct sy; discriminate);
    try (destruct sx, sy; discriminate).
  - destruct sx; [discriminate|]. destruct sy; [discriminate|].
    cbn [SFdiv xorb SFcompare]. split; reflexivity.
  - destruct sx; [discriminate|]. destruct sy; [discriminate|].
    destruct (Prim2SF_finite x _ _ _ Ex) as [Cx _].
    destruct (Prim2SF_finite y _ _ _ Ey) as [Cy _].
    cbn [SFdiv xorb]. rewrite SFdiv_core_spec.
    assert (Hc : (ex < ey \/ (ex = ey /\ Zpos mx < Zpos my))%Z).
    { destruct (Z.compare_spec ex ey) as [E|E|E]; try discriminate.
      - right. split; [exact E|].
        destruct (Pos.compare_cont Eq mx my) eqn:C; try discriminate.
        assert (L : (mx < my)%positive) by exact C. lia.
      - left. exact E. }
    pose proof (SFdiv_lt_1 false mx my ex ey
                  (new_location (Zpos my)
                     ((Zpos mx * 2 ^ (ex - ey - Z.min (SpecFloat.fexp prec emax (Zdigits2 (Zpos mx) + ex - (Zdigits2 (Zpos my) + ey))) (ex - ey))) mod Zpos my))
                  Cx Cy Hc) as R.
    cbn zeta in R. specialize (R (new_location_exact _ _)).
    destruct R as [R|(p & e & R & He)]; rewrite R; cbn [SFcompare].
    + split; reflexivity.
    + split; [reflexivity|].
      destruct (Z.compare_spec e (-52)) as [E|E|E]; try reflexivity; lia.
Qed.

Lemma div_le_1 (x y : float) :
  (0 <? x) = true -> (x <=? y) = true -> is_finite x = true ->
  (0 <=? x / y) = true /\ (x / y <=? 1) = true /\
  ((x / y =? 1) = true <-> (x =? y) = true).
Proof.
  intros H0 Hle Hf.
  destruct (x <? y) eqn:Hlt.
  - destruct (div_lt_1 x y H0 Hlt) as [A B].
    assert (Hne : (x =? y) = false).
    { revert Hlt. rewrite ltb_spec, FloatAxioms.eqb_spec. unfold SFltb, SFeqb.
      destruct (SFcompare (Prim2SF x) (Prim2SF y)) as [[]|]; congruence. }
    assert (B' : (x / y =? 1) = false /\ (x / y <=? 1) = true).
    { revert B. rewrite ltb_spec, FloatAxioms.eqb_spec, leb_spec.
      unfold SFltb, SFeqb, SFleb.
      destruct (SFcompare (Prim2SF (x / y)) (Prim2SF 1)) as [[]|]; auto;
        discriminate. }
    destruct B' as [B1 B2]. split; [exact A|]. split; [exact B2|].
    rewrite B1, Hne. tauto.
  - assert (He : (x =? y) = true).
    { revert Hlt Hle. rewrite ltb_spec, FloatAxioms.eqb_spec, leb_spec.
      unfold SFltb, SFeqb, SFleb.
      destruct (SFcompare (Prim2SF x) (Prim2SF y)) as [[]|]; congruence. }
    assert (Hx : class_of x = CFin).
    { apply is_finite_class in Hf. destruct Hf as [Z|F]; [|exact F].
      exfalso. revert H0. rewrite ltb_spec. unfold SFltb, class_of in *.
      change (Prim2SF 0) with (S754_zero false).
      destruct (Prim2SF x); cbn in *; discriminate. }
    assert (Exy : Prim2SF y = Prim2SF x).
    { revert He Hx. rewrite FloatAxioms.eqb_spec. unfold class_of.
      destruct (Prim2SF x) as [sx|sx| |sx mx ex] eqn:Ex; try discriminate.
      destruct (Prim2SF y) as [sy|sy| |sy my ey] eqn:Ey; intros He _;
        try discriminate He;
        try (unfold SFeqb in He; cbn [SFcompare] in He;
             destruct sx; try destruct sy; discriminate He).
      apply SFeqb_finite in He. symmetry. exact He. }
    apply Prim2SF_inj in Exy. subst y.
    rewrite (div_diag x Hx). repeat split; try reflexivity. intros _. exact He.
Qed.


(** *** Magnitudes *)

Lemma mul_comm (x y : float) : x * y = y * x.
Proof.
  apply Prim2SF_inj. rewrite !mul_spec. unfold SF64mul.
  destruct (Prim2SF x) as [sx|sx| |sx mx ex], (Prim2SF y) as [sy|sy| |sy my ey];
    cbn [SFmul]; try reflexivity; try (rewrite xorb_comm; reflexivity).
  rewrite xorb_comm, Pos.mul_comm, Z.add_comm. reflexivity.
Qed.

Lemma abs_class (x : float) : class_of (abs x) = class_of x.
Proof.
  unfold class_of. rewrite abs_spec. destruct (Prim2SF x); reflexivity.
Qed.

(** A number from 1 up is [+infinity] or has a magnitude of at least 1. *)
Lemma ge_1_magnitude (c : float) :
  (1 <=? c) = true ->
  Prim2SF c = S754_infinity false \/
  exists m e, Prim2SF c = S754_finite false m e /\ (1 <= Zdigits2 (Zpos m) + e)%Z.
Proof.
  rewrite leb_spec. unfold SFleb.
  change (Prim2SF 1) with (S754_finite false 4503599627370496 (-52)).
  destruct (Prim2SF c) as [sc|sc| |sc mc ec] eqn:Ec; cbn [SFcompare]; intros Hc;
    try discriminate Hc.
  - destruct sc; [discriminate|]. left. reflexivity.
  - destruct sc; [discriminate|]. right. exists mc, ec. split; [reflexivity|].
    destruct (Prim2SF_finite c _ _ _ Ec) as [Cc _].
    destruct (canonical_exponent mc ec Cc) as (He & Hdg & N).
    assert (Hec : (-52 <= ec)%Z).
    { destruct (Z.compare_spec (-52) ec) as [E|E|E]; try discriminate Hc; lia. }
    lia.
Qed.

(** The magnitude of a finite number is at most 1024. *)
Lemma finite_magnitude (y : float) (s : bool) (m : positive) (e : Z) :
  Prim2SF y = S754_finite s m e ->
  SpecFloat.fexp prec emax (Zdigits2 (Zpos m) + e) = e /\
  (-1073 <= Zdigits2 (Zpos m) + e <= 1024)%Z.
Proof.
  intros E. destruct (Prim2SF_finite y _ _ _ E) as [C B].
  destruct (canonical_exponent m e C) as (He & Hd & _).
  pose proof (canonical_magnitude m e C). split; [exact C|lia].
Qed.

(** A number from 1 up over a finite number other than zero is not zero:
    the quotient does not underflow. *)
Lemma div_ge_1_nonzero (x y : float) :
  (1 <=? x) = true -> class_of y = CFin ->
  class_of (x / y) = CFin \/ class_of (x / y) = CInf.
Proof.
  intros Hx. unfold class_of. rewrite div_spec. unfold SF64div.
  destruct (Prim2SF y) as [sy|sy| |sy my ey] eqn:Ey; cbn [sf_class_of];
    intros Hy; try discriminate Hy.
  destruct (finite_magnitude y _ _ _ Ey) as [Cy My].
  destruct (ge_1_magnitude x Hx) as [E|(m & e & E & M)]; rewrite E.
  - right. reflexivity.
  - apply (nonzero_number_class (xorb false sy)). apply SFdiv_nonzero. lia.
Qed.

(** Multiplying by 100 neither makes nor removes a zero. *)
Lemma mul_100_eq0 (e : float) : (e * 100 =? 0) = (e =? 0).
Proof.
  destruct (e =? 0) eqn:E.
  - apply eq0_class. apply mul_zero_class_l; [apply eq0_class; exact E | reflexivity].
  - destruct (e * 100 =? 0) eqn:P; [exfalso|reflexivity].
    apply eq0_class in P.
    assert (Ne : class_of e <> CZero).
    { intros Z. apply eq0_class in Z. congruence. }
    destruct (class_of e) eqn:C; try contradiction.
    + assert (En : e = nan).
      { apply Prim2SF_inj. unfold class_of in C.
        change (Prim2SF nan) with S754_nan.
        destruct (Prim2SF e); try discriminate; reflexivity. }
      subst e. revert P. unfold class_of. rewrite mul_spec.
      change (Prim2SF nan) with S754_nan. discriminate.
    + rewrite mul_comm in P.
      destruct (mul_ge_1_nonzero 100 e eq_refl (or_intror C)); congruence.
    + rewrite mul_comm in P.
      destruct (mul_ge_1_nonzero 100 e eq_refl (or_introl C)); congruence.
Qed.

(** Half the sum of two finite numbers is not NaN, and it is zero when
    both are zero. *)
Lemma half_sum_not_nan (x y : float) :
  is_finite x = true -> is_finite y = true ->
  class_of ((x + y) / 2) <> CNan.
Proof.
  rewrite !is_finite_class. unfold class_of.
  rewrite div_spec, add_spec. unfold SF64div, SF64add.
  change (Prim2SF 2) with (S754_finite false 4503599627370496 (-51)).
  intros Hx Hy.
  assert (Hs : SFadd prec emax (Prim2SF x) (Prim2SF y) <> S754_nan).
  { destruct (Prim2SF x) as [sx|sx| |sx mx ex]; try (destruct Hx; discriminate);
      destruct (Prim2SF y) as [sy|sy| |sy my ey]; try (destruct Hy; discriminate);
      cbn [SFadd]; try discriminate.
    - destruct sx, sy; discriminate.
    - apply binary_normalize_not_nan. }
  destruct (SFadd prec emax (Prim2SF x) (Prim2SF y)) as [s|s| |s m e];
    try contradiction; try discriminate.
  cbn [SFdiv]. rewrite SFdiv_core_spec.
  match goal with
  | |- sf_class_of (binary_round_aux _ _ ?s ?q ?e ?l) <> _ =>
      destruct (binary_round_aux_sign s q e l) as [R|[R|(p & e0 & R)]]
  end.
  - apply Z.div_pos; [|lia]. apply Z.mul_nonneg_nonneg; [lia|].
    apply Z.pow_nonneg. lia.
  - cbn zeta in R. rewrite R. discriminate.
  - cbn zeta in R. rewrite R. discriminate.
  - cbn zeta in R. rewrite R. discriminate.
Qed.

Lemma half_sum_zero (x y : float) :
  (x =? 0) = true -> (y =? 0) = true -> ((x + y) / 2 =? 0) = true.
Proof.
  rewrite !eq0_class. unfold class_of.
  rewrite div_spec, add_spec. unfold SF64div, SF64add.
  change (Prim2SF 2) with (S754_finite false 4503599627370496 (-51)).
  destruct (Prim2SF x) as [sx|sx| |sx mx ex]; try discriminate;
    destruct (Prim2SF y) as [sy|sy| |sy my ey]; try discriminate.
  intros _ _. destruct sx, sy; reflexivity.
Qed.

(** Half a sum is finite only if both numbers are. *)
Lemma half_sum_finite_inv (x y : float) :
  is_finite ((x + y) / 2) = true -> is_finite x = true /\ is_finite y = true.
Proof.
  rewrite !is_finite_class. unfold class_of.
  rewrite div_spec, add_spec. unfold SF64div, SF64add.
  change (Prim2SF 2) with (S754_finite false 4503599627370496 (-51)).
  destruct (Prim2SF x) as [sx|sx| |sx mx ex], (Prim2SF y) as [sy|sy| |sy my ey];
    cbn [SFadd SFdiv sf_class_of]; intros H; split; auto;
    try (destruct H; discriminate);
    try (destruct sx, sy; cbn in H; destruct H; discriminate).
Qed.

(** The relative difference of two different finite numbers does not
    underflow: their difference has at least the larger magnitude minus
    53, half their sum at most the larger magnitude plus two. *)
Lemma balance_quotient_nonzero (x y : float) :
  (x =? y) = false -> is_finite x = true -> is_finite y = true ->
  class_of ((x + y) / 2) = CFin ->
  class_of (abs (x - y) / ((x + y) / 2)) = CFin \/
  class_of (abs (x - y) / ((x + y) / 2)) = CInf.
Proof.
  rewrite FloatAxioms.eqb_spec, !is_finite_class. unfold class_of.
  rewrite !div_spec, abs_spec, sub_spec, add_spec.
  unfold SF64div, SF64sub, SF64add.
  change (Prim2SF 2) with (S754_finite false 4503599627370496 (-51)).
  intros He Hx Hy.
  destruct (Prim2SF x) as [sx|sx| |sx mx ex] eqn:Ex;
    try (destruct Hx; discriminate);
    destruct (Prim2SF y) as [sy|sy| |sy my ey] eqn:Ey;
    try (destruct Hy; discriminate).
  - (* 0 and y *)
    destruct (finite_magnitude y _ _ _ Ey) as [Cy My].
    cbn [SFadd SFsub SFopp SFabs].
    destruct (SFdiv prec emax (S754_finite sy my ey)
                (S754_finite false 4503599627370496 (-51)))
      as [s|s| |s p e] eqn:Ea; cbn [sf_class_of]; intros Ha; try discriminate.
    apply SFdiv_magnitude_le in Ea.
    change (Zdigits2 4503599627370496 + -51)%Z with 2%Z in Ea.
    apply (nonzero_number_class (xorb false s)). apply SFdiv_nonzero. lia.
  - (* x and 0 *)
    destruct (finite_magnitude x _ _ _ Ex) as [Cx Mx].
    cbn [SFadd SFsub SFopp SFabs].
    destruct (SFdiv prec emax (S754_finite sx mx ex)
                (S754_finite false 4503599627370496 (-51)))
      as [s|s| |s p e] eqn:Ea; cbn [sf_class_of]; intros Ha; try discriminate.
    apply SFdiv_magnitude_le in Ea.
    change (Zdigits2 4503599627370496 + -51)%Z with 2%Z in Ea.
    apply (nonzero_number_class (xorb false s)). apply SFdiv_nonzero. lia.
  - destruct (finite_magnitude x _ _ _ Ex) as [Cx Mx].
    destruct (finite_magnitude y _ _ _ Ey) as [Cy My].
    assert (Hne : S754_finite sx mx ex <> S754_finite sy my ey).
    { intros E. rewrite E in He. unfold SFeqb in He.
      rewrite SFcompare_refl in He by discriminate. discriminate. }
    pose proof (SFsub_magnitude sx sy mx my ex ey Cx Cy Hne) as D.
    cbn zeta in D.
    destruct (SFadd prec emax (S754_finite sx mx ex) (S754_finite sy my ey))
      as [s|s| |s ps es] eqn:Es.
    + cbn [SFdiv sf_class_of]. discriminate.
    + cbn [SFdiv sf_class_of]. discriminate.
    + cbn [SFdiv sf_class_of]. discriminate.
    + apply SFadd_magnitude_le in Es; [|exact Cx].
      destruct (SFdiv prec emax (S754_finite s ps es)
                  (S754_finite false 4503599627370496 (-51)))
        as [s'|s'| |s' p e] eqn:Ea; cbn [sf_class_of]; intros Ha;
        try discriminate.
      apply SFdiv_magnitude_le in Ea.
      change (Zdigits2 4503599627370496 + -51)%Z with 2%Z in Ea.
      destruct D as [[sd D]|(sd & pd & ed & D & Md)]; rewrite D; cbn [SFabs].
      * right. reflexivity.
      * apply (nonzero_number_class (xorb false s')). apply SFdiv_nonzero. lia.
Qed.

End Binary64.


(** * What the configuration and [U] reach *)

Section ReachFacts.

Context {F : Type} {AF : Arith F}.



(** The configuration reaches the results through [dT1] and [dT2] only. *)
Lemma same_differences_same_run (c1 c2 : Configuration) (i : Inputs F)
    (r1 r2 : Results F) :
  calculations c1 i = Ok r1 -> calculations c2 i = Ok r2 ->
  dT1 r1 = dT1 r2 -> dT2 r1 = dT2 r2 -> r1 = r2.
Proof.
  intros H1 H2 E1 E2.
  pose proof (calculations_runs _ _ _ H1) as R1.
  pose proof (calculations_runs _ _ _ H2) as R2.
  assert (R : runs_to c1 i r2).
  { destruct R1 as (_ & _ & _ & _ & D1 & D2 & _).
    destruct R2 as (Qh & Qc & Qa & HQ & _ & _ & L & HA & Ch & Cc & Cm & CM & Cr
                    & Qm & E & N & Hb).
    unfold runs_to. rewrite <- E1, <- E2 at 1.
    repeat split; try assumption; congruence. }
  apply runs_calculations in R. rewrite H1 in R. apply Ok_inj in R. exact R.
Qed.


End ReachFacts.


(** * The calculation block on binary64 numbers *)

Module Block64.

Import IEEE IEEEFacts Round RoundFacts Binary64 Cases.
#[local] Open Scope float_scope.

#[local] Hint Extern 0 (Arith float) =>
  match goal with lg : float -> float |- _ => exact (arith lg) end
  : typeclass_instances.
#[local] Hint Extern 1 (Arith float) => exact (arith log_model)
  : typeclass_instances.

Lemma leb_0_nonzero_ltb (r : float) :
  (0 <=? r) = true -> class_of r = CFin \/ class_of r = CInf -> (0 <? r) = true.
Proof.
  rewrite leb_spec, ltb_spec. unfold class_of, SFleb, SFltb.
  change (Prim2SF 0) with (S754_zero false).
  destruct (Prim2SF r) as [s|s| |s m e]; cbn [sf_class_of SFcompare];
    intros H [C|C]; try discriminate; destruct s; auto.
Qed.

Lemma ltb_0_class (x : float) :
  (0 <? x) = true -> class_of x = CFin \/ class_of x = CInf.
Proof.
  rewrite ltb_spec. unfold class_of, SFltb.
  change (Prim2SF 0) with (S754_zero false).
  destruct (Prim2SF x) as [s|s| |s m e]; cbn [sf_class_of SFcompare];
    intros H; auto; try discriminate; destruct s; discriminate.
Qed.

Lemma eqb_sym (x y : float) : (x =? y) = (y =? x).
Proof.
  rewrite !FloatAxioms.eqb_spec. unfold SFeqb.
  rewrite (SFcompare_antisym (Prim2SF x) (Prim2SF y)).
  destruct (SFcompare (Prim2SF x) (Prim2SF y)) as [[]|]; reflexivity.
Qed.

Lemma ltb_leb (x y : float) : (x <? y) = true -> (x <=? y) = true.
Proof.
  rewrite ltb_spec, leb_spec. unfold SFltb, SFleb.
  destruct (SFcompare (Prim2SF x) (Prim2SF y)) as [[]|]; congruence.
Qed.

Lemma ltb_false_eqb (x y : float) :
  (x <? y) = false -> (y <? x) = false ->
  is_nan x = false -> is_nan y = false -> (x =? y) = true.
Proof.
  rewrite !is_nan_false_class, !ltb_spec, FloatAxioms.eqb_spec.
  unfold class_of, SFltb, SFeqb.
  rewrite (SFcompare_antisym (Prim2SF x) (Prim2SF y)).
  destruct (SFcompare (Prim2SF x) (Prim2SF y)) as [[]|] eqn:C; simpl;
    try congruence.
  intros _ _ Hx Hy. destruct (SFcompare_None _ _ C) as [E|E]; rewrite E in *;
    simpl in *; congruence.
Qed.

Lemma finite_not_nan (x : float) : is_finite x = true -> is_nan x = false.
Proof.
  rewrite is_finite_class, is_nan_false_class.
  intros [H|H]; rewrite H; discriminate.
Qed.

Lemma compare_refl_not_nan (x : float) :
  is_nan x = false -> SFcompare (Prim2SF x) (Prim2SF x) = Some Eq.
Proof.
  rewrite is_nan_false_class. unfold class_of. intros H.
  apply SFcompare_refl. intros E. rewrite E in H. apply H. reflexivity.
Qed.

Lemma leb_refl (x : float) : is_nan x = false -> (x <=? x) = true.
Proof.
  intros H. rewrite leb_spec. unfold SFleb.
  rewrite (compare_refl_not_nan x H). reflexivity.
Qed.

Lemma eqb_refl (x : float) : is_nan x = false -> (x =? x) = true.
Proof.
  intros H. rewrite FloatAxioms.eqb_spec. unfold SFeqb.
  rewrite (compare_refl_not_nan x H). reflexivity.
Qed.

(** ** Heat balance error (line 201) *)

(** C4: [Q_avg] is half the sum of the duties, and line 201 raises
    [ZeroDivisionError] exactly when it is zero, as it is when both
    duties are zero; otherwise it computes
    [abs (Q_hot - Q_cold) / Q_avg * 100].  Whenever [Q_avg] is finite
    and not zero, that error is 0 if and only if [Q_hot == Q_cold]: the
    relative difference of two different numbers does not underflow.
    Equal finite duties give the error 0 also when their sum
    overflows. *)
Theorem heat_balance_error_zero (lg : float -> float) (i : Inputs float) :
  let qh := num (calc_Q_hot i) in
  let qc := num (calc_Q_cold i) in
  let qa := (qh + qc) / 2 in
  let e := abs (qh - qc) / qa * 100 in
  calc_Q_avg (calc_Q_hot i) (calc_Q_cold i) = Ok (py qa) /\
  calc_heat_balance_error (calc_Q_hot i) (calc_Q_cold i) (py qa)
  = (if qa =? 0 then Raise ZeroDivisionError else Ok (py e)) /\
  ((qh =? 0) = true -> (qc =? 0) = true -> (qa =? 0) = true) /\
  (is_finite qa = true -> (qa =? 0) = false ->
   ((e =? 0) = true <-> (qh =? qc) = true)) /\
  (is_finite qh = true -> (qh =? qc) = true -> (qa =? 0) = false ->
   (e =? 0) = true).
Proof.
  intros qh qc qa e.
  assert (Fwd : is_finite qh = true -> (qh =? qc) = true -> (qa =? 0) = false ->
                (e =? 0) = true).
  { intros Fh He Z. unfold e. rewrite mul_100_eq0.
    assert (Fc : is_finite qc = true).
    { revert He Fh. rewrite !is_finite_class, FloatAxioms.eqb_spec.
      unfold class_of, SFeqb.
      destruct (Prim2SF qh) as [sx|sx| |sx mx ex], (Prim2SF qc) as [sy|sy| |sy my ey];
        cbn [sf_class_of SFcompare]; intros He Hf; auto;
        try (destruct Hf; discriminate); try discriminate He;
        destruct sx; try destruct sy; discriminate He. }
    assert (Nz : class_of qa <> CZero).
    { intros C. apply eq0_class in C. congruence. }
    pose proof (half_sum_not_nan qh qc Fh Fc) as Nn. fold qa in Nn.
    apply eq0_class. apply div_zero_class; [|exact Nz|exact Nn].
    rewrite abs_class. apply sub_eq_zero; assumption. }
  split; [reflexivity|]. split; [|split; [|split]].
  - change (calc_Q_hot i) with (py qh). change (calc_Q_cold i) with (py qc).
    unfold calc_heat_balance_error. rewrite vsub_py. cbn [vabs].
    rewrite truediv_py_py. cbn [eq0 arith].
    destruct (qa =? 0) eqn:Z; reflexivity.
  - apply half_sum_zero.
  - intros Fa Z.
    destruct (half_sum_finite_inv qh qc Fa) as [Fh Fc].
    split.
    + intros Ez. destruct (qh =? qc) eqn:He; [reflexivity|exfalso].
      assert (Ca : class_of qa = CFin).
      { apply is_finite_class in Fa. destruct Fa as [C|C]; [|exact C].
        apply eq0_class in C. congruence. }
      unfold e in Ez. rewrite mul_100_eq0 in Ez. apply eq0_class in Ez.
      pose proof (balance_quotient_nonzero qh qc He Fh Fc Ca) as B.
      fold qa in B. destruct B as [B|B]; rewrite B in Ez; discriminate Ez.
    + intros He. exact (Fwd Fh He Z).
  - exact Fwd.
Qed.

(** ** Effectiveness (lines 194-195) *)

(** C6: [Q_max] is [C_min * (Th_in - Tc_in)] and line 195 raises
    [ZeroDivisionError] exactly when it is zero, returning [Q / Q_max]
    otherwise.  [Q_max] is zero when [Th_in == Tc_in] (finite, with a
    finite [C_min]); it is not zero when the finite inlet temperatures
    differ and [C_min] is at least 1. *)
Theorem effectiveness_fails (lg : float -> float) (i : Inputs float) (q : float) :
  let c_min := py_min (calc_C_hot i) (calc_C_cold i) in
  let q_max := num c_min * (Th_in i - Tc_in i) in
  calc_Q_max c_min i = py q_max /\
  calc_effectiveness (py q) (py q_max)
  = (if q_max =? 0 then Raise ZeroDivisionError else Ok (py (q / q_max))) /\
  ((Th_in i =? Tc_in i) = true -> is_finite (Th_in i) = true ->
   is_finite (num c_min) = true -> (q_max =? 0) = true) /\
  ((Th_in i =? Tc_in i) = false -> is_finite (Th_in i) = true ->
   is_finite (Tc_in i) = true -> (1 <=? num c_min) = true ->
   (q_max =? 0) = false).
Proof.
  intros c_min q_max.
  assert (Hpy : c_min = py (num c_min)).
  { unfold c_min, py_min, calc_C_hot, calc_C_cold, int. rewrite !vmul_py.
    destruct (vlt _ _); reflexivity. }
  split; [|split; [|split]].
  - unfold calc_Q_max. rewrite Hpy at 1. reflexivity.
  - unfold calc_effectiveness. rewrite truediv_py_py. reflexivity.
  - intros He Ft Fc. apply eq0_class.
    apply mul_zero_class; [exact Fc|]. apply sub_eq_zero; assumption.
  - intros He Ft Ft' Hc.
    destruct (q_max =? 0) eqn:Z; [exfalso|reflexivity].
    apply eq0_class in Z.
    destruct (mul_ge_1_nonzero (num c_min) (Th_in i - Tc_in i) Hc
                (sub_ne_nonzero _ _ He Ft Ft')) as [C|C];
      unfold q_max in Z; congruence.
Qed.

(** ** Capacity ratio (lines 187-191) *)

(** C7: line 191 raises [ZeroDivisionError] exactly when [C_max] is
    zero.  For positive finite capacity rates it returns a ratio [r]
    with [0 <= r <= 1], and [r == 1] exactly when [C_hot == C_cold];
    [r] is above 0 when [C_min] is at least 1. *)
Theorem C_ratio_range (lg : float -> float) (i : Inputs float) :
  let ch := num (calc_C_hot i) in
  let cc := num (calc_C_cold i) in
  let c_min := py_min (calc_C_hot i) (calc_C_cold i) in
  let c_max := py_max (calc_C_hot i) (calc_C_cold i) in
  let r := num c_min / num c_max in
  calc_C_ratio c_min c_max
  = (if num c_max =? 0 then Raise ZeroDivisionError else Ok (py r)) /\
  ((0 <? ch) = true -> (0 <? cc) = true ->
   is_finite ch = true -> is_finite cc = true ->
   calc_C_ratio c_min c_max = Ok (py r) /\
   (0 <=? r) = true /\ (r <=? 1) = true /\
   ((r =? 1) = true <-> (ch =? cc) = true) /\
   ((1 <=? num c_min) = true -> (0 <? r) = true)).
Proof.
  intros ch cc c_min c_max r.
  assert (Hh : calc_C_hot i = py ch) by reflexivity.
  assert (Hc : calc_C_cold i = py cc) by reflexivity.
  assert (Emin : c_min = py (if cc <? ch then cc else ch)).
  { unfold c_min, py_min, vlt. rewrite Hh, Hc. cbn [num lt arith].
    destruct (cc <? ch); reflexivity. }
  assert (Emax : c_max = py (if ch <? cc then cc else ch)).
  { unfold c_max, py_max, vlt. rewrite Hh, Hc. cbn [num lt arith].
    destruct (ch <? cc); reflexivity. }
  assert (Eq : calc_C_ratio c_min c_max
               = (if num c_max =? 0 then Raise ZeroDivisionError else Ok (py r))).
  { unfold r. rewrite Emin, Emax. unfold calc_C_ratio.
    rewrite truediv_py_py. reflexivity. }
  split; [exact Eq|].
  intros Ph Pc Fh Fc.
  set (lo := num c_min) in *. set (hi := num c_max) in *.
  assert (Hlo : lo = if cc <? ch then cc else ch) by (unfold lo; rewrite Emin; reflexivity).
  assert (Hhi : hi = if ch <? cc then cc else ch) by (unfold hi; rewrite Emax; reflexivity).
  assert (K : (0 <? lo) = true /\ (lo <=? hi) = true /\ is_finite lo = true /\
              (0 <? hi) = true /\ is_finite hi = true /\
              (lo =? hi) = (ch =? cc)).
  { rewrite Hlo, Hhi.
    destruct (cc <? ch) eqn:L1.
    - assert (L2 : (ch <? cc) = false).
      { destruct (ch <? cc) eqn:X; [exfalso|reflexivity].
        pose proof (ltb_leb_false _ _ L1) as N. apply ltb_leb in X. congruence. }
      rewrite L2. repeat split; auto using ltb_leb. apply eqb_sym.
    - destruct (ch <? cc) eqn:L2.
      + repeat split; auto using ltb_leb.
      + assert (E : (ch =? cc) = true)
          by (apply ltb_false_eqb; auto using finite_not_nan).
        repeat split; auto.
        * apply leb_refl, finite_not_nan, Fh.
        * rewrite E. apply eqb_refl, finite_not_nan, Fh. }
  destruct K as (P0 & Ple & Flo & Phi & Fhi & Eeq).
  destruct (div_le_1 lo hi P0 Ple Flo) as (R0 & R1 & Riff).
  assert (Zhi : (hi =? 0) = false).
  { destruct (hi =? 0) eqn:Z; [|reflexivity].
    apply eq0_class in Z. destruct (ltb_0_class hi Phi); congruence. }
  rewrite Eq, Zhi. fold r in R0, R1, Riff.
  split; [reflexivity|]. split; [exact R0|]. split; [exact R1|].
  split; [rewrite <- Eeq; exact Riff|].
  intros H1. apply leb_0_nonzero_ltb; [exact R0|].
  apply div_ge_1_nonzero; [exact H1|].
  destruct (ltb_0_class hi Phi) as [C|C]; [exact C|].
  apply is_finite_class in Fhi. destruct Fhi; congruence.
Qed.

(** ** Temperature profile (lines 237-244) *)

Lemma nth_map_linspace (f : float -> float) (lg : float -> float) (n : nat) :
  (n < 50)%nat ->
  nth n (map f (np_linspace (of_int 0) (of_int 1) 50)) nan
  = f (nth n (np_linspace (of_int 0) (of_int 1) 50) nan).
Proof.
  intros H. rewrite (nth_indep _ nan (f nan)).
  - apply map_nth.
  - rewrite List.length_map, np_linspace_length. exact H.
Qed.

Lemma linspace_first (lg : float -> float) :
  nth 0 (np_linspace (of_int 0) (of_int 1) 50) nan = 0.
Proof. vm_compute. reflexivity. Qed.

Lemma linspace_last (lg : float -> float) :
  nth 49 (np_linspace (of_int 0) (of_int 1) 50) nan = 1.
Proof. vm_compute. reflexivity. Qed.

(** C8: [np.linspace] returns as many samples as it is asked for, and
    each of the three arrays has the 50 the script asks for, at [x]
    from 0 to 1.
    The first samples are [Th_in], and [Tc_out] (counterflow) or [Tc_in]
    (parallel flow), as soon as the temperature differences are finite;
    the last ones are [Th_in - (Th_in - Th_out)], and
    [Tc_out - (Tc_out - Tc_in)] or [Tc_in + (Tc_out - Tc_in)]: the
    outlet values after two roundings.  The profile depends on the
    configuration and the four temperatures only. *)
Theorem profile_endpoints (lg : float -> float) (c : Configuration)
    (i : Inputs float) :
  let p := temperature_profile c i in
  (forall (a b : float) (n : nat), List.length (np_linspace a b n) = n) /\
  (List.length (x p) = 50%nat /\ List.length (Th p) = 50%nat /\
   List.length (Tc p) = 50%nat) /\
  (nth 0 (x p) nan = 0 /\ nth 49 (x p) nan = 1) /\
  (is_finite (Th_in i - Th_out i) = true ->
   (nth 0 (Th p) nan =? Th_in i) = true) /\
  (is_finite (Tc_out i - Tc_in i) = true ->
   (nth 0 (Tc p) nan
    =? match c with Counterflow => Tc_out i | ParallelFlow => Tc_in i end)
   = true) /\
  nth 49 (Th p) nan = Th_in i - (Th_in i - Th_out i) /\
  nth 49 (Tc p) nan
  = match c with
    | Counterflow => Tc_out i - (Tc_out i - Tc_in i)
    | ParallelFlow => Tc_in i + (Tc_out i - Tc_in i)
    end /\
  (forall i' : Inputs float,
      Th_in i' = Th_in i -> Th_out i' = Th_out i ->
      Tc_in i' = Tc_in i -> Tc_out i' = Tc_out i ->
      temperature_profile c i' = p).
Proof.
  intros p.
  assert (Hth : Th p = map (fun t => Th_in i - (Th_in i - Th_out i) * t)
                         (np_linspace (of_int 0) (of_int 1) 50))
    by (destruct c; reflexivity).
  assert (Htc : Tc p
                = map (match c with
                       | Counterflow => fun t => Tc_out i - (Tc_out i - Tc_in i) * t
                       | ParallelFlow => fun t => Tc_in i + (Tc_out i - Tc_in i) * t
                       end)
                    (np_linspace (of_int 0) (of_int 1) 50))
    by (destruct c; reflexivity).
  assert (Hx : x p = np_linspace (of_int 0) (of_int 1) 50)
    by (destruct c; reflexivity).
  split; [intros a b n; apply np_linspace_length|].
  split; [|split; [|split; [|split; [|split; [|split]]]]].
  - rewrite Hth, Htc, Hx, !List.length_map, np_linspace_length. auto.
  - rewrite Hx. split; [apply linspace_first | apply linspace_last].
  - intros Fd. rewrite Hth, (nth_map_linspace _ lg), linspace_first by lia.
    destruct (sub_finite_inv _ _ Fd) as [Fi _].
    apply sub_zero_eqb; [exact Fi|]. apply mul_zero_class; [exact Fd|reflexivity].
  - intros Fd. rewrite Htc, (nth_map_linspace _ lg), linspace_first by lia.
    destruct (sub_finite_inv _ _ Fd) as [Fo Fi].
    destruct c.
    + apply sub_zero_eqb; [exact Fo|]. apply mul_zero_class; [exact Fd|reflexivity].
    + apply add_zero_eqb; [exact Fi|]. apply mul_zero_class; [exact Fd|reflexivity].
  - rewrite Hth, (nth_map_linspace _ lg), linspace_last by lia.
    rewrite mul_1_r. reflexivity.
  - rewrite Htc, (nth_map_linspace _ lg), linspace_last by lia.
    destruct c; rewrite mul_1_r; reflexivity.
  - intros i' E1 E2 E3 E4. unfold p, temperature_profile.
    rewrite E1, E2, E3, E4. reflexivity.
Qed.

(** ** The overall coefficient [U] (lines 184 and 198) *)


(** ** The configuration (lines 171-176) *)

(** C2: when both evaluations run to their end they agree on [Q_hot],
    [Q_cold], [C_min], [C_max], [C_ratio] and [effectiveness] (and on
    every result other than [dT1], [dT2], [LMTD], [A] and [NTU]).
    Counterflow takes [dT1 = Th_in - Tc_out] and [dT2 = Th_out - Tc_in],
    parallel flow [dT1 = Th_in - Tc_in] and [dT2 = Th_out - Tc_out];
    [LMTD], [A] and [NTU] change only if one of these differences does,
    and none does when [Tc_in = Tc_out].  On the default readings all
    five results change (with the series [log_model] for [np.log]);
    with hot temperatures of 1e20 and 9e19 degrees none does, whatever
    [np.log] computes, the cold temperatures 25 and 70 being lost in
    the rounding of the differences (over the reals [dT1] and [dT2]
    change as soon as [Tc_in] and [Tc_out] differ). *)
Theorem configuration_change :
  (forall (lg : float -> float) (i : Inputs float) (r1 r2 : Results float),
      calculations Counterflow i = Ok r1 ->
      calculations ParallelFlow i = Ok r2 ->
      (Q_hot r1 = Q_hot r2 /\ Q_cold r1 = Q_cold r2 /\
       C_min r1 = C_min r2 /\ C_max r1 = C_max r2 /\
       C_ratio r1 = C_ratio r2 /\ effectiveness r1 = effectiveness r2 /\
       Q_avg r1 = Q_avg r2 /\ Q r1 = Q r2 /\
       C_hot r1 = C_hot r2 /\ C_cold r1 = C_cold r2 /\
       Q_max r1 = Q_max r2 /\
       heat_balance_error r1 = heat_balance_error r2) /\
      (dT1 r1 = py (Th_in i - Tc_out i) /\ dT2 r1 = py (Th_out i - Tc_in i) /\
       dT1 r2 = py (Th_in i - Tc_in i) /\ dT2 r2 = py (Th_out i - Tc_out i)) /\
      (dT1 r1 = dT1 r2 -> dT2 r1 = dT2 r2 ->
       LMTD r1 = LMTD r2 /\ A r1 = A r2 /\ NTU r1 = NTU r2) /\
      (Tc_in i = Tc_out i -> r1 = r2)) /\
  (exists r1 r2 : Results float,
      calculations Counterflow default_inputs = Ok r1 /\
      calculations ParallelFlow default_inputs = Ok r2 /\
      dT1 r1 = py 80 /\ dT1 r2 = py 125 /\
      dT2 r1 = py 65 /\ dT2 r2 = py 20 /\
      (num (dT1 r1) =? num (dT1 r2)) = false /\
      (num (dT2 r1) =? num (dT2 r2)) = false /\
      (num (LMTD r1) =? num (LMTD r2)) = false /\
      (num (A r1) =? num (A r2)) = false /\
      (num (NTU r1) =? num (NTU r2)) = false) /\
  (forall lg : float -> float,
      (Tc_in absorbed_cold =? Tc_out absorbed_cold) = false /\
      calc_dT1 Counterflow absorbed_cold = py 1e20 /\
      calc_dT1 ParallelFlow absorbed_cold = py 1e20 /\
      calc_dT2 Counterflow absorbed_cold = py 9e19 /\
      calc_dT2 ParallelFlow absorbed_cold = py 9e19 /\
      calculations Counterflow absorbed_cold
      = calculations ParallelFlow absorbed_cold) /\
  (forall i : Inputs R,
      Tc_in i <> Tc_out i ->
      @calc_dT1 R Exact.arith Counterflow i
      <> @calc_dT1 R Exact.arith ParallelFlow i /\
      @calc_dT2 R Exact.arith Counterflow i
      <> @calc_dT2 R Exact.arith ParallelFlow i).
Proof.
  split.
  - intros lg i r1 r2 H1 H2.
    split; [exact (proj1 (configuration_unchanged i) r1 r2 H1 H2)|].
    split.
    + pose proof (calculations_runs _ _ _ H1) as R1.
      pose proof (calculations_runs _ _ _ H2) as R2.
      destruct R1 as (_ & _ & _ & _ & D1 & D2 & _).
      destruct R2 as (_ & _ & _ & _ & D1' & D2' & _).
      rewrite D1, D2, D1', D2'. repeat split.
    + split.
      * intros E1 E2.
        rewrite (same_differences_same_run _ _ i r1 r2 H1 H2 E1 E2).
        repeat split.
      * intros E. pose proof (proj2 (configuration_unchanged i) E) as K.
        rewrite H1, H2 in K. apply Ok_inj in K. exact K.
  - split; [|split].
    + exists default_counterflow, default_parallel.
      split; [exact default_counterflow_run|].
      split; [exact default_parallel_run|].
      repeat split.
    + intros lg. repeat split.
    + intros i H. cbn. split; intros E; injection E as E; apply H; lra.
Qed.

(** ** Instances *)

Lemma heat_balance_error_zero_witness :
  calc_Q_avg (py 627) (py 627) = Ok (py 627) /\
  calc_heat_balance_error (py 627) (py 627) (py 627) = Ok (py 0) /\
  ((abs (627 - 627) / 627 * 100 =? 0) = true <-> (627 =? 627) = true) /\
  ((abs (627 - 564.29999999999995) / 595.64999999999998 * 100 =? 0) = true
   <-> (627 =? 564.29999999999995) = true) /\
  calc_heat_balance_error (py 0) (py 0) (py 0) = Raise ZeroDivisionError.
Proof.
  destruct (heat_balance_error_zero log_model balanced) as (H1 & H2 & _ & H4 & _).
  destruct (heat_balance_error_zero log_model default_inputs)
    as (_ & _ & _ & H4' & _).
  destruct (heat_balance_error_zero log_model (readings 100 100 50 50))
    as (_ & H2' & H3' & _).
  split; [exact H1|]. split; [exact H2|].
  split; [exact (H4 eq_refl eq_refl)|].
  split; [exact (H4' eq_refl eq_refl)|].
  pose proof (H3' eq_refl eq_refl) as Z. exact H2'.
Defined.

Lemma effectiveness_fails_witness :
  calc_Q_max (py 10450) default_inputs = py 1306250 /\
  calc_effectiveness (py 595650) (py 1306250) = Ok (py 0.45600000000000002) /\
  (10450 * (150 - 25) =? 0) = false /\
  (10450 * (150 - 150) =? 0) = true /\
  calc_effectiveness (py 595650) (py 0) = Raise ZeroDivisionError.
Proof.
  destruct (effectiveness_fails log_model default_inputs 595650)
    as (H1 & H2 & _ & H4).
  destruct (effectiveness_fails log_model (readings 150 90 150 70) 595650)
    as (_ & H2' & H3' & _).
  split; [exact H1|]. split; [exact H2|].
  split; [exact (H4 eq_refl eq_refl eq_refl eq_refl)|].
  split; [exact (H3' eq_refl eq_refl eq_refl)|exact H2'].
Defined.

Lemma C_ratio_range_witness :
  calc_C_ratio (py 10450) (py 12540) = Ok (py 0.83333333333333337) /\
  (0 <? 0.83333333333333337) = true /\
  (0.83333333333333337 <=? 1) = true /\
  ((0.83333333333333337 =? 1) = true <-> (10450 =? 12540) = true).
Proof.
  destruct (C_ratio_range log_model default_inputs) as (_ & H).
  destruct (H eq_refl eq_refl eq_refl eq_refl) as (H1 & _ & H3 & H4 & H5).
  split; [exact H1|]. split; [exact (H5 eq_refl)|].
  split; [exact H3|exact H4].
Defined.

Lemma profile_endpoints_witness :
  let p := temperature_profile Counterflow default_inputs in
  List.length (Th p) = 50%nat /\
  (nth 0 (Th p) nan =? 150) = true /\ (nth 0 (Tc p) nan =? 70) = true /\
  nth 49 (Th p) nan = 90 /\ nth 49 (Tc p) nan = 25.
Proof.
  destruct (profile_endpoints log_model Counterflow default_inputs)
    as (_ & (_ & H1 & _) & _ & H2 & H3 & H4 & H5 & _).
  split; [exact H1|]. split; [exact (H2 eq_refl)|].
  split; [exact (H3 eq_refl)|]. split; [exact H4|exact H5].
Defined.


Lemma configuration_change_witness :
  Q_hot default_counterflow = Q_hot default_parallel /\
  effectiveness default_counterflow = effectiveness default_parallel /\
  dT1 default_counterflow = py (150 - 70) /\
  dT1 default_parallel = py (150 - 25) /\
  (exists r1 r2,
      calculations Counterflow (readings 150 90 50 50) = Ok r1 /\
      calculations ParallelFlow (readings 150 90 50 50) = Ok r2 /\
      r1 = r2).
Proof.
  destruct configuration_change as [H _].
  destruct (H log_model default_inputs default_counterflow default_parallel
              default_counterflow_run default_parallel_run)
    as ((E1 & _ & _ & _ & _ & E2 & _) & (D1 & _ & D2 & _) & _).
  split; [exact E1|]. split; [exact E2|]. split; [exact D1|]. split; [exact D2|].
  exists flat_cold, flat_cold.
  split; [exact flat_cold_counterflow_run|].
  split; [exact flat_cold_parallel_run|].
  destruct (H log_model (readings 150 90 50 50) flat_cold flat_cold
              flat_cold_counterflow_run flat_cold_parallel_run)
    as (_ & _ & _ & K).
  exact (K eq_refl).
Defined.

End Block64.

(** * Further counterexamples, on binary64 numbers *)

Module Refuted64.

Import IEEE Cases.
#[local] Open Scope float_scope.

#[local] Hint Extern 1 (Arith float) => exact (arith log_model)
  : typeclass_instances.

(** Beside the zero duties of [Refuted.equal_zero_duties_raise]: with
    duties of 1e308 and 1.5e308 kW their sum overflows, [Q_avg] is
    infinite and the heat balance error is 0 although the duties
    differ. *)
Lemma overflow_duties_error_zero :
  exists r,
    calculations Counterflow huge_duties = Ok r /\
    Q_hot r = py 1e308 /\ Q_cold r = py 1.5e308 /\
    Q_avg r = py infinity /\ heat_balance_error r = py 0.
Proof.
  destruct (calculations Counterflow huge_duties) as [r|e] eqn:E;
    [|vm_compute in E; discriminate].
  exists r. split; [reflexivity|].
  vm_compute in E. injection E as <-. repeat split.
Qed.

(** Counterexample to C6: with a hot-side flow rate and specific heat of
    1e-200, both positive, [C_hot = C_min] underflows to 0, so that
    [Q_max = 0] and line 195 raises [ZeroDivisionError] although
    [Th_in = 150] differs from [Tc_in = 25]. *)
Lemma tiny_capacity_raises :
  (0 <? m_hot tiny_hot) = true /\ (0 <? Cp_hot tiny_hot) = true /\
  (0 <? m_cold tiny_hot) = true /\ (0 <? Cp_cold tiny_hot) = true /\
  (Th_in tiny_hot =? Tc_in tiny_hot) = false /\
  py_min (calc_C_hot tiny_hot) (calc_C_cold tiny_hot) = py 0 /\
  calc_Q_max (py 0) tiny_hot = py 0 /\
  calc_effectiveness (py 282150) (py 0) = Raise ZeroDivisionError /\
  calculations Counterflow tiny_hot = Raise ZeroDivisionError.
Proof. repeat split. Qed.

(** Counterexample to C7: with all four flow rates and specific heats at
    1e-200 both capacity rates underflow to 0 and line 191 raises
    [ZeroDivisionError]; with capacity rates of 4.18e-317 and 4.18e303,
    both positive and finite, the block runs to its end with
    [C_ratio = 0], outside [(0, 1]]; so it does with a hot-side flow
    rate of 1e308, whose capacity rate overflows. *)
Lemma C_ratio_outside :
  ((0 <? m_hot tiny_both) = true /\ (0 <? Cp_hot tiny_both) = true /\
   (0 <? m_cold tiny_both) = true /\ (0 <? Cp_cold tiny_both) = true /\
   calc_C_hot tiny_both = py 0 /\ calc_C_cold tiny_both = py 0 /\
   calc_C_ratio (py 0) (py 0) = Raise ZeroDivisionError /\
   calculations Counterflow tiny_both = Raise ZeroDivisionError) /\
  ((0 <? m_hot far_rates) = true /\ (0 <? Cp_hot far_rates) = true /\
   (0 <? m_cold far_rates) = true /\ (0 <? Cp_cold far_rates) = true /\
   exists r,
     calculations Counterflow far_rates = Ok r /\
     C_min r = py 4.1797953638169458e-317 /\
     C_max r = py 4.1799999999999999e+303 /\
     C_ratio r = py 0) /\
  ((0 <? m_hot huge_hot) = true /\ (0 <? Cp_hot huge_hot) = true /\
   (0 <? m_cold huge_hot) = true /\ (0 <? Cp_cold huge_hot) = true /\
   exists r,
     calculations Counterflow huge_hot = Ok r /\
     C_min r = py 12540 /\ C_max r = py infinity /\ C_ratio r = py 0).
Proof.
  split; [repeat split|]. split.
  - split; [reflexivity|]. split; [reflexivity|].
    split; [reflexivity|]. split; [reflexivity|].
    destruct (calculations Counterflow far_rates) as [r|e] eqn:E;
      [|vm_compute in E; discriminate].
    exists r. split; [reflexivity|].
    vm_compute in E. injection E as <-. repeat split.
  - split; [reflexivity|]. split; [reflexivity|].
    split; [reflexivity|]. split; [reflexivity|].
    destruct (calculations Counterflow huge_hot) as [r|e] eqn:E;
      [|vm_compute in E; discriminate].
    exists r. split; [reflexivity|].
    vm_compute in E. injection E as <-. repeat split.
Qed.

(** Counterexample to C8: for the readings 150.1, 90.3, 25.7 and 70.2
    under counterflow the last cold sample, [70.2 - (70.2 - 25.7)], is
    25.700000000000003 and not [Tc_in = 25.7]. *)
Lemma last_sample_rounded :
  let p := temperature_profile Counterflow decimal_readings in
  nth 49 (x p) nan = 1 /\
  nth 49 (Tc p) nan = 25.700000000000003 /\
  Tc_in decimal_readings = 25.7 /\
  (nth 49 (Tc p) nan =? Tc_in decimal_readings) = false.
Proof. repeat split. Qed.


End Refuted64.
